(** * odoo/tools/image.py : the [image_process] pipeline

    A shallow embedding of the resize / crop / recolor / re-encode pipeline of
    [odoo.tools.image.image_process], and the properties of it that the
    specification states.

    The arithmetic of the module (floor division, true division, the
    resolution guard) is embedded exactly; the true division of Python is
    written on integers and proved to be the binary64 division of the
    standard library ([round_quot_SFdiv]).  Pixel data
    and the codecs are the business of Pillow: they appear through an
    interface ([Pillow]) whose operations are kept abstract, while the parts of
    Pillow's behaviour that decide sizes ([thumbnail], [crop]) are written
    out.  [str.upper] is Python's and appears through [StrUpper]. *)

From Stdlib Require Import ZArith Lia Bool List QArith Qround.
From Stdlib Require Import Floats.SpecFloat.
From Stdlib Require Import Strings.String Strings.Ascii Strings.Byte.
From stdpp Require Import base gmap strings.
Import ListNotations.

Local Open Scope Z_scope.

(** ** Python floats

    Every finite binary64 number is an integer multiple of the smallest
    subnormal [2^-1074].  A float is represented by that integer: the value of
    [v : Binary64.t] is [v * 2^-1074].  Comparison of floats is then comparison
    of integers, and [-0.0] and [0.0] (which Python compares equal) coincide. *)
Module Binary64.

Definition t := Z.

Definition prec : Z := 53.
Definition emax : Z := 1024.
(** exponent of the unit in the last place of the smallest subnormal *)
Definition tiny : Z := 1074.

(** The integer [n] in units of [2^-1074]: the float [float(n)] when
    binary64 holds [n] exactly, as it does the literals of the module. *)
Definition of_int (n : Z) : t := n * 2 ^ tiny.

(** [n > x] for an int [n] and a float [x]: Python compares the exact
    values, without converting [n]. *)
Definition int_gtb (n : Z) (x : t) : bool := n * 2 ^ tiny >? x.

(** The integer nearest to [p / q], ties to even ([0 <= p], [0 < q]). *)
Definition rne_div (p q : Z) : Z :=
  let k := p / q in
  match 2 * (p mod q) ?= q with
  | Lt => k
  | Eq => if Z.even k then k else k + 1
  | Gt => k + 1
  end.

(** Exponent (above [2^-1074]) of the last place kept for the quotient
    [p / q] of units: 53 significant bits, none below the unit. *)
Definition ulp_exp (p q : Z) : Z := Z.max (Z.log2 (p / q) - (prec - 1)) 0.

(** [p / q] rounded to the nearest multiple of [2 ^ ulp_exp p q]. *)
Definition round_pos (p q : Z) : Z :=
  let e := ulp_exp p q in rne_div p (q * 2 ^ e) * 2 ^ e.

(** The correctly rounded quotient [a / b], in units of [2^-1074]. *)
Definition round_quot (a b : Z) : t :=
  Z.sgn a * Z.sgn b * round_pos (Z.abs a * 2 ^ tiny) (Z.abs b).

(** First magnitude that binary64 cannot hold: [2^1024]. *)
Definition huge : t := 2 ^ (emax + tiny).

Definition gtb (x y : t) : bool := x >? y.

Definition to_Q (x : t) : Q := inject_Z x / inject_Z (2 ^ tiny).

(** The same number as a [spec_float] of the standard library: the float
    [x * 2^-1074], or infinity from [2^1024] on. *)
Definition to_spec (x : t) : spec_float :=
  match x with
  | Z0 => S754_zero false
  | _ =>
      let e := Z.max (Z.log2 (Z.abs x) - (prec - 1)) 0 in
      match Z.abs x / 2 ^ e with
      | Zpos m =>
          if e - tiny <=? emax - prec then S754_finite (x <? 0) m (e - tiny)
          else S754_infinity (x <? 0)
      | _ => S754_nan
      end
  end.

End Binary64.

(** ** Exceptions and results *)

Inductive exn :=
| ZeroDivisionError
| OverflowError
(** [ValueError(template % str(arg))], the error of the resolution guard;
    [str] of a float is left symbolic. *)
| ValueError (template : string) (arg : Binary64.t)
(** [binascii.Error] or [OSError] out of [base64_to_image]. *)
| DecodeError (detail : string)
(** [None.upper()]: neither an output format nor an image format. *)
| AttributeError
(** a call that lacks a required argument *)
| TypeError
(** an exception that Pillow raises on pixel data, with its message *)
| PillowError (message : string).

Inductive result (A : Type) :=
| Return (a : A)
| Raise (e : exn).
Arguments Return {A} a.
Arguments Raise {A} e.

#[export] Instance result_ret : MRet result := fun A a => Return a.

#[export] Instance result_bind : MBind result := fun A B k r =>
  match r with
  | Return a => k a
  | Raise e => Raise e
  end.

(** [a // b] *)
Definition py_floordiv (a b : Z) : result Z :=
  if b =? 0 then Raise ZeroDivisionError else Return (a / b).

(** [a / b] on two ints: the exact quotient, correctly rounded. *)
Definition py_truediv (a b : Z) : result Binary64.t :=
  if b =? 0 then Raise ZeroDivisionError
  else
    let v := Binary64.round_quot a b in
    if Binary64.huge <=? Z.abs v then Raise OverflowError else Return v.

(** [x / y] on two floats: as [py_truediv] on their units, except that an
    overflow is [inf] and not an error; it does not arise below. *)
Definition float_truediv (x y : Binary64.t) : result Binary64.t :=
  if y =? 0 then Raise ZeroDivisionError else Return (Binary64.round_quot x y).


(** ** Python values of the module *)

(** [base64_source] : "string or bytes", or a falsy placeholder. *)
Inductive source :=
| SrcNone
| SrcFalse
| SrcBytes (b : list byte)
| SrcStr (s : string).

(** [not base64_source] *)
Definition falsy_source (src : source) : bool :=
  match src with
  | SrcBytes (_ :: _) => false
  | SrcStr (String _ _) => false
  | _ => true
  end.

(** [base64_source[:1] == b'P']: a [str] never equals a [bytes]. *)
Definition svg_sniffed (src : source) : bool :=
  match src with
  | SrcBytes ("P"%byte :: _) => true
  | _ => false
  end.

(** What [image_process] returns. *)
Inductive value :=
| VFalse
| VSource (src : source)
| VBytes (b : list byte).

(** The [crop] argument: [None], a bool ([limited_image_resize]) or a string. *)
Inductive crop_arg :=
| CropNone
| CropBool (b : bool)
| CropStr (s : string).

Definition truthy_crop (c : crop_arg) : bool :=
  match c with
  | CropNone => false
  | CropBool b => b
  | CropStr EmptyString => false
  | CropStr _ => true
  end.

(** Values of the keyword arguments handed to [Image.save]. *)
Inductive pyval :=
| PStr (s : string)
| PBool (b : bool)
| PInt (n : Z).

(** [str.upper] on ASCII text: [a-z] become [A-Z], the rest stays. *)
Definition upper_ascii (c : ascii) : ascii :=
  let n := nat_of_ascii c in
  if ((97 <=? n) && (n <=? 122))%nat then ascii_of_nat (n - 32) else c.

Fixpoint py_upper (s : string) : string :=
  match s with
  | EmptyString => EmptyString
  | String c s' => String (upper_ascii c) (py_upper s')
  end.

(** Text within ASCII. *)
Definition ascii_text (s : string) : bool :=
  forallb (fun c => (nat_of_ascii c <? 128)%nat) (list_ascii_of_string s).

(** [str.upper()] on any text.  The case tables of Unicode belong to Python,
    not to this module (the dotless i of ['gıf'] becomes [I]): [str_upper] is
    taken as it is, a [str] being held as its UTF-8 text, and the one thing
    known of it is what it does on ASCII text. *)
Class StrUpper := {
  str_upper : string -> string;
  str_upper_ascii : forall s, ascii_text s = true -> str_upper s = py_upper s
}.

(** ** Constants of the module *)

Definition IMAGE_BIG_SIZE : Z * Z := (1024, 1024).
Definition IMAGE_LARGE_SIZE : Z * Z := (256, 256).
Definition IMAGE_MEDIUM_SIZE : Z * Z := (128, 128).
Definition IMAGE_SMALL_SIZE : Z * Z := (64, 64).

(** [45e6] *)
Definition IMAGE_MAX_RESOLUTION : Binary64.t := Binary64.of_int 45000000.

(** The literal [10e6] of the error message. *)
Definition ten_e6 : Binary64.t := Binary64.of_int 10000000.

Definition resolution_template : string :=
  "Image size excessive, uploaded images must be smaller than %s million pixels.".

(** ** Resize and crop geometry (lines 107-141) *)

(** [asked_width] and [asked_height]; [x or y] evaluates [y] only when [x] is
    zero.  A [None] component (as [limited_image_resize] passes) takes the
    same path as [0]. *)
Definition asked_size (w h : Z) (size : Z * Z) : result (Z * Z) :=
  asked_width ← (if size.1 =? 0 then py_floordiv (w * size.2) h else Return size.1);
  asked_height ← (if size.2 =? 0 then py_floordiv (h * size.1) w else Return size.2);
  Return (asked_width, asked_height).

(** The branch of line 117: [true] keeps the full width. *)
Definition crop_branch (w h asked_width asked_height : Z) : result bool :=
  rw ← py_truediv w asked_width;
  rh ← py_truediv h asked_height;
  Return (Binary64.gtb rw rh).

(** Lines 118 and 120: the window of the branch taken. *)
Definition branch_window (w h asked_width asked_height : Z) (wider : bool) : result (Z * Z) :=
  if wider then
    new_h ← py_floordiv (asked_height * w) asked_width; Return (w, new_h)
  else
    new_w ← py_floordiv (asked_width * h) asked_height; Return (new_w, h).

(** Lines 122-126: no cropping above the image size.  The right-hand sides
    are evaluated before either name is assigned. *)
Definition clamp_window (w h : Z) (window : Z * Z) : result (Z * Z) :=
  '(new_w, new_h) ←
    (if window.1 >? w then
       x ← py_floordiv (window.2 * w) window.1; Return (w, x)
     else Return window);
  (if new_h >? h then
     x ← py_floordiv (new_w * h) new_h; Return (x, h)
   else Return (new_w, new_h)).

(** Lines 117-126: the crop window [(new_w, new_h)]. *)
Definition crop_window (w h asked_width asked_height : Z) : result (Z * Z) :=
  wider ← crop_branch w h asked_width asked_height;
  window ← branch_window w h asked_width asked_height wider;
  clamp_window w h window.

(** Lines 130-135.  The anchors are the literals [0.5], [0] and [1]. *)
Definition center_x : Q := 1 # 2.

Definition center_y (crop : crop_arg) : Q :=
  match crop with
  | CropStr "top" => 0
  | CropStr "bottom" => 1
  | _ => 1 # 2
  end.

(** Lines 136-137: [(x_offset, h_offset)].  Halves of integers below [2^53]
    are exact in binary64, so the products are written as rationals. *)
Definition crop_offsets (w h new_w new_h : Z) (crop : crop_arg) : Q * Q :=
  ((inject_Z (w - new_w) * center_x)%Q, (inject_Z (h - new_h) * center_y crop)%Q).

(** The box handed to [image.crop] (line 139). *)
Definition crop_box (w h new_w new_h : Z) (crop : crop_arg) : Q * Q * Q * Q :=
  let '(x_offset, h_offset) := crop_offsets w h new_w new_h crop in
  (x_offset, h_offset, (x_offset + inject_Z new_w)%Q, (h_offset + inject_Z new_h)%Q).

(** [round] of Python 3: to the nearest integer, halves to the even one. *)
Definition py_round (q : Q) : Z :=
  let f := Qfloor q in
  match Qcompare (q - inject_Z f) (1 # 2) with
  | Lt => f
  | Eq => if Z.even f then f else f + 1
  | Gt => f + 1
  end.

(** ** Pillow

    An image as [image_process] sees it: its size, its mode, its format, whether
    ['transparency' in image.info], and the pixel data, which stays opaque. *)
Record image (Pix : Type) := Image {
  im_size : Z * Z;
  im_mode : string;
  im_format : option string;
  im_transparency : bool;
  im_data : Pix
}.
Arguments Image {Pix}.
Arguments im_size {Pix}.
Arguments im_mode {Pix}.
Arguments im_format {Pix}.
Arguments im_transparency {Pix}.
Arguments im_data {Pix}.

(** What an operation of Pillow that can refuse its arguments gives: the
    pixel data, or the message of the exception it raises. *)
Inductive pillow (A : Type) :=
| Done (a : A)
| Failed (message : string).
Arguments Done {A} a.
Arguments Failed {A} message.

(** The codec and the pixel operations of Pillow that the module calls.
    Decoding fails as the docstring says ([binascii.Error], [OSError]);
    [paste] with a mask refuses the masks it cannot read; [putalpha] chooses
    the mode with an alpha band by a table of Pillow's, [px_putalpha_mode],
    which is taken as it is. *)
Class Pillow (Pix : Type) := {
  b64decode : source -> result (list byte);
  b64encode : list byte -> list byte;
  image_open : list byte -> result (image Pix);
  image_save : image Pix -> string -> gmap string pyval -> list byte;
  px_crop : Pix -> Z * Z * Z * Z -> Pix;
  px_resize : Pix -> Z * Z -> Pix;
  px_new : string -> Z * Z -> Pix;
  px_paste_color : Pix -> Z * Z * Z -> Z * Z * Z * Z -> Pix;
  px_paste_masked : Pix -> image Pix -> image Pix -> pillow Pix;
  px_convert : string -> string -> Pix -> Pix;
  px_convert_web : string -> Pix -> Pix;
  px_alpha_band : Pix -> Pix;
  px_putalpha : Pix -> Pix -> Pix;
  px_putalpha_mode : string -> string
}.

(** The generator behind [random.randrange]: [randbelow n] draws from
    [0 .. n-1] and moves the generator on. *)
Class RandomSource (Rng : Type) := {
  randbelow : Z -> Rng -> Z * Rng;
  randbelow_range : forall n g, 0 < n -> 0 <= (randbelow n g).1 < n
}.

(** [randrange(start, stop, step)] for a positive [step], as [random.py] has
    it: [start + step * randbelow(n)] with [n] the length of the range. *)
Definition randrange {Rng} `{!RandomSource Rng} (start stop step : Z) (g : Rng) : Z * Rng :=
  let n := (stop - start + step - 1) / step in
  let '(k, g') := randbelow n g in
  (start + step * k, g').

(** Modelled from the spec: the size that Pillow's [Image.thumbnail] aims at
    for an image of size [(x, y)] asked to fit [size]; Pillow is not under
    src/.  Section 4.1 step 4c: downscale only, fit within the asked size,
    keep the aspect ratio, in integer arithmetic (section 9).  For an asked
    side of 0 the size has an empty side: no image has it, [thumbnail]
    raises. *)
Definition thumbnail_size (xy size : Z * Z) : Z * Z :=
  let '(x, y) := xy in
  let '(x, y) := if x >? size.1 then (size.1, Z.max (y * size.1 / x) 1) else (x, y) in
  if y >? size.2 then (Z.max (x * size.2 / y) 1, size.2) else (x, y).

(** Modelled from the spec: section 3, an image has a width and a height
    above 0.  A size with a side that is not is one that Pillow's resize
    refuses ([ValueError]); Pillow is not under src/. *)
Definition empty_size (size : Z * Z) : bool :=
  (size.1 <=? 0) || (size.2 <=? 0).

(** Modelled from the spec: the size of the image that Pillow's [Image.crop]
    cuts out of a box; Pillow is not under src/.  Section 4.2: the
    coordinates of the rectangle are rounded ([round], then [int]). *)
Definition box_pixels (box : Q * Q * Q * Q) : Z * Z * Z * Z :=
  let '(x0, y0, x1, y1) := box in
  (py_round x0, py_round y0, py_round x1, py_round y1).

Definition cropped_size (box : Q * Q * Q * Q) : Z * Z :=
  let '(x0, y0, x1, y1) := box_pixels box in
  (Z.max (x1 - x0) 0, Z.max (y1 - y0) 0).

Definition string_in (s : string) (l : list string) : bool :=
  existsb (String.eqb s) l.

Section Pipeline.
Context {Pix Rng : Type} `{!Pillow Pix} `{!RandomSource Rng} {Upper : StrUpper}.

(** [image.crop(box)]: a new image; mode and info are those of the source. *)
Definition crop (img : image Pix) (box : Q * Q * Q * Q) : image Pix :=
  {| im_size := cropped_size box;
     im_mode := im_mode img;
     im_format := None;
     im_transparency := im_transparency img;
     im_data := px_crop (im_data img) (box_pixels box) |}.

(** [image.thumbnail(size, Image.LANCZOS)], in place; nothing happens when
    the size does not change, and the resize to a size with an empty side
    raises. *)
Definition thumbnail (img : image Pix) (size : Z * Z) : result (image Pix) :=
  let new_size := thumbnail_size (im_size img) size in
  if decide (new_size = im_size img) then Return img
  else if empty_size new_size then Raise (PillowError "height and width must be > 0")
  else
    Return {| im_size := new_size;
              im_mode := im_mode img;
              im_format := im_format img;
              im_transparency := im_transparency img;
              im_data := px_resize (im_data img) new_size |}.

(** [image.convert(mode)] *)
Definition convert (mode : string) (img : image Pix) : image Pix :=
  {| im_size := im_size img;
     im_mode := mode;
     im_format := None;
     im_transparency := im_transparency img;
     im_data := px_convert (im_mode img) mode (im_data img) |}.

(** [image.convert('P', palette=Image.WEB, colors=256)] *)
Definition convert_web (img : image Pix) : image Pix :=
  {| im_size := im_size img;
     im_mode := "P";
     im_format := None;
     im_transparency := im_transparency img;
     im_data := px_convert_web (im_mode img) (im_data img) |}.

(** [image.putalpha(alpha)], in place: the image takes the mode that
    Pillow's table gives it. *)
Definition putalpha (img : image Pix) (alpha : Pix) : image Pix :=
  {| im_size := im_size img;
     im_mode := px_putalpha_mode (im_mode img);
     im_format := im_format img;
     im_transparency := im_transparency img;
     im_data := px_putalpha (im_data img) alpha |}.

(** Lines 216-228. *)
Definition base64_to_image (src : source) : result (image Pix) :=
  raw ← b64decode src; image_open raw.

(** Lines 231-245; [format] is a required argument, the other keywords go
    to [Image.save]. *)
Definition image_to_base64 (img : image Pix) (kwargs : gmap string pyval) : result (list byte) :=
  match kwargs !! "format" with
  | Some (PStr format) => Return (b64encode (image_save img format (delete "format" kwargs)))
  | _ => Raise TypeError
  end.

(** Lines 94-96.  An int and a float compare by their exact values. *)
Definition check_resolution (verify_resolution : bool) (w h : Z) : result unit :=
  if verify_resolution && Binary64.int_gtb (w * h) IMAGE_MAX_RESOLUTION then
    limit ← float_truediv IMAGE_MAX_RESOLUTION ten_e6;
    Raise (ValueError resolution_template limit)
  else Return tt.

(** Lines 99-103. *)
Definition resolve_format (output_format image_format : option string) : result string :=
  chosen ← match output_format with
           | Some (String c s) => Return (String c s)
           | _ => match image_format with
                  | Some f => Return f
                  | None => Raise AttributeError
                  end
           end;
  let output_format := str_upper chosen in
  Return (if String.eqb output_format "BMP" then "PNG"
          else if negb (string_in output_format ["PNG"; "JPEG"; "GIF"]) then "JPEG"
          else output_format).

(** Lines 107-141. *)
Definition resize_step (img : image Pix) (size : Z * Z) (crop_opt : crop_arg) : result (image Pix) :=
  if negb (size.1 =? 0) || negb (size.2 =? 0) then
    let '(w, h) := im_size img in
    '(asked_width, asked_height) ← asked_size w h size;
    img ← (if truthy_crop crop_opt then
             '(new_w, new_h) ← crop_window w h asked_width asked_height;
             Return (crop img (crop_box w h new_w new_h crop_opt))
           else Return img);
    thumbnail img (asked_width, asked_height)
  else Return img.

(** Lines 146-148: a canvas of the size of the original, filled with
    [color], and the original pasted over it with itself as the mask, which
    Pillow can refuse. *)
Definition paste_on_color (original : image Pix) (color : Z * Z * Z) : result (image Pix) :=
  let canvas := px_new "RGB" (im_size original) in
  let canvas := px_paste_color canvas color (0, 0, (im_size original).1, (im_size original).2) in
  match px_paste_masked canvas original original with
  | Done data =>
      Return {| im_size := im_size original;
                im_mode := "RGB";
                im_format := None;
                im_transparency := false;
                im_data := data |}
  | Failed message => Raise (PillowError message)
  end.

(** Lines 144-148: the three draws come first, whatever the paste does. *)
Definition colorize_step (original : image Pix) (g : Rng) : result (image Pix) * Rng :=
  let '(red, g) := randrange 32 224 24 g in
  let '(green, g) := randrange 32 224 24 g in
  let '(blue, g) := randrange 32 224 24 g in
  (paste_on_color original (red, green, blue), g).

(** Lines 152-159. *)
Definition png_step (img : image Pix) : image Pix :=
  let alpha :=
    if string_in (im_mode img) ["RGBA"; "LA"]
       || (String.eqb (im_mode img) "P" && im_transparency img)
    then Some (px_alpha_band (im_data (convert "RGBA" img)))
    else None in
  let img := if negb (String.eqb (im_mode img) "P")
             then convert_web (convert "RGBA" img) else img in
  match alpha with
  | Some a => putalpha img a
  | None => img
  end.

(** Lines 105 and 150-169. *)
Definition encode_step (img : image Pix) (output_format : string) (quality : Z) : result value :=
  let opt : gmap string pyval := {[ "format" := PStr output_format ]} in
  let '(img, opt) :=
    if String.eqb output_format "PNG"
    then (png_step img, <["optimize" := PBool true]> opt) else (img, opt) in
  let opt :=
    if String.eqb output_format "JPEG"
    then <["quality" := PInt quality]> (<["optimize" := PBool true]> opt) else opt in
  let opt :=
    if String.eqb output_format "GIF"
    then <["optimize" := PBool true]> opt else opt in
  let img :=
    if negb (string_in (im_mode img) ["1"; "L"; "P"; "RGB"; "RGBA"])
       || (String.eqb output_format "JPEG" && String.eqb (im_mode img) "RGBA")
    then convert "RGB" img else img in
  encoded ← image_to_base64 img opt;
  Return (VBytes encoded).

(** Lines 92-141: everything before the random draw. *)
Definition prepare (base64_source : source) (size : Z * Z) (verify_resolution : bool)
    (crop_opt : crop_arg) (output_format : option string) : result (image Pix * string) :=
  img ← base64_to_image base64_source;
  let '(w, h) := im_size img in
  _ ← check_resolution verify_resolution w h;
  output_format ← resolve_format output_format (im_format img);
  img ← resize_step img size crop_opt;
  Return (img, output_format).

(** [image_process], with the state of the random generator passed in and
    out. *)
Definition image_process (base64_source : source) (size : Z * Z) (verify_resolution : bool)
    (quality : Z) (crop_opt : crop_arg) (colorize : bool) (output_format : option string)
    (g : Rng) : result value * Rng :=
  if falsy_source base64_source then (Return VFalse, g)
  else if svg_sniffed base64_source then (Return (VSource base64_source), g)
  else
    match prepare base64_source size verify_resolution crop_opt output_format with
    | Raise e => (Raise e, g)
    | Return (img, output_format) =>
        let '(colored, g) := if colorize then colorize_step img g else (Return img, g) in
        (img ← colored; encode_step img output_format quality, g)
    end.

(** Lines 176-209 and 336-337: the wrappers, which only fix arguments. *)
Definition image_resize_image (base64_source : source) (size : Z * Z)
    (filetype : option string) (g : Rng) : result value * Rng :=
  image_process base64_source size false 80 CropNone false filetype g.

Definition image_optimize_for_web (base64_source : source) (max_width quality : Z)
    (g : Rng) : result value * Rng :=
  image_process base64_source (max_width, 0) true quality CropNone false None g.

Definition image_resize_image_big (base64_source : source) (filetype : option string)
    (g : Rng) : result value * Rng :=
  image_process base64_source IMAGE_BIG_SIZE false 80 CropNone false filetype g.

Definition image_resize_image_large (base64_source : source) (filetype : option string)
    (g : Rng) : result value * Rng :=
  image_process base64_source IMAGE_LARGE_SIZE false 80 CropNone false filetype g.

Definition image_resize_image_medium (base64_source : source) (filetype : option string)
    (g : Rng) : result value * Rng :=
  image_process base64_source IMAGE_MEDIUM_SIZE false 80 CropNone false filetype g.

Definition image_resize_image_small (base64_source : source) (filetype : option string)
    (g : Rng) : result value * Rng :=
  image_process base64_source IMAGE_SMALL_SIZE false 80 CropNone false filetype g.

Definition crop_image (base64_source : source) (size : Z * Z) (type : crop_arg)
    (image_format : option string) (g : Rng) : result value * Rng :=
  image_process base64_source size false 80 type false image_format g.

Definition image_colorize (base64_source : source) (g : Rng) : result value * Rng :=
  image_process base64_source (0, 0) false 80 CropNone true None g.

Definition limited_image_resize (base64_source : source) (width height : Z) (crop_opt : bool)
    (g : Rng) : result value * Rng :=
  image_process base64_source (width, height) false 80 (CropBool crop_opt) false None g.

End Pipeline.

(** ** A generator and a codec to run the pipeline on *)

(** A generator that replays a script of draws. *)
#[export] Instance scripted_random : RandomSource (list Z).
Proof.
  refine {| randbelow n g := match g with
                             | d :: g' => (d mod n, g')
                             | [] => (0, [])
                             end |}.
  intros n [|d g] Hn; simpl; [lia | apply Z.mod_pos_bound; lia].
Defined.

(** [upper] where all text is ASCII. *)
#[export] Instance ascii_upper : StrUpper :=
  {| str_upper := py_upper; str_upper_ascii := fun _ _ => eq_refl |}.

(** A codec without pixels.  The first byte of the payload picks the image,
    after the table [FILETYPE_BASE64_MAGICWORD]: a 300 x 300 JPEG, a
    120 x 80 GIF, a 2000 x 1000 PNG; ["Q"] stands for a 9000 x 6000 BMP.
    A paste reads its mask from an image of mode [1], [L], [LA] or [RGBA]
    and refuses any other; [putalpha] makes [LA] of [1] and [L], [PA] of
    [P], and [RGBA] of the other modes without an alpha band. *)
#[export] Instance blank_pillow : Pillow unit := {|
  b64decode src :=
    match src with
    | SrcBytes b => Return b
    | SrcStr s => Return (list_byte_of_string s)
    | _ => Raise TypeError
    end;
  b64encode b := b;
  image_open raw :=
    match raw with
    | "/"%byte :: _ => Return (Image (300, 300) "RGB" (Some "JPEG") false tt)
    | "R"%byte :: _ => Return (Image (120, 80) "P" (Some "GIF") true tt)
    | "i"%byte :: _ => Return (Image (2000, 1000) "RGBA" (Some "PNG") false tt)
    | "Q"%byte :: _ => Return (Image (9000, 6000) "RGB" (Some "BMP") false tt)
    | _ => Raise (DecodeError "cannot identify image file")
    end;
  image_save img format kwargs := list_byte_of_string format;
  px_crop _ _ := tt;
  px_resize _ _ := tt;
  px_new _ _ := tt;
  px_paste_color _ _ _ := tt;
  px_paste_masked _ _ mask :=
    if string_in (im_mode mask) ["1"; "L"; "LA"; "RGBA"] then Done tt
    else Failed "bad transparency mask";
  px_convert _ _ _ := tt;
  px_convert_web _ _ := tt;
  px_alpha_band _ := tt;
  px_putalpha _ _ := tt;
  px_putalpha_mode mode :=
    if string_in mode ["LA"; "PA"; "RGBA"] then mode
    else if string_in mode ["1"; "L"] then "LA"
    else if String.eqb mode "P" then "PA"
    else "RGBA"
|}.

(** ** The specification's reading of two steps *)

(** "Uppercased", in section 4.1 step 3, is read on the letters that format
    names are written with: each small letter becomes the capital at the same
    place of the alphabet, any other character stays. *)
Definition small_letters : string := "abcdefghijklmnopqrstuvwxyz".
Definition capital_letters : string := "ABCDEFGHIJKLMNOPQRSTUVWXYZ".

Fixpoint capital_of (c : ascii) (small capital : string) : ascii :=
  match small, capital with
  | String a small', String b capital' =>
      if Ascii.eqb c a then b else capital_of c small' capital'
  | _, _ => c
  end.

Definition spec_upper_letter (c : ascii) : ascii :=
  capital_of c small_letters capital_letters.

Fixpoint spec_upper (s : string) : string :=
  match s with
  | EmptyString => EmptyString
  | String c s' => String (spec_upper_letter c) (spec_upper s')
  end.

(** Section 4.1 step 3, in the spec's words: the output format if specified,
    else the intrinsic format, uppercased; [BMP] becomes [PNG]; anything not
    in [{PNG, JPEG, GIF}] becomes [JPEG]. *)
Definition spec_output_format (specified : option string) (intrinsic : string) : string :=
  let name := spec_upper (match specified with Some s => s | None => intrinsic end) in
  if decide (name = "BMP") then "PNG"
  else if decide (name ∈ ["PNG"; "JPEG"; "GIF"]) then name
  else "JPEG".

(** The channel values that [randrange(32, 224, 24)] can give. *)
Definition channel_values : list Z := [32; 56; 80; 104; 128; 152; 176; 200].

(** Section 4.1 step 5, in the spec's words: [{32, 56, 80, ..., 224}],
    step 24, both bounds included. *)
Definition spec_channel_values : list Z := [32; 56; 80; 104; 128; 152; 176; 200; 224].

(** The exception is the [ValueError] of the resolution guard. *)
Definition is_guard_error (e : exn) : bool :=
  match e with
  | ValueError _ _ => true
  | _ => false
  end.

(** A result that is not the error of the guard. *)
Definition no_guard_error {A} (r : result A) : Prop :=
  match r with
  | Return _ => True
  | Raise e => is_guard_error e = false
  end.

(** [4.5], in units of [2^-1074]. *)
Definition four_and_a_half : Binary64.t := 9 * 2 ^ 1073.

(** ** The shift records of [SpecFloat]

    [mrs] is the quotient [p / q] cut at the unit, with the two bits that
    locate the remainder below, at and above the half. *)
Definition locates (p q : Z) (mrs : shr_record) : Prop :=
  shr_m mrs = p / q /\
  shr_r mrs = (q <=? 2 * (p mod q)) /\
  shr_s mrs = negb (p mod q =? 0) && negb (2 * (p mod q) =? q).

(** [x] units of [2^-1074] make a float: nothing below the last of its 53
    places. *)
Definition representable (x : Z) : Prop :=
  x mod 2 ^ Z.max (Z.log2 (Z.abs x) - 52) 0 = 0.

(** ** The rest of the module *)

(** [FILETYPE_BASE64_MAGICWORD]: a dict from one-byte [bytes] to the subtype. *)
Definition FILETYPE_BASE64_MAGICWORD : list (list byte * string) :=
  [ (["/"%byte], "jpg"); (["R"%byte], "gif"); (["i"%byte], "png");
    (["P"%byte], "svg+xml") ].

#[export] Instance byte_eq_decision : EqDecision byte := Byte.byte_eq_dec.

(** [d.get(key, default)] on such a dict. *)
Fixpoint magicword_get (d : list (list byte * string)) (key : list byte) (default : string)
    : string :=
  match d with
  | [] => default
  | (k, v) :: d' => if decide (k = key) then v else magicword_get d' key default
  end.

(** A continuation byte of UTF-8, and a byte between two bounds. *)
Definition byte_between (lo hi : N) (b : byte) : bool :=
  ((lo <=? Byte.to_N b) && (Byte.to_N b <=? hi))%N.

(** [bytes.decode()] succeeds on well-formed UTF-8 only; a [str] is kept as
    its UTF-8 bytes, so the decoded text has the bytes of the payload. *)
Fixpoint utf8_valid (l : list byte) : bool :=
  match l with
  | [] => true
  | b0 :: r0 =>
      if byte_between 0 127 b0 then utf8_valid r0
      else
        match r0 with
        | [] => false
        | b1 :: r1 =>
            if byte_between 194 223 b0 && byte_between 128 191 b1 then utf8_valid r1
            else
              match r1 with
              | [] => false
              | b2 :: r2 =>
                  if ((byte_between 224 224 b0 && byte_between 160 191 b1)
                      || (byte_between 225 236 b0 && byte_between 128 191 b1)
                      || (byte_between 237 237 b0 && byte_between 128 159 b1)
                      || (byte_between 238 239 b0 && byte_between 128 191 b1))
                     && byte_between 128 191 b2
                  then utf8_valid r2
                  else
                    match r2 with
                    | [] => false
                    | b3 :: r3 =>
                        if ((byte_between 240 240 b0 && byte_between 144 191 b1)
                            || (byte_between 241 243 b0 && byte_between 128 191 b1)
                            || (byte_between 244 244 b0 && byte_between 128 143 b1))
                           && byte_between 128 191 b2 && byte_between 128 191 b3
                        then utf8_valid r3
                        else false
                    end
              end
        end
  end.

(** What [image_data_uri] can raise: [None[:1]] and [False[:1]] are a
    [TypeError], a [str] has no [decode], and [decode] refuses bytes that are
    not UTF-8. *)
Inductive uri_exn :=
| UriTypeError
| UriAttributeError
| UnicodeDecodeError.

(** Lines 340-348. *)
Definition image_data_uri (base64_source : source) : uri_exn + string :=
  match base64_source with
  | SrcNone | SrcFalse => inl UriTypeError
  | SrcStr _ => inl UriAttributeError
  | SrcBytes b =>
      let subtype := magicword_get FILETYPE_BASE64_MAGICWORD (take 1 b) "png" in
      if utf8_valid b
      then inr ("data:image/" +:+ subtype +:+ ";base64," +:+ string_of_list_byte b)
      else inl UnicodeDecodeError
  end.

(** [s.split(sep)] for a one-character separator. *)
Fixpoint py_split (sep : ascii) (s : string) : list string :=
  match s with
  | EmptyString => [EmptyString]
  | String c s' =>
      if Ascii.eqb c sep then EmptyString :: py_split sep s'
      else
        match py_split sep s' with
        | piece :: pieces => String c piece :: pieces
        | [] => [String c EmptyString]
        end
  end.

(** The if-chain of lines 274-282. *)
Definition size_of_suffix (suffix : string) : Z * Z :=
  if String.eqb suffix "big" then IMAGE_BIG_SIZE
  else if String.eqb suffix "large" then IMAGE_LARGE_SIZE
  else if String.eqb suffix "medium" then IMAGE_MEDIUM_SIZE
  else if String.eqb suffix "small" then IMAGE_SMALL_SIZE
  else (0, 0).

(** Lines 262-282. *)
Definition image_guess_size_from_field_name (field_name : string) : Z * Z :=
  let suffix :=
    if String.eqb field_name "image" then "big"%string
    else List.last (py_split "_" field_name) EmptyString in
  size_of_suffix suffix.

(** A Python value that [image_process] returned, put back where a source
    is expected: it is the same object. *)
Definition value_as_source (v : value) : source :=
  match v with
  | VFalse => SrcFalse
  | VSource src => src
  | VBytes b => SrcBytes b
  end.

(** [a or b] on sources. *)
Definition source_or (a b : source) : source :=
  if falsy_source a then b else a.

(** [return_x and x_name] *)
Definition name_if (flag : bool) (name : string) : option string :=
  if flag then Some name else None.

Section Batch.
Context {Pix Rng : Type} `{!Pillow Pix} `{!RandomSource Rng} {Upper : StrUpper}.

(** Lines 248-259. *)
Definition is_image_size_above (base64_source : source) (size : Z * Z) : result bool :=
  if falsy_source base64_source then Return false
  else if svg_sniffed base64_source then Return false
  else
    img ← base64_to_image base64_source;
    let '(width, height) := im_size img in
    Return ((width >? size.1) || (height >? size.2)).

(** One [if x_name: return_dict[x_name] = image_resize_image_x(base64_source)]
    of lines 300-307; an exception leaves the function at once. *)
Definition resized_entry (name : option string)
    (resize : source -> option string -> Rng -> result value * Rng)
    (base64_source : source) (state : result (gmap string value) * Rng)
    : result (gmap string value) * Rng :=
  match state with
  | (Raise e, g) => (Raise e, g)
  | (Return return_dict, g) =>
      match name with
      | Some (String c s) =>
          match resize base64_source None g with
          | (Return v, g') => (Return (<[String c s := v]> return_dict), g')
          | (Raise e, g') => (Raise e, g')
          end
      | _ => (Return return_dict, g)
      end
  end.

(** Lines 285-308; a name that is [False] (or empty) is left out. *)
Definition image_get_resized_images (base64_source : source)
    (big_name large_name medium_name small_name : option string) (g : Rng)
    : result (gmap string value) * Rng :=
  let state := (Return (∅ : gmap string value), g) in
  let state := resized_entry big_name image_resize_image_big base64_source state in
  let state := resized_entry large_name image_resize_image_large base64_source state in
  let state := resized_entry medium_name image_resize_image_medium base64_source state in
  resized_entry small_name image_resize_image_small base64_source state.

(** [vals.get(name)]: [None] when the key is missing. *)
Definition vals_get (vals : gmap string source) (name : string) : source :=
  default SrcNone (vals !! name).

(** [if return_x: vals[x_name] = False] *)
Definition set_False (flag : bool) (name : string) (vals : gmap string source)
    : gmap string source :=
  if flag then <[name := SrcFalse]> vals else vals.

(** Lines 311-333: [vals] after the call, or the exception. *)
Definition image_resize_images (vals : gmap string source)
    (return_big return_large return_medium return_small : bool)
    (big_name large_name medium_name small_name : string) (g : Rng)
    : result (gmap string source) * Rng :=
  let big_image := vals_get vals big_name in
  let large_image := vals_get vals large_name in
  let medium_image := vals_get vals medium_name in
  let small_image := vals_get vals small_name in
  let biggest_image :=
    source_or (source_or (source_or big_image large_image) medium_image) small_image in
  if negb (falsy_source biggest_image) then
    match image_get_resized_images biggest_image
            (name_if return_big big_name) (name_if return_large large_name)
            (name_if return_medium medium_name) (name_if return_small small_name) g with
    | (Return resized, g') => (Return ((value_as_source <$> resized) ∪ vals), g')
    | (Raise e, g') => (Raise e, g')
    end
  else if existsb (fun f => bool_decide (is_Some (vals !! f)))
            [big_name; large_name; medium_name; small_name] then
    (Return (set_False return_small small_name
               (set_False return_medium medium_name
                  (set_False return_large large_name
                     (set_False return_big big_name vals)))), g)
  else (Return vals, g).

End Batch.

(** [if x_name:] the name under which an entry is stored, if it is stored. *)
Definition stored_name (name : option string) : option string :=
  match name with
  | Some (String c s) => Some (String c s)
  | _ => None
  end.

(** * Properties *)

(** ** Arithmetic of the rounding *)

Lemma pow2_pos (e : Z) : 0 <= e -> 0 < 2 ^ e.
Proof. intros; apply Z.pow_pos_nonneg; lia. Qed.

Lemma ulp_exp_nonneg (p q : Z) : 0 <= Binary64.ulp_exp p q.
Proof. unfold Binary64.ulp_exp; lia. Qed.

Lemma rne_div_bounds (p q : Z) :
  0 <= p -> 0 < q -> p / q <= Binary64.rne_div p q <= p / q + 1.
Proof.
  intros Hp Hq. unfold Binary64.rne_div.
  destruct (2 * (p mod q) ?= q); [destruct (Z.even (p / q))|..]; lia.
Qed.

(** [rne_div p q] is within half of [p / q]; on a tie it is even. *)
Lemma rne_div_spec (p q : Z) :
  0 <= p -> 0 < q ->
  let n := Binary64.rne_div p q in
  2 * p - q <= 2 * n * q <= 2 * p + q /\
  (2 * n * q = 2 * p + q \/ 2 * n * q = 2 * p - q -> Z.even n = true).
Proof.
  intros Hp Hq n. subst n. unfold Binary64.rne_div.
  pose proof (Z.div_mod p q ltac:(lia)) as Hdm.
  pose proof (Z.mod_pos_bound p q Hq) as Hr.
  set (k := p / q) in *. set (r := p mod q) in *.
  destruct (Z.compare_spec (2 * r) q) as [E|L|G].
  - destruct (Z.even k) eqn:Ek.
    + split; [nia|]. intros _. exact Ek.
    + split; [nia|]. intros _. rewrite Z.even_add, Ek. reflexivity.
  - split; [nia|]. intros [H|H]; nia.
  - split; [nia|]. intros [H|H]; nia.
Qed.

Lemma rne_div_mono (p q p' q' : Z) :
  0 <= p -> 0 < q -> 0 <= p' -> 0 < q' ->
  p * q' <= p' * q -> Binary64.rne_div p q <= Binary64.rne_div p' q'.
Proof.
  intros Hp Hq Hp' Hq' Hle.
  destruct (rne_div_spec p q Hp Hq) as [[Hlo Hhi] Hev].
  destruct (rne_div_spec p' q' Hp' Hq') as [[Hlo' Hhi'] Hev'].
  set (n := Binary64.rne_div p q) in *. set (n' := Binary64.rne_div p' q') in *.
  destruct (Z_le_gt_dec n n') as [|Hgt]; [assumption|exfalso].
  assert (H1 : 2 * n * q * q' <= (2 * p + q) * q') by nia.
  assert (H2 : (2 * p' - q') * q <= 2 * n' * q' * q) by nia.
  assert (Hqq : 0 < q * q') by nia.
  assert (Hn : n = n' + 1) by nia.
  assert (E1 : 2 * n * q = 2 * p + q) by nia.
  assert (E2 : 2 * n' * q' = 2 * p' - q') by nia.
  specialize (Hev (or_introl E1)). specialize (Hev' (or_intror E2)).
  rewrite Hn, Z.even_add, Hev' in Hev. discriminate.
Qed.

(** What the exponent of the last place says about the quotient. *)
Lemma ulp_exp_cases (p q : Z) :
  0 <= p -> 0 < q ->
  let e := Binary64.ulp_exp p q in
  (e = 0 /\ p < 2 ^ 53 * q) \/
  (0 < e /\ 2 ^ (e + 52) * q <= p < 2 ^ (e + 53) * q).
Proof.
  intros Hp Hq e. subst e. unfold Binary64.ulp_exp, Binary64.prec.
  assert (H0 : 0 <= p / q) by (apply Z.div_pos; lia).
  destruct (Z.eq_dec (p / q) 0) as [E|NE].
  - left. rewrite E. simpl. split; [reflexivity|].
    apply Z.div_small_iff in E; lia.
  - pose proof (Z.log2_spec (p / q) ltac:(lia)) as [Hlo Hhi].
    pose proof (Z.log2_nonneg (p / q)) as HL.
    set (L := Z.log2 (p / q)) in *.
    assert (Hp1 : 2 ^ L * q <= p).
    { pose proof (Z.mul_div_le p q Hq). nia. }
    assert (Hp2 : p < 2 ^ (L + 1) * q).
    { pose proof (Z.mod_pos_bound p q Hq). pose proof (Z.div_mod p q ltac:(lia)).
      replace (Z.succ L) with (L + 1) in Hhi by lia. nia. }
    destruct (Z_le_gt_dec (L - (53 - 1)) 0) as [Hs|Hb].
    + left. rewrite Z.max_r by lia. split; [reflexivity|].
      assert (2 ^ (L + 1) <= 2 ^ 53) by (apply Z.pow_le_mono_r; lia). nia.
    + right. rewrite Z.max_l by lia. split; [lia|].
      replace (L - (53 - 1) + 52) with L by lia.
      replace (L - (53 - 1) + 53) with (L + 1) by lia. lia.
Qed.

Lemma rne_div_ge (p q m : Z) :
  0 <= p -> 0 < q -> m * q <= p -> m <= Binary64.rne_div p q.
Proof.
  intros Hp Hq Hm. pose proof (rne_div_bounds p q Hp Hq).
  assert (m <= p / q) by (apply Z.div_le_lower_bound; lia). lia.
Qed.

Lemma rne_div_le (p q m : Z) :
  0 <= p -> 0 < q -> p < m * q -> Binary64.rne_div p q <= m.
Proof.
  intros Hp Hq Hm. pose proof (rne_div_bounds p q Hp Hq).
  assert (p / q < m) by (apply Z.div_lt_upper_bound; lia). lia.
Qed.

(** The rounded quotient has at most 53 significant bits above its last
    place, and exactly 53 unless the last place is the unit. *)
Lemma round_pos_range (p q : Z) :
  0 <= p -> 0 < q ->
  let e := Binary64.ulp_exp p q in
  0 <= Binary64.round_pos p q <= 2 ^ (e + 53) /\
  (0 < e -> 2 ^ (e + 52) <= Binary64.round_pos p q).
Proof.
  intros Hp Hq e. unfold Binary64.round_pos. fold e.
  pose proof (ulp_exp_nonneg p q) as He. fold e in He.
  pose proof (pow2_pos e He) as Hpe.
  assert (HQ : 0 < q * 2 ^ e) by nia.
  assert (Hsplit53 : 2 ^ (e + 53) = 2 ^ 53 * 2 ^ e) by (rewrite Z.pow_add_r by lia; lia).
  assert (Hsplit52 : 2 ^ (e + 52) = 2 ^ 52 * 2 ^ e) by (rewrite Z.pow_add_r by lia; lia).
  pose proof (rne_div_bounds p (q * 2 ^ e) Hp HQ) as [Hn0 _].
  assert (0 <= p / (q * 2 ^ e)) by (apply Z.div_pos; lia).
  assert (Hup : Binary64.rne_div p (q * 2 ^ e) <= 2 ^ 53).
  { apply rne_div_le; try lia.
    pose proof (ulp_exp_cases p q Hp Hq) as Hc. cbv zeta in Hc. fold e in Hc.
    destruct Hc as [[E Hb]|[Hpos [_ Hb]]].
    - rewrite E in *. change (2 ^ 0) with 1. lia.
    - rewrite Hsplit53 in Hb. lia. }
  split.
  - rewrite Hsplit53. split; [nia|]. apply Z.mul_le_mono_nonneg_r; lia.
  - intros Hpos. rewrite Hsplit52. apply Z.mul_le_mono_nonneg_r; [lia|].
    apply rne_div_ge; try lia.
    pose proof (ulp_exp_cases p q Hp Hq) as Hc. cbv zeta in Hc. fold e in Hc.
    destruct Hc as [[E Hb]|[_ [Hb _]]]; [lia|].
    rewrite Hsplit52 in Hb. lia.
Qed.

Lemma ulp_exp_mono (p q p' q' : Z) :
  0 <= p -> 0 < q -> 0 <= p' -> 0 < q' ->
  p * q' <= p' * q -> Binary64.ulp_exp p q <= Binary64.ulp_exp p' q'.
Proof.
  intros Hp Hq Hp' Hq' Hle.
  pose proof (ulp_exp_nonneg p' q') as He'.
  pose proof (ulp_exp_cases p q Hp Hq) as Hc. cbv zeta in Hc.
  pose proof (ulp_exp_cases p' q' Hp' Hq') as Hc'. cbv zeta in Hc'.
  set (e := Binary64.ulp_exp p q) in *. set (e' := Binary64.ulp_exp p' q') in *.
  destruct Hc as [[E _]|[Hpos [Hb _]]]; [lia|].
  assert (Hb' : p' < 2 ^ (e' + 53) * q').
  { destruct Hc' as [[E Hb']|[_ [_ Hb']]].
    - rewrite E. exact Hb'.
    - exact Hb'. }
  destruct (Z_le_gt_dec e e') as [|Hgt]; [assumption|exfalso].
  assert (2 ^ (e' + 53) <= 2 ^ (e + 52)) by (apply Z.pow_le_mono_r; lia).
  assert (0 < 2 ^ (e' + 53)) by (apply pow2_pos; lia).
  nia.
Qed.

(** Rounding is monotone. *)
Lemma round_pos_mono (p q p' q' : Z) :
  0 <= p -> 0 < q -> 0 <= p' -> 0 < q' ->
  p * q' <= p' * q -> Binary64.round_pos p q <= Binary64.round_pos p' q'.
Proof.
  intros Hp Hq Hp' Hq' Hle.
  pose proof (ulp_exp_mono p q p' q' Hp Hq Hp' Hq' Hle) as Hee.
  pose proof (ulp_exp_nonneg p q) as He.
  destruct (Z.eq_dec (Binary64.ulp_exp p q) (Binary64.ulp_exp p' q')) as [E|NE].
  - unfold Binary64.round_pos. rewrite <- E.
    set (e := Binary64.ulp_exp p q) in *.
    pose proof (pow2_pos e He) as Hpe.
    apply Z.mul_le_mono_nonneg_r; [lia|].
    apply rne_div_mono; try nia.
  - destruct (round_pos_range p q Hp Hq) as [[_ Hup] _].
    destruct (round_pos_range p' q' Hp' Hq') as [_ Hlo'].
    specialize (Hlo' ltac:(lia)).
    assert (2 ^ (Binary64.ulp_exp p q + 53) <= 2 ^ (Binary64.ulp_exp p' q' + 52))
      by (apply Z.pow_le_mono_r; lia).
    lia.
Qed.

(** The rounded quotient is within half a last place of the quotient. *)
Lemma round_pos_error (p q : Z) :
  0 <= p -> 0 < q ->
  let e := Binary64.ulp_exp p q in
  2 * p - q * 2 ^ e <= 2 * Binary64.round_pos p q * q <= 2 * p + q * 2 ^ e.
Proof.
  intros Hp Hq e. unfold Binary64.round_pos. fold e.
  pose proof (ulp_exp_nonneg p q) as He. fold e in He.
  pose proof (pow2_pos e He) as Hpe.
  assert (HQ : 0 < q * 2 ^ e) by nia.
  destruct (rne_div_spec p (q * 2 ^ e) Hp HQ) as [H _]. nia.
Qed.

(** Two quotients that round to the same float are close: closer than one
    last place of the larger. *)
Lemma round_pos_separate (p q p' q' : Z) :
  0 <= p -> 0 < q -> 0 <= p' -> 0 < q' ->
  p * q' < p' * q ->
  2 ^ Binary64.ulp_exp p' q' * (q * q') < p' * q - p * q' ->
  Binary64.round_pos p q < Binary64.round_pos p' q'.
Proof.
  intros Hp Hq Hp' Hq' Hlt Hgap.
  pose proof (round_pos_mono p q p' q' Hp Hq Hp' Hq' ltac:(lia)) as Hmono.
  pose proof (ulp_exp_mono p q p' q' Hp Hq Hp' Hq' ltac:(lia)) as Hee.
  pose proof (round_pos_error p q Hp Hq) as He. cbv zeta in He.
  pose proof (round_pos_error p' q' Hp' Hq') as He'. cbv zeta in He'.
  pose proof (ulp_exp_nonneg p q) as Hn.
  set (e := Binary64.ulp_exp p q) in *. set (e' := Binary64.ulp_exp p' q') in *.
  assert (Hpow : 2 ^ e <= 2 ^ e') by (apply Z.pow_le_mono_r; lia).
  pose proof (pow2_pos e Hn) as Hpe.
  set (V := Binary64.round_pos p q) in *. set (V' := Binary64.round_pos p' q') in *.
  destruct (Z_lt_ge_dec V V') as [|Hge]; [assumption|exfalso].
  assert (V = V') by lia. subst V'.
  (* 2 p' - q' 2^e' <= 2 V q'   and   2 V q <= 2 p + q 2^e *)
  assert (H1 : (2 * p' - q' * 2 ^ e') * q <= 2 * V * q' * q) by nia.
  assert (H2 : 2 * V * q * q' <= (2 * p + q * 2 ^ e) * q') by nia.
  nia.
Qed.

Lemma round_quot_pos (a b : Z) :
  0 < a -> 0 < b ->
  Binary64.round_quot a b = Binary64.round_pos (a * 2 ^ Binary64.tiny) b.
Proof.
  intros Ha Hb. unfold Binary64.round_quot.
  rewrite (Z.sgn_pos a), (Z.sgn_pos b), (Z.abs_eq a), (Z.abs_eq b) by lia. lia.
Qed.

(** The quotient of positive ints, the first below [2^1023], does not
    overflow. *)
Lemma round_pos_finite (a b : Z) :
  0 < a < 2 ^ 1023 -> 0 < b ->
  0 <= Binary64.round_pos (a * 2 ^ Binary64.tiny) b < Binary64.huge.
Proof.
  intros Ha Hb.
  pose proof (pow2_pos Binary64.tiny ltac:(unfold Binary64.tiny; lia)) as Ht.
  set (p := a * 2 ^ Binary64.tiny).
  assert (Hp : 0 <= p) by (subst p; nia).
  pose proof (round_pos_range p b Hp Hb) as Hr. cbv zeta in Hr.
  pose proof (ulp_exp_cases p b Hp Hb) as Hc. cbv zeta in Hc.
  pose proof (ulp_exp_nonneg p b) as He.
  set (e := Binary64.ulp_exp p b) in *.
  destruct Hr as [[Hv0 Hv] _].
  assert (Hpb : p < 2 ^ 2097).
  { subst p. unfold Binary64.tiny in *.
    replace 2097 with (1023 + 1074) by lia. rewrite Z.pow_add_r by lia. nia. }
  assert (Hexp : e + 53 <= 2097).
  { destruct Hc as [[E _]|[Hpos [Hlo _]]]; [lia|].
    assert (0 < 2 ^ (e + 52)) by (apply pow2_pos; lia).
    assert (H52 : 2 ^ (e + 52) < 2 ^ 2097) by nia.
    apply Z.pow_lt_mono_r_iff in H52; lia. }
  assert (2 ^ (e + 53) <= 2 ^ 2097) by (apply Z.pow_le_mono_r; lia).
  assert (Hh : Binary64.huge = 2 * 2 ^ 2097).
  { unfold Binary64.huge, Binary64.emax, Binary64.tiny.
    replace (1024 + 1074) with (1 + 2097) by lia. rewrite Z.pow_add_r by lia. lia. }
  assert (0 < 2 ^ 2097) by (apply pow2_pos; lia).
  lia.
Qed.

(** A quotient of positive ints below [2^1023] is a float. *)
Lemma py_truediv_pos (a b : Z) :
  0 < a < 2 ^ 1023 -> 0 < b ->
  py_truediv a b = Return (Binary64.round_pos (a * 2 ^ Binary64.tiny) b).
Proof.
  intros Ha Hb. unfold py_truediv.
  destruct (Z.eqb_spec b 0) as [|_]; [lia|].
  rewrite round_quot_pos by lia.
  pose proof (round_pos_finite a b Ha Hb) as Hfin.
  destruct (Z.leb_spec Binary64.huge (Z.abs (Binary64.round_pos (a * 2 ^ Binary64.tiny) b)));
    [lia|reflexivity].
Qed.

(** ** The rounding is the division of IEEE 754 *)

Lemma digits2_pos_size (p : positive) : digits2_pos p = Pos.size p.
Proof. induction p; simpl; congruence. Qed.

Lemma Zdigits2_log2 (p : positive) : Zdigits2 (Zpos p) = Z.log2 (Zpos p) + 1.
Proof.
  simpl. rewrite digits2_pos_size. destruct p; simpl; lia.
Qed.

Lemma shr_1_locates (p q : Z) (mrs : shr_record) :
  0 <= p -> 0 < q -> locates p q mrs -> locates p (q * 2) (shr_1 mrs).
Proof.
  intros Hp Hq (Hm & Hr & Hs).
  pose proof (Z.mod_pos_bound p q Hq) as HR.
  pose proof (Z.div_mod p q ltac:(lia)) as Hdm.
  assert (Hk : 0 <= p / q) by (apply Z.div_pos; lia).
  assert (Hdiv : p / (q * 2) = p / q / 2) by (rewrite Z.div_div by lia; reflexivity).
  assert (Hmod : p mod (q * 2) = p mod q + q * ((p / q) mod 2))
    by (apply Z.rem_mul_r; lia).
  pose proof (Z.mod_pos_bound (p / q) 2 ltac:(lia)) as Ht.
  pose proof (Z.div_mod (p / q) 2 ltac:(lia)) as Hdm2.
  set (k := p / q) in *. set (R := p mod q) in *.
  assert (Hsticky : shr_r mrs || shr_s mrs = negb (R =? 0)).
  { rewrite Hr, Hs.
    destruct (Z.leb_spec q (2 * R)), (Z.eqb_spec R 0), (Z.eqb_spec (2 * R) q);
      simpl; try reflexivity; lia. }
  destruct mrs as [m r s]. simpl in Hm, Hr, Hs, Hsticky.
  unfold locates. rewrite Hdiv, Hmod.
  assert (Hout : forall m' (r' : bool),
             m' = k / 2 -> r' = negb (k mod 2 =? 0) ->
             shr_m (Build_shr_record m' r' (r || s)) = k / 2 /\
             shr_r (Build_shr_record m' r' (r || s)) = (q * 2 <=? 2 * (R + q * (k mod 2))) /\
             shr_s (Build_shr_record m' r' (r || s)) =
               negb (R + q * (k mod 2) =? 0) && negb (2 * (R + q * (k mod 2)) =? q * 2)).
  { intros m' r' -> ->. simpl. split; [reflexivity|]. rewrite Hsticky.
    assert (Hc : k mod 2 = 0 \/ k mod 2 = 1) by lia.
    destruct Hc as [Hc|Hc]; rewrite Hc; simpl.
    - split.
      + destruct (Z.leb_spec (q * 2) (2 * (R + q * 0))); [lia|reflexivity].
      + destruct (Z.eqb_spec R 0), (Z.eqb_spec (R + q * 0) 0),
          (Z.eqb_spec (2 * (R + q * 0)) (q * 2)); simpl; try reflexivity; lia.
    - split.
      + destruct (Z.leb_spec (q * 2) (2 * (R + q * 1))); [reflexivity|lia].
      + destruct (Z.eqb_spec R 0), (Z.eqb_spec (R + q * 1) 0),
          (Z.eqb_spec (2 * (R + q * 1)) (q * 2)); simpl; try reflexivity; lia. }
  subst m. unfold shr_1.
  destruct k as [|[kp|kp|]|kp] eqn:Ek; try lia; apply Hout.
  - reflexivity.
  - reflexivity.
  - rewrite Pos2Z.inj_xI. rewrite Z.add_comm, Z.mul_comm, Z.div_add by lia. reflexivity.
  - rewrite Pos2Z.inj_xI. rewrite Z.add_comm, Z.mul_comm, Z.mod_add by lia. reflexivity.
  - rewrite Pos2Z.inj_xO. rewrite Z.mul_comm, Z.div_mul by lia. reflexivity.
  - rewrite Pos2Z.inj_xO. rewrite Z.mul_comm, Z.mod_mul by lia. reflexivity.
  - reflexivity.
  - reflexivity.
Qed.

Lemma iter_shr_1_locates (n : positive) :
  forall (p q : Z) (mrs : shr_record),
    0 <= p -> 0 < q -> locates p q mrs ->
    locates p (q * 2 ^ Zpos n) (SpecFloat.iter_pos shr_1 n mrs).
Proof.
  induction n as [n IH|n IH|]; intros p q mrs Hp Hq H; simpl SpecFloat.iter_pos.
  - pose proof (pow2_pos (Z.pos n) ltac:(lia)).
    replace (q * 2 ^ Z.pos n~1) with (q * 2 * 2 ^ Z.pos n * 2 ^ Z.pos n).
    + apply IH; [lia|nia|]. apply IH; [lia|lia|]. apply shr_1_locates; assumption.
    + replace (Z.pos n~1) with (1 + Z.pos n + Z.pos n) by lia.
      rewrite !Z.pow_add_r by lia. change (2 ^ 1) with 2. ring.
  - pose proof (pow2_pos (Z.pos n) ltac:(lia)).
    replace (q * 2 ^ Z.pos n~0) with (q * 2 ^ Z.pos n * 2 ^ Z.pos n).
    + apply IH; [lia|nia|]. apply IH; assumption.
    + replace (Z.pos n~0) with (Z.pos n + Z.pos n) by lia.
      rewrite Z.pow_add_r by lia. ring.
  - change (2 ^ 1) with 2. apply shr_1_locates; assumption.
Qed.

(** [shr] by [n] places, whether it shifts or not. *)
Lemma shr_locates (p q : Z) (mrs : shr_record) (e n : Z) :
  0 <= p -> 0 < q -> locates p q mrs ->
  locates p (q * 2 ^ Z.max n 0) (shr mrs e n).1 /\ (shr mrs e n).2 = e + Z.max n 0.
Proof.
  intros Hp Hq H. unfold shr. destruct n as [|n|n]; simpl fst; simpl snd.
  - rewrite Z.max_r by lia. change (2 ^ 0) with 1. rewrite Z.mul_1_r. split; [assumption|lia].
  - rewrite Z.max_l by lia. split; [|reflexivity]. apply iter_shr_1_locates; assumption.
  - rewrite Z.max_r by lia. change (2 ^ 0) with 1. rewrite Z.mul_1_r. split; [assumption|lia].
Qed.

(** The remainder of a division is located as [new_location] says. *)
Lemma new_location_locates (p q : Z) :
  0 <= p -> 0 < q ->
  locates p q (shr_record_of_loc (p / q) (new_location q (p mod q))).
Proof.
  intros Hp Hq. pose proof (Z.mod_pos_bound p q Hq) as HR.
  set (R := p mod q) in *.
  assert (Hgoal : forall l,
             (l = loc_Exact /\ R = 0) \/ (l = loc_Inexact Lt /\ 0 < 2 * R < q) \/
             (l = loc_Inexact Eq /\ 2 * R = q) \/ (l = loc_Inexact Gt /\ q < 2 * R) ->
             locates p q (shr_record_of_loc (p / q) l)).
  { intros l Hl. unfold locates. fold R.
    destruct Hl as [[-> H]|[[-> H]|[[-> H]|[-> H]]]]; simpl;
      (split; [reflexivity|]);
      destruct (Z.leb_spec q (2 * R)), (Z.eqb_spec R 0), (Z.eqb_spec (2 * R) q);
      simpl; try (split; reflexivity); lia. }
  apply Hgoal. unfold new_location.
  destruct (Z.even q) eqn:Hev.
  - unfold new_location_even. destruct (Z.eqb_spec R 0) as [E|NE]; [left; auto|right].
    destruct (Z.compare_spec (2 * R) q); [right; left|left|right; right]; split;
      try reflexivity; lia.
  - unfold new_location_odd. destruct (Z.eqb_spec R 0) as [E|NE]; [left; auto|right].
    assert (Hodd : 2 * R <> q).
    { intros Heq. rewrite <- Heq, Z.even_mul in Hev. discriminate. }
    destruct (Z.compare_spec (2 * R + 1) q); [left|left|right; right]; split;
      try reflexivity; lia.
Qed.

(** Rounding the located quotient to nearest even is [rne_div]. *)
Lemma round_nearest_even_locates (p q : Z) (mrs : shr_record) :
  0 <= p -> 0 < q -> locates p q mrs ->
  round_nearest_even (shr_m mrs) (loc_of_shr_record mrs) = Binary64.rne_div p q.
Proof.
  intros Hp Hq (Hm & Hr & Hs). pose proof (Z.mod_pos_bound p q Hq) as HR.
  unfold Binary64.rne_div. destruct mrs as [m r s]. simpl in *. subst m.
  set (R := p mod q) in *.
  destruct (Z.compare_spec (2 * R) q) as [E|L|G];
    destruct (Z.leb_spec q (2 * R)), (Z.eqb_spec R 0), (Z.eqb_spec (2 * R) q);
    simpl in Hr, Hs; subst r s; simpl; try reflexivity; lia.
Qed.

Lemma rne_div_scale (p q c : Z) :
  0 <= p -> 0 < q -> 0 < c -> Binary64.rne_div (p * c) (q * c) = Binary64.rne_div p q.
Proof.
  intros Hp Hq Hc. unfold Binary64.rne_div.
  rewrite Z.div_mul_cancel_r by lia.
  rewrite Zmult_mod_distr_r.
  replace (2 * (p mod q * c) ?= q * c) with (2 * (p mod q) ?= q); [reflexivity|].
  destruct (Z.compare_spec (2 * (p mod q)) q), (Z.compare_spec (2 * (p mod q * c)) (q * c));
    try reflexivity; nia.
Qed.

Lemma Zdigits2_bounds (q : Z) (d : Z) :
  0 <= d -> 2 ^ d <= q < 2 ^ (d + 1) -> Zdigits2 q = d + 1.
Proof.
  intros Hd Hq. pose proof (pow2_pos d Hd).
  destruct q as [|p|p]; try lia.
  rewrite Zdigits2_log2. f_equal. apply Z.log2_unique; [lia|].
  replace (Z.succ d) with (d + 1) by lia. lia.
Qed.

Lemma Zdigits2_small (q : Z) (d : Z) :
  0 <= d -> 0 <= q < 2 ^ d -> 0 <= Zdigits2 q <= d.
Proof.
  intros Hd Hq. destruct q as [|p|p]; try lia.
  - simpl. lia.
  - rewrite Zdigits2_log2. pose proof (Z.log2_nonneg (Z.pos p)).
    assert (Z.log2 (Z.pos p) < d) by (apply Z.log2_lt_pow2; lia). lia.
Qed.

Lemma pow2_lt_inv (x y : Z) : 0 <= y -> 2 ^ x < 2 ^ y -> x < y.
Proof. intros Hy H. apply (Z.pow_lt_mono_r_iff 2); lia. Qed.

(** The exponent at which [SFdiv] cuts the quotient of two integers is the
    exponent of the last place of [round_pos]. *)
Lemma div_exponent (a b : Z) :
  0 < a -> 0 < b ->
  let e' := Z.min (Z.max (Z.log2 a - Z.log2 b - 53) (-1074)) 0 in
  let q := a * 2 ^ (- e') / b in
  let E := Binary64.ulp_exp (a * 2 ^ 1074) b in
  - 1074 <= e' <= 0 /\
  Z.max (Z.max (Zdigits2 q + e' - 53) (-1074) - e') 0 = E - 1074 - e'.
Proof.
  intros Ha Hb e' q E.
  pose proof (Z.log2_spec a Ha) as [Ha1 Ha2]. pose proof (Z.log2_spec b Hb) as [Hb1 Hb2].
  pose proof (Z.log2_nonneg a) as Hla. pose proof (Z.log2_nonneg b) as Hlb.
  set (la := Z.log2 a) in *. set (lb := Z.log2 b) in *.
  replace (Z.succ la) with (la + 1) in Ha2 by lia.
  replace (Z.succ lb) with (lb + 1) in Hb2 by lia.
  assert (He' : -1074 <= e' <= 0) by (subst e'; lia).
  split; [exact He'|].
  assert (Ht : 0 < 2 ^ 1074) by (apply pow2_pos; lia).
  assert (Hs : 0 < 2 ^ (- e')) by (apply pow2_pos; lia).
  assert (Hc0 : 0 < 2 ^ (1074 + e')) by (apply pow2_pos; lia).
  assert (Hsplit : 2 ^ 1074 = 2 ^ (- e') * 2 ^ (1074 + e')).
  { rewrite <- Z.pow_add_r by lia. f_equal. lia. }
  assert (Hp : 0 <= a * 2 ^ 1074) by nia.
  pose proof (ulp_exp_cases (a * 2 ^ 1074) b Hp Hb) as Hc. cbv zeta in Hc. fold E in Hc.
  assert (Hq0 : 0 <= q) by (subst q; apply Z.div_pos; nia).
  assert (Hqb : q * b <= a * 2 ^ (- e') < (q + 1) * b).
  { subst q. pose proof (Z.div_mod (a * 2 ^ (- e')) b ltac:(lia)).
    pose proof (Z.mod_pos_bound (a * 2 ^ (- e')) b Hb). nia. }
  assert (Hpla : 0 < 2 ^ la) by (apply pow2_pos; lia).
  assert (Hplb : 0 < 2 ^ lb) by (apply pow2_pos; lia).
  destruct Hc as [[E0 Hup]|[Epos [Hlo Hup]]].
  - (* the last place is the smallest subnormal *)
    assert (Hd : la + 1074 < lb + 54).
    { apply pow2_lt_inv; [lia|]. rewrite !Z.pow_add_r by lia.
      rewrite Z.pow_add_r in Hb2 by lia.
      change (2 ^ 54) with (2 ^ 53 * 2). change (2 ^ 1) with 2 in Hb2.
      assert (0 < 2 ^ 53) by (apply pow2_pos; lia).
      clear Hsplit. generalize dependent (2 ^ 1074). generalize dependent (2 ^ 53).
      intros u Hu t Ht Hp Hup. nia. }
    assert (Ee : e' = -1074) by (subst e'; lia).
    assert (Hq53 : q < 2 ^ 53).
    { subst q. rewrite Ee. change (- -1074) with 1074.
      apply Z.div_lt_upper_bound; lia. }
    pose proof (Zdigits2_small q 53 ltac:(lia) ltac:(lia)). lia.
  - (* a normal quotient *)
    assert (Hpe : 0 < 2 ^ (E + 52)) by (apply pow2_pos; lia).
    assert (Hd : la + 1074 < E + 53 + (lb + 1)).
    { apply pow2_lt_inv; [lia|]. rewrite (Z.pow_add_r 2 la), (Z.pow_add_r 2 (E + 53)) by lia.
      assert (0 < 2 ^ (E + 53)) by (apply pow2_pos; lia).
      clear Hsplit Hlo. generalize dependent (2 ^ 1074). intros t Ht Hp Hup. nia. }
    assert (Hle : e' <= E - 1074) by (subst e'; lia).
    set (c := 1074 + e') in *.
    assert (Hq1 : 2 ^ (E - c + 52) <= q < 2 ^ (E - c + 53)).
    { assert (H52 : 2 ^ (E + 52) = 2 ^ (E - c + 52) * 2 ^ c)
        by (rewrite <- Z.pow_add_r by lia; f_equal; lia).
      assert (H53 : 2 ^ (E + 53) = 2 ^ (E - c + 53) * 2 ^ c)
        by (rewrite <- Z.pow_add_r by lia; f_equal; lia).
      assert (0 < 2 ^ (E - c + 52)) by (apply pow2_pos; lia).
      assert (0 < 2 ^ (E - c + 53)) by (apply pow2_pos; lia).
      rewrite Hsplit, H52 in Hlo. rewrite Hsplit, H53 in Hup.
      fold c in Hlo, Hup.
      assert (Hlo' : 2 ^ (E - c + 52) * b <= a * 2 ^ (- e')) by nia.
      assert (Hup' : a * 2 ^ (- e') < 2 ^ (E - c + 53) * b) by nia.
      split; nia. }
    rewrite (Zdigits2_bounds q (E - c + 52)) by (try lia; replace (E - c + 52 + 1) with (E - c + 53) by lia; exact Hq1).
    subst c. lia.
Qed.

Lemma to_spec_pos (x : Z) :
  0 < x ->
  Binary64.to_spec x =
    match x / 2 ^ Z.max (Z.log2 x - 52) 0 with
    | Zpos m =>
        if Z.max (Z.log2 x - 52) 0 - 1074 <=? 1024 - 53
        then S754_finite false m (Z.max (Z.log2 x - 52) 0 - 1074)
        else S754_infinity false
    | _ => S754_nan
    end.
Proof. intros Hx. destruct x as [|p|p]; try lia. reflexivity. Qed.

Lemma fexp_64 (x : Z) : fexp 53 1024 x = Z.max (x - 53) (-1074).
Proof. reflexivity. Qed.

Lemma exact_locates (n : Z) : 0 <= n -> locates n 1 (shr_record_of_loc n loc_Exact).
Proof.
  intros Hn. unfold locates. simpl. rewrite Z.div_1_r, Z.mod_1_r. auto.
Qed.

(** The second shift of [binary_round_aux] renormalises a mantissa that the
    rounding carried to [2^53]; what comes out is the float of value
    [n * 2^E * 2^-1074]. *)
Lemma normalize_spec (n E : Z) :
  0 <= n <= 2 ^ 53 -> 0 <= E -> (0 < E -> 2 ^ 52 <= n) ->
  (let '(mrs, e2) := shr_fexp 53 1024 n (E - 1074) loc_Exact in
   match shr_m mrs with
   | Z0 => S754_zero false
   | Zpos m => if e2 <=? 1024 - 53 then S754_finite false m e2 else S754_infinity false
   | Zneg _ => S754_nan
   end) = Binary64.to_spec (n * 2 ^ E).
Proof.
  intros Hn HE Hnorm. unfold shr_fexp. rewrite fexp_64.
  pose proof (shr_locates n 1 (shr_record_of_loc n loc_Exact) (E - 1074)
                (Z.max (Zdigits2 n + (E - 1074) - 53) (-1074) - (E - 1074))
                ltac:(lia) ltac:(lia) (exact_locates n ltac:(lia))) as [(Hm & _ & _) He2].
  destruct (shr _ _ _) as [mrs e2]. simpl in Hm, He2. rewrite Hm, He2. clear Hm He2 mrs e2.
  rewrite Z.mul_1_l.
  pose proof (pow2_pos E HE) as HpE.
  destruct (Z.eq_dec n 0) as [->|Hn0].
  { simpl Zdigits2. rewrite Z.max_r by lia. reflexivity. }
  assert (Hlog : Z.log2 (n * 2 ^ E) = E + Z.log2 n) by (apply Z.log2_mul_pow2; lia).
  assert (Hx : 0 < n * 2 ^ E) by nia.
  rewrite to_spec_pos by exact Hx. rewrite Hlog.
  destruct (Z_lt_ge_dec n (2 ^ 52)) as [Hsub|Hge].
  - (* subnormal *)
    assert (E = 0) by lia. subst E. change (2 ^ 0) with 1. rewrite Z.mul_1_r.
    pose proof (Zdigits2_small n 52 ltac:(lia) ltac:(lia)) as Hd.
    assert (Z.log2 n < 52) by (apply Z.log2_lt_pow2; lia).
    replace (Z.max (Z.max (Zdigits2 n + (0 - 1074) - 53) (-1074) - (0 - 1074)) 0) with 0 by lia.
    replace (Z.max (0 + Z.log2 n - 52) 0) with 0 by lia.
    change (2 ^ 0) with 1. rewrite Z.div_1_r.
    replace (0 - 1074 + 0) with (0 - 1074) by lia.
    destruct n; try lia; reflexivity.
  - destruct (Z.eq_dec n (2 ^ 53)) as [->|Hne].
    + (* the rounding carried *)
      rewrite (Zdigits2_bounds (2 ^ 53) 53) by lia.
      rewrite Z.log2_pow2 by lia.
      replace (Z.max (Z.max (53 + 1 + (E - 1074) - 53) (-1074) - (E - 1074)) 0) with 1 by lia.
      replace (Z.max (E + 53 - 52) 0) with (E + 1) by lia.
      assert (HM : 2 ^ 53 * 2 ^ E / 2 ^ (E + 1) = 2 ^ 52).
      { rewrite (Z.pow_add_r 2 E 1) by lia. change (2 ^ 53) with (2 ^ 52 * 2 ^ 1).
        rewrite (Z.mul_comm (2 ^ E)), <- Z.mul_assoc.
        rewrite Z.div_mul by lia. reflexivity. }
      rewrite HM. change (2 ^ 53 / 2 ^ 1) with (2 ^ 52).
      replace (E - 1074 + 1) with (E + 1 - 1074) by lia. reflexivity.
    + (* a normal mantissa *)
      rewrite (Zdigits2_bounds n 52) by lia.
      assert (Z.log2 n = 52) by (apply Z.log2_unique; lia).
      replace (Z.max (Z.max (52 + 1 + (E - 1074) - 53) (-1074) - (E - 1074)) 0) with 0 by lia.
      replace (Z.max (E + Z.log2 n - 52) 0) with E by lia.
      change (2 ^ 0) with 1. rewrite Z.div_1_r, Z.div_mul by lia.
      replace (E - 1074 + 0) with (E - 1074) by lia.
      destruct n; try lia; reflexivity.
Qed.

Lemma div_core_spec (a b : positive) :
  let e' := Z.min (Z.max (Z.log2 (Zpos a) - Z.log2 (Zpos b) - 53) (-1074)) 0 in
  let p := Zpos a * 2 ^ (- e') in
  SFdiv_core_binary 53 1024 (Zpos a) 0 (Zpos b) 0
    = (p / Zpos b, e', new_location (Zpos b) (p mod Zpos b)).
Proof.
  intros e' p. unfold SFdiv_core_binary.
  rewrite !Zdigits2_log2, fexp_64.
  replace (Z.log2 (Z.pos a) + 1 + 0 - (Z.log2 (Z.pos b) + 1 + 0) - 53)
    with (Z.log2 (Zpos a) - Z.log2 (Zpos b) - 53) by lia.
  change (0 - 0) with 0. fold e'.
  assert (He' : - 1074 <= e' <= 0) by (subst e'; lia).
  assert (Hm : match 0 - e' with
               | 0 => Z.pos a
               | Z.pos _ => Z.shiftl (Z.pos a) (0 - e')
               | Z.neg _ => 0
               end = p).
  { subst p. replace (0 - e') with (- e') by lia.
    destruct (- e') as [|s|s] eqn:Es; try lia.
    rewrite Z.shiftl_mul_pow2 by lia. reflexivity. }
  rewrite Hm. unfold Z.div, Z.modulo.
  destruct (Z.div_eucl p (Z.pos b)) as [q r]. reflexivity.
Qed.

(** The rounding of [round_quot] is the division of binary64 as the standard
    library specifies it: on two positive integers, [SFdiv] gives the float
    whose value is [round_quot a b] units of [2^-1074], or infinity when that
    is [2^1024] or more. *)
Theorem round_quot_SFdiv (a b : positive) :
  SFdiv 53 1024 (S754_finite false a 0) (S754_finite false b 0)
    = Binary64.to_spec (Binary64.round_quot (Zpos a) (Zpos b)).
Proof.
  rewrite round_quot_pos by lia. unfold Binary64.tiny.
  unfold SFdiv. pose proof (div_core_spec a b) as Hcore. cbv zeta in Hcore.
  rewrite Hcore. clear Hcore. simpl xorb.
  pose proof (div_exponent (Zpos a) (Zpos b) ltac:(lia) ltac:(lia)) as [He' Hexp].
  cbv zeta in Hexp.
  set (e' := Z.min (Z.max (Z.log2 (Zpos a) - Z.log2 (Zpos b) - 53) (-1074)) 0) in *.
  set (p := Zpos a * 2 ^ (- e')) in *.
  set (E := Binary64.ulp_exp (Zpos a * 2 ^ 1074) (Zpos b)) in *.
  assert (Hs : 0 < 2 ^ (- e')) by (apply pow2_pos; lia).
  assert (Hp : 0 <= p) by (subst p; nia).
  unfold binary_round_aux.
  unfold shr_fexp at 1. rewrite fexp_64.
  pose proof (shr_locates p (Zpos b)
                (shr_record_of_loc (p / Zpos b) (new_location (Zpos b) (p mod Zpos b))) e'
                (Z.max (Zdigits2 (p / Z.pos b) + e' - 53) (-1074) - e')
                Hp ltac:(lia) (new_location_locates p (Zpos b) Hp ltac:(lia))) as [Hloc He1].
  destruct (shr _ _ _) as [mrs1 e1]. simpl in Hloc, He1.
  rewrite Hexp in Hloc, He1.
  assert (HE : 0 <= E) by apply ulp_exp_nonneg.
  assert (Hk : 0 <= E - 1074 - e').
  { rewrite <- Hexp. lia. }
  assert (Hpk : 0 < 2 ^ (E - 1074 - e')) by (apply pow2_pos; lia).
  rewrite (round_nearest_even_locates p (Zpos b * 2 ^ (E - 1074 - e')) mrs1 Hp ltac:(nia) Hloc).
  assert (Hc : 0 < 2 ^ (1074 + e')) by (apply pow2_pos; lia).
  assert (Hrne : Binary64.rne_div p (Z.pos b * 2 ^ (E - 1074 - e'))
                 = Binary64.rne_div (Zpos a * 2 ^ 1074) (Zpos b * 2 ^ E)).
  { rewrite <- (rne_div_scale p _ (2 ^ (1074 + e'))) by nia.
    f_equal.
    - subst p. rewrite <- Z.mul_assoc, <- Z.pow_add_r by lia. do 2 f_equal. lia.
    - rewrite <- Z.mul_assoc, <- Z.pow_add_r by lia. do 2 f_equal. lia. }
  rewrite Hrne. subst e1. replace (e' + (E - 1074 - e')) with (E - 1074) by lia.
  pose proof (round_pos_range (Zpos a * 2 ^ 1074) (Zpos b) ltac:(lia) ltac:(lia)) as Hr.
  cbv zeta in Hr. fold E in Hr. unfold Binary64.round_pos in Hr |- *. fold E in Hr |- *.
  set (n := Binary64.rne_div (Z.pos a * 2 ^ 1074) (Z.pos b * 2 ^ E)) in *.
  pose proof (pow2_pos E HE) as HpE.
  destruct Hr as [[Hn0 Hn1] Hn2].
  rewrite (Z.pow_add_r 2 E 53) in Hn1 by lia.
  apply normalize_spec; [|exact HE|].
  - split; [nia|]. apply Z.mul_le_mono_pos_r with (p := 2 ^ E); lia.
  - intros HposE. specialize (Hn2 HposE). rewrite (Z.pow_add_r 2 E 52) in Hn2 by lia.
    apply Z.mul_le_mono_pos_r with (p := 2 ^ E); lia.
Qed.

Lemma round_pos_representable (p q : Z) :
  0 <= p -> 0 < q -> representable (Binary64.round_pos p q).
Proof.
  intros Hp Hq. unfold representable.
  pose proof (round_pos_range p q Hp Hq) as [[H0 Hup] Hlo]. cbv zeta in *.
  pose proof (ulp_exp_nonneg p q) as He.
  unfold Binary64.round_pos in *.
  set (E := Binary64.ulp_exp p q) in *.
  set (n := Binary64.rne_div p (q * 2 ^ E)) in *.
  pose proof (pow2_pos E He) as HpE.
  rewrite Z.abs_eq by lia.
  destruct (Z.eq_dec n 0) as [->|Hn].
  { rewrite Z.mul_0_l. apply Z.mod_0_l. apply Z.pow_nonzero; lia. }
  assert (Hnpos : 0 < n) by nia.
  rewrite Z.log2_mul_pow2 by lia.
  assert (Hn53 : n <= 2 ^ 53).
  { rewrite (Z.pow_add_r 2 E 53) in Hup by lia.
    apply Z.mul_le_mono_pos_r with (p := 2 ^ E); lia. }
  destruct (Z.eq_dec n (2 ^ 53)) as [->|Hne].
  - rewrite Z.log2_pow2 by lia.
    replace (Z.max (E + 53 - 52) 0) with (E + 1) by lia.
    rewrite (Z.pow_add_r 2 E 1) by lia. change (2 ^ 53) with (2 ^ 52 * 2 ^ 1).
    replace (2 ^ 52 * 2 ^ 1 * 2 ^ E) with (2 ^ 52 * (2 ^ E * 2 ^ 1)) by ring.
    apply Z.mod_mul. change (2 ^ 1) with 2. lia.
  - assert (Z.log2 n < 53) by (apply Z.log2_lt_pow2; lia).
    assert (Hm : Z.max (E + Z.log2 n - 52) 0 <= E) by lia.
    set (e := Z.max (E + Z.log2 n - 52) 0) in *.
    replace (2 ^ E) with (2 ^ (E - e) * 2 ^ e)
      by (rewrite <- Z.pow_add_r by lia; f_equal; lia).
    rewrite Z.mul_assoc. apply Z.mod_mul. apply Z.pow_nonzero; lia.
Qed.

(** On floats, [SFltb] of the standard library is the order of the units. *)
Lemma to_spec_ltb (x y : Z) :
  0 <= x < Binary64.huge -> 0 <= y < Binary64.huge ->
  representable x -> representable y ->
  SFltb (Binary64.to_spec x) (Binary64.to_spec y) = (x <? y).
Proof.
  assert (Hfin : forall x, 0 < x < Binary64.huge -> representable x ->
            let e := Z.max (Z.log2 x - 52) 0 in
            exists m, Binary64.to_spec x = S754_finite false m (e - 1074) /\
                      x = Zpos m * 2 ^ e /\
                      x < 2 ^ (e + 53) /\ (0 < e -> 2 ^ (e + 52) <= x)).
  { intros z [Hz Hhuge] Hrep e. unfold representable in Hrep.
    rewrite Z.abs_eq in Hrep by lia. fold e in Hrep.
    rewrite to_spec_pos by lia. fold e.
    assert (He : 0 <= e) by (subst e; lia).
    pose proof (pow2_pos e He) as Hpe.
    pose proof (Z.div_mod z (2 ^ e) ltac:(lia)) as Hdm. rewrite Hrep in Hdm.
    pose proof (Z.log2_spec z Hz) as [Hl1 Hl2].
    replace (Z.succ (Z.log2 z)) with (Z.log2 z + 1) in Hl2 by lia.
    pose proof (Z.log2_nonneg z) as Hl0.
    assert (Hup : z < 2 ^ (e + 53)).
    { assert (2 ^ (Z.log2 z + 1) <= 2 ^ (e + 53)) by (apply Z.pow_le_mono_r; lia). lia. }
    assert (Hlo : 0 < e -> 2 ^ (e + 52) <= z).
    { intros Hpos. replace (e + 52) with (Z.log2 z) by lia. exact Hl1. }
    assert (Hfinite : e - 1074 <= 1024 - 53).
    { unfold Binary64.huge, Binary64.emax, Binary64.tiny in Hhuge.
      destruct (Z_le_gt_dec e 2045) as [|Hbig]; [lia|exfalso].
      specialize (Hlo ltac:(lia)).
      assert (2 ^ (1024 + 1074) <= 2 ^ (e + 52)) by (apply Z.pow_le_mono_r; lia). lia. }
    destruct (z / 2 ^ e) as [|m|m] eqn:Em; try nia.
    exists m. split.
    - destruct (Z.leb_spec (e - 1074) (1024 - 53)); [reflexivity|lia].
    - split; [lia|]. split; assumption. }
  intros [Hx Hxh] [Hy Hyh] Hrx Hry.
  destruct (Z.eq_dec x 0) as [->|Hx0], (Z.eq_dec y 0) as [->|Hy0].
  - reflexivity.
  - destruct (Hfin y ltac:(lia) Hry) as (m & -> & _).
    change (Binary64.to_spec 0) with (S754_zero false).
    unfold SFltb, SFcompare. symmetry. apply Z.ltb_lt. lia.
  - destruct (Hfin x ltac:(lia) Hrx) as (m & -> & _).
    change (Binary64.to_spec 0) with (S754_zero false).
    unfold SFltb, SFcompare. symmetry. apply Z.ltb_ge. lia.
  - destruct (Hfin x ltac:(lia) Hrx) as (mx & -> & Ex & Hxup & Hxlo).
    destruct (Hfin y ltac:(lia) Hry) as (my & -> & Ey & Hyup & Hylo).
    set (ex := Z.max (Z.log2 x - 52) 0) in *. set (ey := Z.max (Z.log2 y - 52) 0) in *.
    assert (Hex : 0 <= ex) by (subst ex; lia). assert (Hey : 0 <= ey) by (subst ey; lia).
    unfold SFltb, SFcompare.
    destruct (Z.compare_spec (ex - 1074) (ey - 1074)) as [E|L|G].
    + assert (Heq : ex = ey) by lia.
      pose proof (pow2_pos ey Hey) as Hp.
      rewrite Heq in Ex. clearbody ex ey.
      change (Pos.compare_cont Eq mx my) with (Z.pos mx ?= Z.pos my).
      destruct (Z.compare_spec (Z.pos mx) (Z.pos my)) as [E'|L'|G'], (Z.ltb_spec x y);
        try reflexivity; nia.
    + assert (2 ^ (ex + 53) <= 2 ^ (ey + 52)) by (apply Z.pow_le_mono_r; lia).
      specialize (Hylo ltac:(lia)). symmetry. apply Z.ltb_lt. lia.
    + assert (2 ^ (ey + 53) <= 2 ^ (ex + 52)) by (apply Z.pow_le_mono_r; lia).
      specialize (Hxlo ltac:(lia)). symmetry. apply Z.ltb_ge. lia.
Qed.


(** ** The result monad *)

Lemma bind_Return {A B} (a : A) (k : A -> result B) : (Return a ≫= k) = k a.
Proof. reflexivity. Qed.

Lemma bind_inv {A B} (r : result A) (k : A -> result B) (b : B) :
  (r ≫= k) = Return b -> exists a, r = Return a /\ k a = Return b.
Proof. destruct r as [a|e]; simpl; [eauto|discriminate]. Qed.

Lemma py_floordiv_ok (a b : Z) : b <> 0 -> py_floordiv a b = Return (a / b).
Proof. intros Hb. unfold py_floordiv. destruct (Z.eqb_spec b 0); [contradiction|reflexivity]. Qed.

Lemma py_truediv_inv (a b : Z) (v : Binary64.t) :
  py_truediv a b = Return v -> b <> 0 /\ v = Binary64.round_quot a b.
Proof.
  unfold py_truediv. destruct (Z.eqb_spec b 0); [discriminate|].
  destruct (Binary64.huge <=? _); [discriminate|].
  intros [= <-]. auto.
Qed.

(** ** The crop window *)

Lemma crop_branch_inv (w h aw ah : Z) (b : bool) :
  crop_branch w h aw ah = Return b ->
  aw <> 0 /\ ah <> 0 /\
  b = Binary64.gtb (Binary64.round_quot w aw) (Binary64.round_quot h ah).
Proof.
  unfold crop_branch. intros H.
  apply bind_inv in H as (rw & Hw & H). apply bind_inv in H as (rh & Hh & H).
  apply py_truediv_inv in Hw as [? ->]. apply py_truediv_inv in Hh as [? ->].
  injection H as <-. auto.
Qed.

Lemma crop_branch_total (w h aw ah : Z) :
  0 < w < 2 ^ 1023 -> 0 < h < 2 ^ 1023 -> 0 < aw -> 0 < ah ->
  crop_branch w h aw ah =
    Return (Binary64.round_pos (w * 2 ^ Binary64.tiny) aw >?
            Binary64.round_pos (h * 2 ^ Binary64.tiny) ah).
Proof.
  intros Hw Hh Haw Hah. unfold crop_branch.
  rewrite (py_truediv_pos w aw), (py_truediv_pos h ah) by lia. reflexivity.
Qed.

(** X22. The branch of line 117 ([w / asked_width > h / asked_height]) on
    positive sizes is the comparison, in the standard library's binary64, of
    the two quotients computed by its binary64 division. *)
Theorem crop_branch_SpecFloat (w h asked_width asked_height : positive) :
  Zpos w < 2 ^ 1023 -> Zpos h < 2 ^ 1023 ->
  crop_branch (Zpos w) (Zpos h) (Zpos asked_width) (Zpos asked_height)
    = Return (SFltb
                (SFdiv 53 1024 (S754_finite false h 0) (S754_finite false asked_height 0))
                (SFdiv 53 1024 (S754_finite false w 0) (S754_finite false asked_width 0))).
Proof.
  intros Hw Hh.
  rewrite crop_branch_total by lia. f_equal.
  rewrite !round_quot_SFdiv, !round_quot_pos by lia.
  pose proof (pow2_pos Binary64.tiny ltac:(unfold Binary64.tiny; lia)) as Ht.
  rewrite to_spec_ltb.
  - rewrite Z.gtb_ltb. reflexivity.
  - apply round_pos_finite; lia.
  - apply round_pos_finite; lia.
  - apply round_pos_representable; [nia|lia].
  - apply round_pos_representable; [nia|lia].
Qed.

Lemma crop_branch_SpecFloat_witness :
  (Zpos 300 < 2 ^ 1023 /\ Zpos 100 < 2 ^ 1023) /\
  crop_branch 300 100 200 200
    = Return (SFltb
                (SFdiv 53 1024 (S754_finite false 100 0) (S754_finite false 200 0))
                (SFdiv 53 1024 (S754_finite false 300 0) (S754_finite false 200 0))).
Proof.
  split; [split; reflexivity|].
  exact (crop_branch_SpecFloat 300 100 200 200 eq_refl eq_refl).
Defined.

(** Either branch keeps one side of the image. *)
Lemma branch_window_spec (w h aw ah : Z) (wider : bool) :
  0 < w -> 0 < h -> 0 < aw -> 0 < ah ->
  exists r, branch_window w h aw ah wider = Return r /\
    0 <= r.1 /\ 0 <= r.2 /\ (r.1 = w \/ r.2 = h).
Proof.
  intros Hw Hh Haw Hah. unfold branch_window.
  rewrite !py_floordiv_ok by lia.
  destruct wider; simpl; eexists; (split; [reflexivity|]); simpl;
    (split; [|split]); try lia; try (apply Z.div_pos; nia).
Qed.

(** The clamps bring a window that keeps one side back inside the image. *)
Lemma clamp_window_spec (w h : Z) (window : Z * Z) :
  0 < w -> 0 < h -> 0 <= window.1 -> 0 <= window.2 ->
  window.1 = w \/ window.2 = h ->
  exists r, clamp_window w h window = Return r /\
    r.1 <= w /\ r.2 <= h /\ (r.1 = w \/ r.2 = h).
Proof.
  destruct window as [nw nh]. simpl. intros Hw Hh Hnw Hnh Hone.
  unfold clamp_window. simpl.
  destruct (Z.gtb_spec nw w) as [Hgt|Hle].
  - rewrite py_floordiv_ok by lia. simpl.
    assert (nh = h) by lia. subst nh.
    assert (h * w / nw <= h) by (apply Z.div_le_upper_bound; nia).
    destruct (Z.gtb_spec (h * w / nw) h); [lia|].
    eexists; split; [reflexivity|]. simpl. lia.
  - simpl. destruct (Z.gtb_spec nh h) as [Hgt|Hle'].
    + rewrite py_floordiv_ok by lia. simpl.
      assert (nw = w) by lia. subst nw.
      assert (w * h / nh <= w) by (apply Z.div_le_upper_bound; nia).
      eexists; split; [reflexivity|]. simpl. lia.
    + eexists; split; [reflexivity|]. simpl. lia.
Qed.

(** C1. In [image_process], for an image of size [(w, h)] and a target
    [(asked_width, asked_height)], all positive, the crop window
    [(new_w, new_h)] that the branch and the two clamps compute lies inside the
    image ([new_w <= w], [new_h <= h]) and keeps one of its sides
    ([new_w = w] or [new_h = h]); and the window is computed (no error)
    whenever the sides of the image are below [2^1023]. *)
Theorem crop_window_inside (w h asked_width asked_height : Z) :
  0 < w -> 0 < h -> 0 < asked_width -> 0 < asked_height ->
  (forall new_w new_h,
      crop_window w h asked_width asked_height = Return (new_w, new_h) ->
      new_w <= w /\ new_h <= h /\ (new_w = w \/ new_h = h)) /\
  (w < 2 ^ 1023 -> h < 2 ^ 1023 ->
   exists new_w new_h, crop_window w h asked_width asked_height = Return (new_w, new_h)).
Proof.
  intros Hw Hh Haw Hah. split.
  - intros new_w new_h H. unfold crop_window in H.
    apply bind_inv in H as (wider & _ & H). cbv beta in H.
    destruct (branch_window_spec w h asked_width asked_height wider Hw Hh Haw Hah)
      as (win & Hwin & H1 & H2 & H3).
    rewrite Hwin, bind_Return in H.
    destruct (clamp_window_spec w h win Hw Hh H1 H2 H3) as (r & Hr & Hin).
    rewrite Hr in H. injection H as ->. exact Hin.
  - intros Hwb Hhb. unfold crop_window.
    rewrite crop_branch_total by lia. rewrite bind_Return.
    destruct (branch_window_spec w h asked_width asked_height
                (Binary64.round_pos (w * 2 ^ Binary64.tiny) asked_width >?
                 Binary64.round_pos (h * 2 ^ Binary64.tiny) asked_height)
                Hw Hh Haw Hah) as (win & -> & H1 & H2 & H3).
    rewrite bind_Return.
    destruct (clamp_window_spec w h win Hw Hh H1 H2 H3) as ([nw nh] & Hr & _).
    eauto.
Qed.

Lemma crop_window_inside_witness :
  (0 < 300 /\ 0 < 300 /\ 0 < 100 /\ 0 < 200) /\
  (forall new_w new_h,
      crop_window 300 300 100 200 = Return (new_w, new_h) ->
      new_w <= 300 /\ new_h <= 300 /\ (new_w = 300 \/ new_h = 300)) /\
  (300 < 2 ^ 1023 -> 300 < 2 ^ 1023 ->
   exists new_w new_h, crop_window 300 300 100 200 = Return (new_w, new_h)).
Proof.
  split; [lia|]. apply (crop_window_inside 300 300 100 200); lia.
Defined.

(** ** The branch of the crop *)

(** When it keeps the full width, the width ratio is the larger one. *)
Lemma crop_branch_sound (w h aw ah : Z) :
  0 < w -> 0 < h -> 0 < aw -> 0 < ah ->
  crop_branch w h aw ah = Return true -> w * ah > h * aw.
Proof.
  intros Hw Hh Haw Hah H.
  apply crop_branch_inv in H as (_ & _ & H).
  rewrite !round_quot_pos in H by lia.
  unfold Binary64.gtb in H. symmetry in H. apply Z.gtb_lt in H.
  destruct (Z_le_gt_dec (w * ah) (h * aw)) as [Hle|]; [exfalso|lia].
  pose proof (pow2_pos Binary64.tiny ltac:(unfold Binary64.tiny; lia)) as Ht.
  pose proof (round_pos_mono (w * 2 ^ Binary64.tiny) aw (h * 2 ^ Binary64.tiny) ah
                ltac:(nia) Haw ltac:(nia) Hah ltac:(nia)).
  lia.
Qed.

(** Below [2^52] the two ratios cannot round to the same float. *)
Lemma crop_branch_complete (w h aw ah : Z) :
  0 < w -> 0 < h -> 0 < aw -> 0 < ah ->
  w * ah < 2 ^ 52 -> h * aw < w * ah ->
  Binary64.round_pos (h * 2 ^ Binary64.tiny) ah <
  Binary64.round_pos (w * 2 ^ Binary64.tiny) aw.
Proof.
  intros Hw Hh Haw Hah Hsmall Hlt.
  pose proof (pow2_pos Binary64.tiny ltac:(unfold Binary64.tiny; lia)) as Ht.
  set (t := 2 ^ Binary64.tiny) in *.
  assert (Hp : 0 <= w * t) by nia.
  apply round_pos_separate; try nia.
  pose proof (ulp_exp_cases (w * t) aw Hp Haw) as Hc. cbv zeta in Hc.
  pose proof (ulp_exp_nonneg (w * t) aw) as He.
  set (e := Binary64.ulp_exp (w * t) aw) in *.
  assert (Hgap : t <= w * t * ah - h * t * aw) by nia.
  enough (2 ^ e * (ah * aw) < t) by lia.
  destruct Hc as [[E _]|[Hpos [Hlo _]]].
  - rewrite E. change (2 ^ 0) with 1.
    assert (ah < 2 ^ 52) by nia. assert (aw < 2 ^ 52) by nia.
    assert (2 ^ 52 * 2 ^ 52 <= t).
    { subst t. unfold Binary64.tiny. rewrite <- Z.pow_add_r by lia.
      apply Z.pow_le_mono_r; lia. }
    nia.
  - rewrite Z.pow_add_r in Hlo by lia.
    pose proof (pow2_pos e He) as Hpe.
    assert (2 ^ e * 2 ^ 52 * aw * ah <= w * t * ah) by nia.
    assert (w * t * ah < 2 ^ 52 * t) by nia.
    assert (0 < 2 ^ 52) by (apply pow2_pos; lia).
    nia.
Qed.

(** C2, as the code has it.  The branch of line 117 compares the two
    quotients [w / asked_width] and [h / asked_height] after each has been
    rounded to a float.  It keeps the full width only if
    [w * asked_height > h * asked_width]; and it decides exactly that
    comparison whenever [w * asked_height < 2^52] (and [h < 2^1023], so that
    the quotient is a float).  Keeping the full width gives the window
    [(w, (asked_height * w) // asked_width)], keeping the full height
    [((asked_width * h) // asked_height, h)]. *)
Theorem crop_branch_exact_below_2_52 (w h asked_width asked_height : Z) :
  0 < w -> 0 < h -> 0 < asked_width -> 0 < asked_height ->
  (crop_branch w h asked_width asked_height = Return true ->
   w * asked_height > h * asked_width) /\
  (w * asked_height < 2 ^ 52 -> h < 2 ^ 1023 ->
   crop_branch w h asked_width asked_height
     = Return (w * asked_height >? h * asked_width)) /\
  branch_window w h asked_width asked_height true
    = Return (w, (asked_height * w) / asked_width) /\
  branch_window w h asked_width asked_height false
    = Return ((asked_width * h) / asked_height, h).
Proof.
  intros Hw Hh Haw Hah. split; [|split; [|split]].
  - apply crop_branch_sound; assumption.
  - intros Hsmall Hhb.
    assert (Hwb : w < 2 ^ 1023).
    { assert (2 ^ 52 <= 2 ^ 1023) by (apply Z.pow_le_mono_r; lia). nia. }
    rewrite crop_branch_total by lia. f_equal.
    pose proof (pow2_pos Binary64.tiny ltac:(unfold Binary64.tiny; lia)) as Ht.
    destruct (Z.gtb_spec (w * asked_height) (h * asked_width)) as [Hgt|Hle].
    + apply Z.gtb_lt. apply crop_branch_complete; lia.
    + destruct (Z.gtb_spec (Binary64.round_pos (w * 2 ^ Binary64.tiny) asked_width)
                  (Binary64.round_pos (h * 2 ^ Binary64.tiny) asked_height)) as [Hgt|]; [|reflexivity].
      pose proof (round_pos_mono (w * 2 ^ Binary64.tiny) asked_width
                    (h * 2 ^ Binary64.tiny) asked_height
                    ltac:(nia) Haw ltac:(nia) Hah ltac:(nia)).
      lia.
  - unfold branch_window. rewrite py_floordiv_ok by lia. reflexivity.
  - unfold branch_window. rewrite py_floordiv_ok by lia. reflexivity.
Qed.

Lemma crop_branch_exact_below_2_52_witness :
  (0 < 300 /\ 0 < 300 /\ 0 < 100 /\ 0 < 200) /\
  (crop_branch 300 300 100 200 = Return true -> 300 * 200 > 300 * 100) /\
  (300 * 200 < 2 ^ 52 -> 300 < 2 ^ 1023 ->
   crop_branch 300 300 100 200 = Return (300 * 200 >? 300 * 100)) /\
  branch_window 300 300 100 200 true = Return (300, (200 * 300) / 100) /\
  branch_window 300 300 100 200 false = Return ((100 * 300) / 200, 300).
Proof.
  split; [lia|]. apply (crop_branch_exact_below_2_52 300 300 100 200); lia.
Defined.

(** C2 as stated fails: on a 1000 x 1000 image asked to fit
    [(2^60, 2^60 + 1)] the two quotients round to the same float, so the
    full height is kept, although [w * asked_height > h * asked_width]. *)
Lemma crop_branch_not_exact :
  crop_branch 1000 1000 (2 ^ 60) (2 ^ 60 + 1) = Return false /\
  (1000 * (2 ^ 60 + 1) >? 1000 * 2 ^ 60) = true /\
  crop_window 1000 1000 (2 ^ 60) (2 ^ 60 + 1) = Return (999, 1000).
Proof. vm_compute. auto. Qed.

(** ** Resizing *)

Lemma thumbnail_size_within (x y s0 s1 : Z) :
  1 <= x -> 1 <= y -> 0 <= s0 -> 0 <= s1 ->
  (thumbnail_size (x, y) (s0, s1)).1 <= x /\ (thumbnail_size (x, y) (s0, s1)).2 <= y.
Proof.
  intros Hx Hy Hs0 Hs1. unfold thumbnail_size. simpl.
  destruct (Z.gtb_spec x s0) as [Hgt|Hle].
  - assert (Hy1 : y * s0 / x <= y) by (apply Z.div_le_upper_bound; nia).
    assert (Hy0 : 0 <= y * s0 / x) by (apply Z.div_pos; nia).
    destruct (Z.gtb_spec (Z.max (y * s0 / x) 1) s1) as [Hgt'|Hle']; simpl; [|lia].
    split; [|lia].
    assert (s0 * s1 / Z.max (y * s0 / x) 1 <= s0) by (apply Z.div_le_upper_bound; nia).
    lia.
  - destruct (Z.gtb_spec y s1) as [Hgt'|Hle']; simpl; [|lia].
    split; [|lia].
    assert (x * s1 / y <= x) by (apply Z.div_le_upper_bound; nia).
    lia.
Qed.

Lemma thumbnail_size_fits (x y s0 s1 : Z) :
  x <= s0 -> y <= s1 -> thumbnail_size (x, y) (s0, s1) = (x, y).
Proof.
  intros Hx Hy. unfold thumbnail_size. simpl.
  destruct (Z.gtb_spec x s0); [lia|].
  destruct (Z.gtb_spec y s1); [lia|reflexivity].
Qed.

Lemma asked_size_one_zero (w h sw sh : Z) :
  0 < w -> 0 < h ->
  asked_size w h (sw, sh) =
    Return (if sw =? 0 then (w * sh) / h else sw, if sh =? 0 then (h * sw) / w else sh).
Proof.
  intros Hw Hh. unfold asked_size. simpl.
  rewrite !py_floordiv_ok by lia.
  destruct (sw =? 0), (sh =? 0); reflexivity.
Qed.

Section Resize.
Context {Pix : Type} `{!Pillow Pix}.

Lemma thumbnail_size_eq (img img' : image Pix) (size : Z * Z) :
  thumbnail img size = Return img' ->
  im_size img' = thumbnail_size (im_size img) size.
Proof.
  unfold thumbnail. destruct (decide _) as [E|NE].
  - intros [= <-]. symmetry. exact E.
  - destruct (empty_size _); [discriminate|]. intros [= <-]. reflexivity.
Qed.

Lemma thumbnail_returns (img : image Pix) (size : Z * Z) :
  empty_size (thumbnail_size (im_size img) size) = false ->
  exists img', thumbnail img size = Return img'.
Proof.
  intros Hsize. unfold thumbnail. rewrite Hsize.
  destruct (decide _); eauto.
Qed.

Lemma thumbnail_raises (img : image Pix) (size : Z * Z) :
  thumbnail_size (im_size img) size <> im_size img ->
  empty_size (thumbnail_size (im_size img) size) = true ->
  thumbnail img size = Raise (PillowError "height and width must be > 0").
Proof.
  intros Hne Hempty. unfold thumbnail. rewrite Hempty.
  destruct (decide _); [contradiction|reflexivity].
Qed.

Lemma thumbnail_fits (img : image Pix) (s0 s1 : Z) :
  (im_size img).1 <= s0 -> (im_size img).2 <= s1 -> thumbnail img (s0, s1) = Return img.
Proof.
  intros H0 H1. unfold thumbnail. destruct (im_size img) as [x y] eqn:E.
  rewrite thumbnail_size_fits by assumption.
  destruct (decide _); [reflexivity|contradiction].
Qed.

(** With asked sides of at least 1 the thumbnail has no empty side. *)
Lemma thumbnail_size_not_empty (x y s0 s1 : Z) :
  1 <= x -> 1 <= y -> 1 <= s0 -> 1 <= s1 ->
  empty_size (thumbnail_size (x, y) (s0, s1)) = false.
Proof.
  intros Hx Hy Hs0 Hs1. unfold thumbnail_size, empty_size. simpl.
  destruct (Z.gtb_spec x s0);
    [destruct (Z.gtb_spec (Z.max (y * s0 / x) 1) s1)|destruct (Z.gtb_spec y s1)]; simpl;
    apply orb_false_iff; split; apply Z.leb_gt; lia.
Qed.

(** With an asked side of 0 it has one, and it is not the size of the
    image. *)
Lemma thumbnail_size_empty (x y s0 s1 : Z) :
  1 <= x -> 1 <= y -> 0 <= s0 -> 0 <= s1 -> s0 = 0 \/ s1 = 0 ->
  empty_size (thumbnail_size (x, y) (s0, s1)) = true /\
  thumbnail_size (x, y) (s0, s1) <> (x, y).
Proof.
  intros Hx Hy Hs0 Hs1 Hzero. unfold thumbnail_size, empty_size. simpl.
  assert (Hq : s0 = 0 -> y * s0 / x = 0) by (intros ->; rewrite Z.mul_0_r; reflexivity).
  revert Hq. generalize (y * s0 / x). intros q Hq.
  destruct (Z.gtb_spec x s0);
    [destruct (Z.gtb_spec (Z.max q 1) s1)|destruct (Z.gtb_spec y s1)]; simpl.
  - split; [apply orb_true_iff; right; apply Z.leb_le; lia|intros [= ? ?]; lia].
  - split; [apply orb_true_iff; left; apply Z.leb_le; lia|intros [= ? ?]; lia].
  - split; [apply orb_true_iff; right; apply Z.leb_le; lia|intros [= ? ?]; lia].
  - lia.
Qed.

(** C4. For an image of size [(w, h)] and a [size] with exactly one zero
    component, the missing side of the target comes from the other by a
    truncating integer division,
    [asked_width = size[0] or (w * size[1]) // h] and
    [asked_height = size[1] or (h * size[0]) // w]; and the resize that
    follows only scales down: no side of a result exceeds the side of the
    original, and a size at or above the original leaves the image as it
    is.  There is a result when the derived side is at least 1; when it is
    0 the resize raises. *)
Theorem resize_downscale_only (img : image Pix) (w h sw sh : Z) (crop_opt : crop_arg) :
  im_size img = (w, h) -> 0 < w -> 0 < h ->
  (sw = 0 /\ 0 < sh) \/ (0 < sw /\ sh = 0) ->
  truthy_crop crop_opt = false ->
  let asked_width := if sw =? 0 then (w * sh) ÷ h else sw in
  let asked_height := if sh =? 0 then (h * sw) ÷ w else sh in
  asked_size w h (sw, sh) = Return (asked_width, asked_height) /\
  (1 <= asked_width -> 1 <= asked_height ->
   exists img',
     resize_step img (sw, sh) crop_opt = Return img' /\
     im_size img' = thumbnail_size (w, h) (asked_width, asked_height) /\
     (im_size img').1 <= w /\ (im_size img').2 <= h /\
     (w <= sw \/ h <= sh -> img' = img)) /\
  (asked_width = 0 \/ asked_height = 0 ->
   resize_step img (sw, sh) crop_opt = Raise (PillowError "height and width must be > 0")) /\
  (forall img', resize_step img (sw, sh) crop_opt = Return img' ->
     (im_size img').1 <= w /\ (im_size img').2 <= h).
Proof.
  intros Hsize Hw Hh Hone Hcrop asked_width asked_height.
  assert (Haw : asked_width = if sw =? 0 then (w * sh) / h else sw).
  { subst asked_width. destruct (sw =? 0); [|reflexivity].
    apply Z.quot_div_nonneg; nia. }
  assert (Hah : asked_height = if sh =? 0 then (h * sw) / w else sh).
  { subst asked_height. destruct (sh =? 0); [|reflexivity].
    apply Z.quot_div_nonneg; nia. }
  assert (Hask : asked_size w h (sw, sh) = Return (asked_width, asked_height)).
  { rewrite asked_size_one_zero, Haw, Hah by lia. reflexivity. }
  split; [exact Hask|].
  assert (H0w : 0 <= asked_width /\ 0 <= asked_height).
  { rewrite Haw, Hah.
    destruct Hone as [[-> Hs]|[Hs ->]]; simpl.
    - destruct (Z.eqb_spec sh 0); [lia|]. split; [apply Z.div_pos; nia|lia].
    - destruct (Z.eqb_spec sw 0); [lia|]. split; [lia|apply Z.div_pos; nia]. }
  assert (Hstep : resize_step img (sw, sh) crop_opt
                    = thumbnail img (asked_width, asked_height)).
  { unfold resize_step. rewrite Hsize. simpl fst. simpl snd.
    assert (Hnz : negb (sw =? 0) || negb (sh =? 0) = true).
    { destruct Hone as [[-> Hs]|[Hs ->]].
      - destruct (Z.eqb_spec sh 0); [lia|]. apply orb_true_r.
      - destruct (Z.eqb_spec sw 0); [lia|]. reflexivity. }
    rewrite Hnz, Hask, Hcrop. reflexivity. }
  rewrite Hstep. clearbody asked_width asked_height.
  assert (Hwithin : forall img', thumbnail img (asked_width, asked_height) = Return img' ->
            (im_size img').1 <= w /\ (im_size img').2 <= h).
  { intros img' Hret. apply thumbnail_size_eq in Hret. rewrite Hret, Hsize.
    apply thumbnail_size_within; lia. }
  split; [|split; [|exact Hwithin]].
  - intros H1w H1h.
    destruct (thumbnail_returns img (asked_width, asked_height)) as (img' & Hret).
    { rewrite Hsize. apply thumbnail_size_not_empty; lia. }
    exists img'. split; [exact Hret|].
    split; [rewrite (thumbnail_size_eq _ _ _ Hret), Hsize; reflexivity|].
    destruct (Hwithin img' Hret) as [Hiw Hih]. do 2 (split; [assumption|]).
    intros Hbig.
    assert (Hfit : thumbnail img (asked_width, asked_height) = Return img).
    { apply thumbnail_fits; rewrite Hsize; simpl; rewrite ?Haw, ?Hah.
      + destruct Hone as [[-> Hs]|[Hs ->]]; simpl.
        * apply Z.div_le_lower_bound; nia.
        * destruct (Z.eqb_spec sw 0); lia.
      + destruct Hone as [[-> Hs]|[Hs ->]]; simpl.
        * destruct (Z.eqb_spec sh 0); lia.
        * apply Z.div_le_lower_bound; nia. }
    congruence.
  - intros Hzero.
    destruct (thumbnail_size_empty w h asked_width asked_height) as [He Hn]; try lia.
    apply thumbnail_raises; rewrite Hsize; assumption.
Qed.

End Resize.

Lemma resize_downscale_only_witness :
  let img := Image (2000, 1000) "RGBA" (Some "PNG"%string) false tt in
  (im_size img = (2000, 1000) /\ 0 < 2000 /\ 0 < 1000 /\
   ((500 = 0 /\ 0 < 0) \/ (0 < 500 /\ 0 = 0)) /\ truthy_crop CropNone = false) /\
  asked_size 2000 1000 (500, 0) = Return (500, (1000 * 500) ÷ 2000) /\
  exists img',
    resize_step img (500, 0) CropNone = Return img' /\
    im_size img' = thumbnail_size (2000, 1000) (500, (1000 * 500) ÷ 2000) /\
    (im_size img').1 <= 2000 /\ (im_size img').2 <= 1000 /\
    (2000 <= 500 \/ 1000 <= 0 -> img' = img).
Proof.
  intros img. split.
  - repeat split; try reflexivity; lia.
  - assert (Hone : (500 = 0 /\ 0 < 0) \/ (0 < 500 /\ 0 = 0)) by (right; split; reflexivity).
    destruct (resize_downscale_only img 2000 1000 500 0 CropNone
                eq_refl eq_refl eq_refl Hone eq_refl) as (Hask & Hret & _ & _).
    split; [exact Hask|]. apply Hret; discriminate.
Defined.

(** ** The scenario of the 300 x 300 image cropped at the top *)

Lemma asked_size_300 : asked_size 300 300 (100, 200) = Return (100, 200).
Proof. reflexivity. Qed.

Lemma crop_window_300 : crop_window 300 300 100 200 = Return (150, 300).
Proof. vm_compute. reflexivity. Qed.

Lemma crop_box_300 :
  box_pixels (crop_box 300 300 150 300 (CropStr "top")) = (75, 0, 225, 300).
Proof. vm_compute. reflexivity. Qed.

Section CropTop.
Context {Pix : Type} `{!Pillow Pix}.

(** C3. On a 300 x 300 image with [size = (100, 200)] and [crop = 'top'],
    [image_process] asks for 100 x 200, takes the branch that keeps the full
    width and lets the clamp bring the window back to the full height
    ([new_h = 300], [new_w = 150]), anchors it at the top ([h_offset = 0])
    and centres it horizontally ([x_offset = (w - new_w) * 0.5 = 75]); the
    resize leaves an image of exactly 100 x 200 pixels. *)
Theorem crop_top_300_100_200 (img : image Pix) :
  im_size img = (300, 300) ->
  asked_size 300 300 (100, 200) = Return (100, 200) /\
  crop_branch 300 300 100 200 = Return true /\
  crop_window 300 300 100 200 = Return (150, 300) /\
  ((crop_offsets 300 300 150 300 (CropStr "top")).1 == inject_Z (300 - 150) * (1 # 2))%Q /\
  ((crop_offsets 300 300 150 300 (CropStr "top")).1 == 75)%Q /\
  ((crop_offsets 300 300 150 300 (CropStr "top")).2 == 0)%Q /\
  box_pixels (crop_box 300 300 150 300 (CropStr "top")) = (75, 0, 225, 300) /\
  cropped_size (crop_box 300 300 150 300 (CropStr "top")) = (150, 300) /\
  exists img',
    resize_step img (100, 200) (CropStr "top") = Return img' /\
    im_size img' = (100, 200).
Proof.
  intros Hsize.
  split; [reflexivity|]. split; [vm_compute; reflexivity|].
  split; [exact crop_window_300|].
  split; [reflexivity|]. split; [reflexivity|]. split; [reflexivity|].
  split; [exact crop_box_300|]. split; [vm_compute; reflexivity|].
  assert (Hstep : resize_step img (100, 200) (CropStr "top")
                    = thumbnail (crop img (crop_box 300 300 150 300 (CropStr "top")))
                        (100, 200)).
  { unfold resize_step. rewrite Hsize. simpl fst. simpl snd.
    change (negb (100 =? 0) || negb (200 =? 0)) with true. cbv iota.
    rewrite asked_size_300, bind_Return.
    change (truthy_crop (CropStr "top")) with true. cbv iota beta.
    rewrite crop_window_300, !bind_Return. reflexivity. }
  rewrite Hstep.
  destruct (thumbnail_returns (crop img (crop_box 300 300 150 300 (CropStr "top")))
              (100, 200)) as (img' & Hret); [reflexivity|].
  exists img'. split; [exact Hret|].
  rewrite (thumbnail_size_eq _ _ _ Hret). reflexivity.
Qed.

End CropTop.

Lemma crop_top_300_100_200_witness :
  let img := Image (300, 300) "RGB" (Some "JPEG"%string) false tt in
  im_size img = (300, 300) /\
  exists img',
    resize_step img (100, 200) (CropStr "top") = Return img' /\
    im_size img' = (100, 200).
Proof.
  intros img. split; [reflexivity|].
  apply (crop_top_300_100_200 img). reflexivity.
Defined.

(** ** The resolution guard *)

Lemma no_guard_error_bind {A B} (r : result A) (k : A -> result B) :
  no_guard_error r -> (forall a, no_guard_error (k a)) -> no_guard_error (r ≫= k).
Proof. destruct r as [a|e]; simpl; auto. Qed.

Ltac trivial_result := first [exact I | reflexivity].

Lemma py_floordiv_no_guard_error (a b : Z) : no_guard_error (py_floordiv a b).
Proof. unfold py_floordiv. destruct (b =? 0); simpl; auto. Qed.

Lemma py_truediv_no_guard_error (a b : Z) : no_guard_error (py_truediv a b).
Proof.
  unfold py_truediv. destruct (b =? 0); simpl; auto.
  destruct (Binary64.huge <=? _); simpl; auto.
Qed.

Lemma asked_size_no_guard_error (w h : Z) (size : Z * Z) :
  no_guard_error (asked_size w h size).
Proof.
  unfold asked_size.
  apply no_guard_error_bind;
    [destruct (size.1 =? 0); [apply py_floordiv_no_guard_error|trivial_result]|intros aw].
  apply no_guard_error_bind;
    [destruct (size.2 =? 0); [apply py_floordiv_no_guard_error|trivial_result]|intros ah].
  trivial_result.
Qed.

Lemma crop_window_no_guard_error (w h aw ah : Z) :
  no_guard_error (crop_window w h aw ah).
Proof.
  unfold crop_window.
  apply no_guard_error_bind.
  { unfold crop_branch.
    apply no_guard_error_bind; [apply py_truediv_no_guard_error|intros rw].
    apply no_guard_error_bind; [apply py_truediv_no_guard_error|intros rh]. trivial_result. }
  intros wider. apply no_guard_error_bind.
  { unfold branch_window. destruct wider;
      (apply no_guard_error_bind; [apply py_floordiv_no_guard_error|intros x; trivial_result]). }
  intros [nw nh]. unfold clamp_window. simpl.
  apply no_guard_error_bind.
  { destruct (nw >? w); [|trivial_result].
    apply no_guard_error_bind; [apply py_floordiv_no_guard_error|intros x; trivial_result]. }
  intros [nw' nh']. destruct (nh' >? h); [|trivial_result].
  apply no_guard_error_bind; [apply py_floordiv_no_guard_error|intros x; trivial_result].
Qed.

Lemma limit_is_four_and_a_half :
  float_truediv IMAGE_MAX_RESOLUTION ten_e6 = Return four_and_a_half /\
  (Binary64.to_Q four_and_a_half == 9 # 2)%Q /\
  (Binary64.to_Q IMAGE_MAX_RESOLUTION / Binary64.to_Q ten_e6 == 9 # 2)%Q.
Proof. vm_compute. auto. Qed.

Lemma check_resolution_spec (verify : bool) (w h : Z) :
  check_resolution verify w h =
    if verify && (w * h >? 45000000)
    then Raise (ValueError resolution_template four_and_a_half)
    else Return tt.
Proof.
  unfold check_resolution.
  assert (E : Binary64.int_gtb (w * h) IMAGE_MAX_RESOLUTION = (w * h >? 45000000)).
  { unfold Binary64.int_gtb, IMAGE_MAX_RESOLUTION, Binary64.of_int.
    pose proof (pow2_pos Binary64.tiny ltac:(unfold Binary64.tiny; lia)) as Ht.
    destruct (Z.gtb_spec (w * h) 45000000), (Z.gtb_spec (w * h * 2 ^ Binary64.tiny)
      (45000000 * 2 ^ Binary64.tiny)); try reflexivity; nia. }
  rewrite E. destruct (verify && (w * h >? 45000000)); [|reflexivity].
  destruct limit_is_four_and_a_half as [-> _]. reflexivity.
Qed.

Section Guard.
Context {Pix Rng : Type} `{!Pillow Pix} `{!RandomSource Rng} {Upper : StrUpper}.

Lemma resolve_format_no_guard_error (fmt fmt' : option string) :
  no_guard_error (resolve_format fmt fmt').
Proof.
  unfold resolve_format. apply no_guard_error_bind; [|intros; trivial_result].
  destruct fmt as [[|c s]|]; try trivial_result; destruct fmt'; trivial_result.
Qed.

Lemma thumbnail_no_guard_error (img : image Pix) (size : Z * Z) :
  no_guard_error (thumbnail img size).
Proof.
  unfold thumbnail. destruct (decide _); [trivial_result|].
  destruct (empty_size _); trivial_result.
Qed.

Lemma resize_step_no_guard_error (img : image Pix) (size : Z * Z) (crop_opt : crop_arg) :
  no_guard_error (resize_step img size crop_opt).
Proof.
  unfold resize_step. destruct (negb _ || negb _); [|trivial_result].
  destruct (im_size img) as [w h].
  apply no_guard_error_bind; [apply asked_size_no_guard_error|intros [aw ah]].
  apply no_guard_error_bind; [|intros; apply thumbnail_no_guard_error].
  destruct (truthy_crop crop_opt); [|trivial_result].
  apply no_guard_error_bind; [apply crop_window_no_guard_error|intros [nw nh]; trivial_result].
Qed.

Lemma encode_step_no_guard_error (img : image Pix) (fmt : string) (quality : Z) :
  no_guard_error (encode_step img fmt quality).
Proof.
  unfold encode_step. destruct (String.eqb fmt "PNG");
    (apply no_guard_error_bind; [|intros; trivial_result]);
    unfold image_to_base64; destruct (_ !! _) as [[]|]; trivial_result.
Qed.

Lemma colorize_step_no_guard_error (img : image Pix) (g : Rng) :
  no_guard_error (colorize_step img g).1.
Proof.
  unfold colorize_step.
  destruct (randrange 32 224 24 g) as [r g1].
  destruct (randrange 32 224 24 g1) as [gr g2].
  destruct (randrange 32 224 24 g2) as [b g3]. cbn [fst].
  unfold paste_on_color. destruct (px_paste_masked _ _ _); trivial_result.
Qed.

(** Once the guard has let the image through, nothing raises its error. *)
Lemma after_guard_no_guard_error (img : image Pix) (size : Z * Z) (quality : Z)
    (crop_opt : crop_arg) (colorize : bool) (fmt : option string) (g : Rng) :
  no_guard_error
    (match (output_format ← resolve_format fmt (im_format img);
            img ← resize_step img size crop_opt;
            Return (img, output_format)) with
     | Raise e => (Raise e, g)
     | Return (img, output_format) =>
         let '(colored, g) := if colorize then colorize_step img g else (Return img, g) in
         (img ← colored; encode_step img output_format quality, g)
     end).1.
Proof.
  pose proof (resolve_format_no_guard_error fmt (im_format img)) as Hf.
  destruct (resolve_format fmt (im_format img)) as [f|e]; simpl; [|exact Hf].
  pose proof (resize_step_no_guard_error img size crop_opt) as Hr.
  destruct (resize_step img size crop_opt) as [img'|e]; simpl; [|exact Hr].
  destruct colorize.
  - pose proof (colorize_step_no_guard_error img' g) as Hc.
    destruct (colorize_step img' g) as [[img''|e] g']; simpl in *;
      [apply encode_step_no_guard_error|exact Hc].
  - simpl. apply encode_step_no_guard_error.
Qed.

Lemma no_guard_error_neq {A} (r : result A) (template : string) (arg : Binary64.t) :
  no_guard_error r -> r <> Raise (ValueError template arg).
Proof. intros H ->. discriminate H. Qed.

(** C5. For a source that is not empty, is not sniffed as SVG and decodes to
    an image of [w x h] pixels, [image_process] with [verify_resolution=True]
    raises the error of the resolution guard if and only if
    [w * h > 45,000,000] ([IMAGE_MAX_RESOLUTION]); the message reports the
    limit [IMAGE_MAX_RESOLUTION / 10e6], that is 4.5, million pixels.  With
    [verify_resolution=False] the guard lets every image through: whatever
    happens afterwards, it is not the error of the guard. *)
Theorem resolution_guard (src : source) (img : image Pix) (w h : Z) (size : Z * Z)
    (quality : Z) (crop_opt : crop_arg) (colorize : bool) (fmt : option string) (g : Rng) :
  falsy_source src = false -> svg_sniffed src = false ->
  base64_to_image src = Return img -> im_size img = (w, h) ->
  ((image_process src size true quality crop_opt colorize fmt g).1
     = Raise (ValueError resolution_template four_and_a_half)
   <-> w * h > 45000000) /\
  (w * h <= 45000000 ->
   (image_process src size true quality crop_opt colorize fmt g).1
     <> Raise (ValueError resolution_template four_and_a_half)) /\
  float_truediv IMAGE_MAX_RESOLUTION ten_e6 = Return four_and_a_half /\
  (Binary64.to_Q four_and_a_half == 9 # 2)%Q /\
  check_resolution false w h = Return tt /\
  (image_process src size false quality crop_opt colorize fmt g).1
    <> Raise (ValueError resolution_template four_and_a_half).
Proof.
  intros Hne Hsvg Hdec Hsize.
  assert (Htrue : w * h <= 45000000 ->
            no_guard_error (image_process src size true quality crop_opt colorize fmt g).1).
  { intros Hsmall. unfold image_process, prepare. rewrite Hne, Hsvg, Hdec, bind_Return, Hsize.
    rewrite check_resolution_spec.
    destruct (Z.gtb_spec (w * h) 45000000) as [|_]; [lia|]. simpl andb. cbv iota.
    rewrite bind_Return. apply after_guard_no_guard_error. }
  split; [|split; [|split; [|split; [|split]]]].
  - split.
    + intros Hraise. destruct (Z_le_gt_dec (w * h) 45000000) as [Hsmall|]; [|assumption].
      specialize (Htrue Hsmall). rewrite Hraise in Htrue. discriminate.
    + intros Hbig. unfold image_process, prepare.
      rewrite Hne, Hsvg, Hdec, bind_Return, Hsize, check_resolution_spec.
      destruct (Z.gtb_spec (w * h) 45000000) as [_|]; [|lia]. reflexivity.
  - intros Hsmall. apply no_guard_error_neq. apply Htrue. exact Hsmall.
  - apply limit_is_four_and_a_half.
  - apply limit_is_four_and_a_half.
  - rewrite check_resolution_spec. reflexivity.
  - apply no_guard_error_neq.
    unfold image_process, prepare. rewrite Hne, Hsvg, Hdec, bind_Return, Hsize.
    rewrite check_resolution_spec. simpl andb. cbv iota.
    rewrite bind_Return. apply after_guard_no_guard_error.
Qed.

End Guard.

Lemma resolution_guard_witness :
  let src := SrcBytes ["Q"%byte] in
  let img := Image (9000, 6000) "RGB" (Some "BMP"%string) false tt in
  (falsy_source src = false /\ svg_sniffed src = false /\
   base64_to_image src = Return img /\ im_size img = (9000, 6000)) /\
  ((image_process src (0, 0) true 80 CropNone false None ([] : list Z)).1
     = Raise (ValueError resolution_template four_and_a_half)
   <-> 9000 * 6000 > 45000000) /\
  (image_process src (0, 0) false 80 CropNone false None ([] : list Z)).1
    <> Raise (ValueError resolution_template four_and_a_half).
Proof.
  intros src img. split; [repeat split|].
  pose proof (resolution_guard src img 9000 6000 (0, 0) 80 CropNone false None ([] : list Z)
                eq_refl eq_refl eq_refl eq_refl) as H.
  destruct H as (H1 & _ & _ & _ & _ & H6). split; [exact H1|exact H6].
Defined.

(** ** Empty and SVG sources *)

Section Passthrough.
Context {Pix Rng : Type} `{!Pillow Pix} `{!RandomSource Rng} {Upper : StrUpper}.

(** C9. For an empty or falsy source, whatever the options, [image_process]
    returns [False], the "no image" value, at once: it is a result, not an
    error, and the generator is not touched. *)
Theorem falsy_source_returns_False (src : source) (size : Z * Z) (verify_resolution : bool)
    (quality : Z) (crop_opt : crop_arg) (colorize : bool) (fmt : option string) (g : Rng) :
  falsy_source src = true ->
  image_process src size verify_resolution quality crop_opt colorize fmt g
    = (Return VFalse, g).
Proof. intros H. unfold image_process. rewrite H. reflexivity. Qed.

(** C8. For a source whose first byte is [P], whatever the options,
    [image_process] returns the source itself, unchanged; nothing is
    decoded, so this holds for every codec. *)
Theorem svg_source_unchanged (payload : list byte) (size : Z * Z) (verify_resolution : bool)
    (quality : Z) (crop_opt : crop_arg) (colorize : bool) (fmt : option string) (g : Rng) :
  image_process (SrcBytes ("P"%byte :: payload)) size verify_resolution quality
      crop_opt colorize fmt g
    = (Return (VSource (SrcBytes ("P"%byte :: payload))), g).
Proof. reflexivity. Qed.

End Passthrough.

Lemma falsy_source_returns_False_witness :
  falsy_source (SrcBytes []) = true /\
  image_process (Pix := unit) (SrcBytes []) (64, 64) true 80 (CropStr "center") true
      (Some "PNG"%string) ([] : list Z)
    = (Return VFalse, []).
Proof.
  split; [reflexivity|].
  apply (falsy_source_returns_False (Pix := unit)). reflexivity.
Defined.

(** ** The output format *)

Lemma string_in_elem (s : string) (l : list string) :
  string_in s l = true <-> s ∈ l.
Proof.
  unfold string_in. rewrite existsb_exists. split.
  - intros (x & Hin & Heq). apply String.eqb_eq in Heq. subst x.
    apply list_elem_of_In. exact Hin.
  - intros Hin. exists s. split; [apply list_elem_of_In; exact Hin|apply String.eqb_refl].
Qed.

Ltac list_member :=
  rewrite ?elem_of_cons, ?elem_of_nil; intuition (try discriminate; try congruence).

Lemma upper_ascii_spec (c : ascii) : upper_ascii c = spec_upper_letter c.
Proof.
  destruct c as [[] [] [] [] [] [] [] []]; reflexivity.
Qed.

Lemma py_upper_spec (s : string) : py_upper s = spec_upper s.
Proof.
  induction s as [|c s IH]; [reflexivity|].
  simpl. rewrite upper_ascii_spec, IH. reflexivity.
Qed.

Section Format.
Context {Pix Rng : Type} `{!Pillow Pix} `{!RandomSource Rng} {Upper : StrUpper}.

(** Lines 99-103 on the name that [upper] returns. *)
Lemma resolve_format_name (specified : option string) (intrinsic : string) :
  specified <> Some ""%string ->
  let name := str_upper (match specified with Some s => s | None => intrinsic end) in
  resolve_format specified (Some intrinsic)
    = Return (if decide (name = "BMP"%string) then "PNG"%string
              else if decide (name ∈ ["PNG"; "JPEG"; "GIF"]%string) then name
              else "JPEG"%string).
Proof.
  intros Hspec name. unfold resolve_format.
  assert (Hch : match specified with
                | Some (String c s) => Return (String c s)
                | _ => Return intrinsic
                end = Return (match specified with Some s => s | None => intrinsic end)).
  { destruct specified as [[|c s]|]; [contradiction|reflexivity|reflexivity]. }
  rewrite Hch, bind_Return. fold name. f_equal.
  destruct (String.eqb_spec name "BMP") as [E|NE].
  - rewrite decide_True by assumption. reflexivity.
  - rewrite decide_False by assumption.
    destruct (string_in name ["PNG"; "JPEG"; "GIF"]) eqn:Hin; simpl.
    + rewrite decide_True by (apply string_in_elem; exact Hin). reflexivity.
    + rewrite decide_False; [reflexivity|].
      intros Hn. apply string_in_elem in Hn. congruence.
Qed.

(** On ASCII text the code resolves the format as the specification words
    it. *)
Lemma resolve_format_refines (specified : option string) (intrinsic : string) :
  specified <> Some ""%string ->
  ascii_text (match specified with Some s => s | None => intrinsic end) = true ->
  resolve_format specified (Some intrinsic)
    = Return (spec_output_format specified intrinsic).
Proof.
  intros Hspec Hascii. rewrite resolve_format_name by assumption. cbv zeta.
  unfold spec_output_format.
  rewrite (str_upper_ascii _ Hascii), py_upper_spec. reflexivity.
Qed.

(** Whatever the image, the last step saves it in the resolved format. *)
Lemma encode_step_saves (img : image Pix) (fmt : string) (quality : Z) :
  exists img' kwargs,
    encode_step img fmt quality = Return (VBytes (b64encode (image_save img' fmt kwargs))).
Proof.
  unfold encode_step.
  assert (Hk : forall (img' : image Pix) (opt : gmap string pyval),
             opt !! "format" = Some (PStr fmt) ->
             exists img'' kwargs,
               (encoded ← image_to_base64 img' opt; Return (VBytes encoded))
                 = Return (VBytes (b64encode (image_save img'' fmt kwargs)))).
  { intros img' opt Hopt. unfold image_to_base64. rewrite Hopt, bind_Return. eauto. }
  destruct (String.eqb fmt "PNG"), (String.eqb fmt "JPEG"), (String.eqb fmt "GIF");
    apply Hk; by simplify_map_eq.
Qed.

Lemma prepare_inv (src : source) (size : Z * Z) (verify : bool) (crop_opt : crop_arg)
    (fmt : option string) (img : image Pix) (f : string) :
  prepare src size verify crop_opt fmt = Return (img, f) ->
  exists img0, base64_to_image src = Return img0 /\
               resolve_format fmt (im_format img0) = Return f.
Proof.
  unfold prepare. intros H.
  apply bind_inv in H as (img0 & Hdec & H). exists img0. split; [exact Hdec|].
  destruct (im_size img0) as [w h].
  apply bind_inv in H as (_ & _ & H).
  apply bind_inv in H as (f' & Hf & H).
  apply bind_inv in H as (img1 & _ & H).
  injection H as _ <-. exact Hf.
Qed.

(** C7. For a source that is not empty and not sniffed as SVG, the format
    [image_process] encodes to is the requested output format when one is
    specified, the format of the decoded image otherwise, uppercased (by
    [str.upper], which on ASCII text turns the letters [a] to [z] into
    capitals), with [BMP] turned into [PNG] and anything outside
    [{PNG, JPEG, GIF}] turned into [JPEG]: every result of [image_process] is
    the image saved in that format. *)
Theorem output_format_resolved (src : source) (img0 : image Pix) (intrinsic : string)
    (size : Z * Z) (verify_resolution : bool) (quality : Z) (crop_opt : crop_arg)
    (colorize : bool) (specified : option string) (g : Rng) :
  falsy_source src = false -> svg_sniffed src = false ->
  base64_to_image src = Return img0 -> im_format img0 = Some intrinsic ->
  specified <> Some ""%string ->
  let chosen := match specified with Some s => s | None => intrinsic end in
  let name := str_upper chosen in
  exists effective,
    resolve_format specified (im_format img0) = Return effective /\
    effective ∈ ["PNG"; "JPEG"; "GIF"]%string /\
    (name = "BMP"%string -> effective = "PNG"%string) /\
    (name ∈ ["PNG"; "JPEG"; "GIF"]%string -> effective = name) /\
    (name ∉ ["BMP"; "PNG"; "JPEG"; "GIF"]%string -> effective = "JPEG"%string) /\
    (ascii_text chosen = true ->
     name = spec_upper chosen /\ effective = spec_output_format specified intrinsic) /\
    (forall v,
        (image_process src size verify_resolution quality crop_opt colorize specified g).1
          = Return v ->
        exists img kwargs, v = VBytes (b64encode (image_save img effective kwargs))).
Proof.
  intros Hne Hsvg Hdec Hfmt Hspec chosen name.
  pose proof (resolve_format_name specified intrinsic Hspec) as Hres.
  cbv zeta in Hres. fold chosen in Hres. fold name in Hres.
  set (effective := if decide (name = "BMP"%string) then "PNG"%string
                    else if decide (name ∈ ["PNG"; "JPEG"; "GIF"]%string) then name
                    else "JPEG"%string) in *.
  exists effective. rewrite Hfmt.
  split; [exact Hres|].
  assert (Hcases : effective ∈ ["PNG"; "JPEG"; "GIF"]%string /\
                   (name = "BMP"%string -> effective = "PNG"%string) /\
                   (name ∈ ["PNG"; "JPEG"; "GIF"]%string -> effective = name) /\
                   (name ∉ ["BMP"; "PNG"; "JPEG"; "GIF"]%string -> effective = "JPEG"%string)).
  { subst effective.
    destruct (decide (name = "BMP"%string)) as [E|NE];
      [|destruct (decide (name ∈ ["PNG"; "JPEG"; "GIF"]%string)) as [Hin|Hnin]].
    - split; [list_member|]. split; [reflexivity|]. rewrite E. split; list_member.
    - split; [exact Hin|]. split; [contradiction|]. split; [reflexivity|].
      revert Hin. list_member.
    - split; [list_member|]. split; [contradiction|]. split; [contradiction|reflexivity]. }
  destruct Hcases as (H1 & H2 & H3 & H4).
  do 4 (split; [assumption|]).
  split.
  - intros Hascii. split.
    + subst name. rewrite (str_upper_ascii _ Hascii). apply py_upper_spec.
    + pose proof (resolve_format_refines specified intrinsic Hspec Hascii) as Href.
      rewrite Hres in Href. injection Href as Href. exact Href.
  - intros v Hv.
    unfold image_process in Hv. rewrite Hne, Hsvg in Hv.
    destruct (prepare src size verify_resolution crop_opt specified) as [[img f]|e] eqn:Hprep;
      [|discriminate].
    apply prepare_inv in Hprep as (img0' & Hdec' & Hf).
    rewrite Hdec in Hdec'. injection Hdec' as <-.
    rewrite Hfmt, Hres in Hf. injection Hf as <-.
    destruct (if colorize then colorize_step img g else (Return img, g)) as [[img'|e] g'];
      cbn in Hv; [|discriminate].
    destruct (encode_step_saves img' effective quality) as (img'' & kwargs & Hret).
    rewrite Hret in Hv. injection Hv as <-. eauto.
Qed.

End Format.

Lemma output_format_resolved_witness :
  let src := SrcBytes ["/"%byte] in
  let img0 := Image (300, 300) "RGB" (Some "JPEG"%string) false tt in
  (falsy_source src = false /\ svg_sniffed src = false /\
   base64_to_image src = Return img0 /\ im_format img0 = Some "JPEG"%string /\
   Some "bmp"%string <> Some ""%string) /\
  str_upper "bmp" = "BMP"%string /\
  resolve_format (Some "bmp"%string) (im_format img0) = Return "PNG"%string /\
  (forall v,
      (image_process src (1024, 1024) false 80 CropNone false (Some "bmp"%string)
         ([] : list Z)).1 = Return v ->
      exists img kwargs, v = VBytes (b64encode (image_save img "PNG" kwargs))) /\
  image_process src (1024, 1024) false 80 CropNone false (Some "bmp"%string) ([] : list Z)
    = (Return (VBytes (list_byte_of_string "PNG")), []).
Proof.
  intros src img0.
  assert (Hspec : Some "bmp"%string <> Some ""%string) by discriminate.
  split; [repeat split; exact Hspec|].
  split; [reflexivity|].
  assert (Hdec : base64_to_image (Pix := unit) src = Return img0) by reflexivity.
  destruct (output_format_resolved src img0 "JPEG" (1024, 1024) false 80 CropNone false
              (Some "bmp"%string) ([] : list Z) eq_refl eq_refl Hdec eq_refl Hspec)
    as (effective & Hres & _ & Hbmp & _ & _ & _ & Hrun).
  assert (Heff : effective = "PNG"%string) by (apply Hbmp; reflexivity).
  subst effective.
  split; [exact Hres|]. split; [exact Hrun|]. vm_compute. reflexivity.
Defined.

(** ** The quality setting *)

Section Quality.
Context {Pix Rng : Type} `{!Pillow Pix} `{!RandomSource Rng} {Upper : StrUpper}.

Lemma encode_step_quality (img : image Pix) (fmt : string) (q1 q2 : Z) :
  fmt <> "JPEG"%string -> encode_step img fmt q1 = encode_step img fmt q2.
Proof.
  intros Hfmt. unfold encode_step.
  apply String.eqb_neq in Hfmt. rewrite Hfmt. reflexivity.
Qed.

(** On the JPEG branch the quality is among the keywords of [Image.save]. *)
Lemma encode_step_jpeg (img : image Pix) (quality : Z) :
  exists img',
    encode_step img "JPEG" quality =
      Return (VBytes (b64encode (image_save img' "JPEG"
                (<["quality" := PInt quality]> {[ "optimize" := PBool true ]})))).
Proof.
  unfold encode_step. simpl String.eqb. cbv iota.
  eexists. unfold image_to_base64.
  rewrite lookup_insert_ne by discriminate.
  rewrite lookup_insert_ne by discriminate.
  rewrite lookup_singleton_eq, bind_Return.
  reflexivity.
Qed.

(** C10. Whenever the format that [image_process] resolves is not JPEG, its
    result does not depend on [quality]: two runs on the same source, the
    same options and the same state of the random generator, differing only
    in [quality], return the same bytes (or fail alike). *)
Theorem quality_only_for_jpeg (src : source) (size : Z * Z) (verify_resolution : bool)
    (crop_opt : crop_arg) (colorize : bool) (fmt : option string) (g : Rng)
    (quality1 quality2 : Z) :
  (forall img, base64_to_image src = Return img ->
               resolve_format fmt (im_format img) <> Return "JPEG"%string) ->
  image_process src size verify_resolution quality1 crop_opt colorize fmt g
    = image_process src size verify_resolution quality2 crop_opt colorize fmt g.
Proof.
  intros Hfmt. unfold image_process.
  destruct (falsy_source src); [reflexivity|].
  destruct (svg_sniffed src); [reflexivity|].
  destruct (prepare src size verify_resolution crop_opt fmt) as [[img f]|e] eqn:Hprep;
    [|reflexivity].
  apply prepare_inv in Hprep as (img0 & Hdec & Hf).
  assert (Hne : f <> "JPEG"%string).
  { intros ->. exact (Hfmt img0 Hdec Hf). }
  destruct (if colorize then colorize_step img g else (Return img, g)) as [[img'|e] g'];
    cbn; [|reflexivity].
  rewrite (encode_step_quality img' f quality1 quality2 Hne). reflexivity.
Qed.

End Quality.

Lemma quality_only_for_jpeg_witness :
  let src := SrcBytes ["i"%byte] in
  (forall img, base64_to_image (Pix := unit) src = Return img ->
               resolve_format None (im_format img) <> Return "JPEG"%string) /\
  image_process src (500, 0) true 1 CropNone true None ([3; 4; 5] : list Z)
    = image_process src (500, 0) true 95 CropNone true None ([3; 4; 5] : list Z).
Proof.
  intros src.
  assert (H : forall img, base64_to_image (Pix := unit) src = Return img ->
                          resolve_format None (im_format img) <> Return "JPEG"%string).
  { intros img [= <-]. discriminate. }
  split; [exact H|].
  exact (quality_only_for_jpeg src (500, 0) true CropNone true None [3; 4; 5] 1 95 H).
Defined.

(** ** The random background *)

Lemma channel_values_spec (v : Z) :
  v ∈ channel_values <-> exists k, 0 <= k < 8 /\ v = 32 + 24 * k.
Proof.
  unfold channel_values. rewrite !elem_of_cons, elem_of_nil. split.
  - intros H. exists ((v - 32) / 24).
    repeat (destruct H as [->|H]; [split; [split|]; reflexivity || (vm_compute; congruence)|]).
    contradiction.
  - intros (k & Hk & ->).
    assert (k = 0 \/ k = 1 \/ k = 2 \/ k = 3 \/ k = 4 \/ k = 5 \/ k = 6 \/ k = 7) as Hc by lia.
    repeat (destruct Hc as [->|Hc]; [simpl; tauto|]). subst k. simpl. tauto.
Qed.

(** A channel is [32 + 24 * k] for a [k] drawn from [0 .. 7]. *)
Lemma randrange_channel {Rng} `{!RandomSource Rng} (g : Rng) :
  randrange 32 224 24 g = (32 + 24 * (randbelow 8 g).1, (randbelow 8 g).2) /\
  (randrange 32 224 24 g).1 ∈ channel_values.
Proof.
  unfold randrange. change ((224 - 32 + 24 - 1) / 24) with 8.
  pose proof (randbelow_range 8 g ltac:(lia)) as Hk.
  destruct (randbelow 8 g) as [k g']. simpl in *. split; [reflexivity|].
  apply channel_values_spec. eauto.
Qed.

Lemma colorize_step_draws {Pix Rng} `{!Pillow Pix} `{!RandomSource Rng}
    (original : image Pix) (g : Rng) :
  let d1 := randrange 32 224 24 g in
  let d2 := randrange 32 224 24 d1.2 in
  let d3 := randrange 32 224 24 d2.2 in
  colorize_step original g = (paste_on_color original (d1.1, d2.1, d3.1), d3.2).
Proof.
  intros d1 d2 d3. unfold colorize_step. subst d1 d2 d3.
  destruct (randrange 32 224 24 g) as [r g1]. simpl.
  destruct (randrange 32 224 24 g1) as [gr g2]. simpl.
  destruct (randrange 32 224 24 g2) as [b g3]. reflexivity.
Qed.

(** What the paste leaves when Pillow accepts the mask. *)
Lemma paste_on_color_inv {Pix} `{!Pillow Pix} (original img' : image Pix)
    (color : Z * Z * Z) :
  paste_on_color original color = Return img' ->
  im_mode img' = "RGB"%string /\ im_size img' = im_size original /\
  im_format img' = None /\ im_transparency img' = false /\
  px_paste_masked
    (px_paste_color (px_new "RGB" (im_size original)) color
       (0, 0, (im_size original).1, (im_size original).2))
    original original = Done (im_data img').
Proof.
  unfold paste_on_color.
  destruct (px_paste_masked _ _ _) as [data|message]; [|discriminate].
  intros [= <-]. repeat split.
Qed.

(** C6, as the code has it.  With [colorize=True], [image_process] draws the
    three channels of the background one after the other, each as
    [32 + 24 * k] for a [k] drawn from [0 .. 7]: each channel is one of
    [32, 56, 80, 104, 128, 152, 176, 200] (the bound 224 is not among them),
    and every triple of such values comes from exactly one triple of draws.
    It fills a canvas of the size of the original with that colour and pastes
    the original over it with the original itself as the mask.  Pillow can
    refuse that mask, and then [image_process] raises; when it accepts it, the
    result is an RGB image of the same size, without alpha channel or
    transparency. *)
Theorem colorize_background (Pix Rng : Type) (P : Pillow Pix) (R : RandomSource Rng)
    (U : StrUpper) (original : image Pix) (g : Rng) :
  (let d1 := randbelow 8 g in
   let d2 := randbelow 8 d1.2 in
   let d3 := randbelow 8 d2.2 in
   let color := (32 + 24 * d1.1, 32 + 24 * d2.1, 32 + 24 * d3.1) in
   colorize_step original g = (paste_on_color original color, d3.2) /\
   color.1.1 ∈ channel_values /\ color.1.2 ∈ channel_values /\ color.2 ∈ channel_values) /\
  (forall color img',
      paste_on_color original color = Return img' ->
      im_mode img' = "RGB"%string /\ im_size img' = im_size original /\
      im_transparency img' = false /\
      px_paste_masked
        (px_paste_color (px_new "RGB" (im_size original)) color
           (0, 0, (im_size original).1, (im_size original).2))
        original original = Done (im_data img')) /\
  (forall color message,
      px_paste_masked
        (px_paste_color (px_new "RGB" (im_size original)) color
           (0, 0, (im_size original).1, (im_size original).2))
        original original = Failed message ->
      paste_on_color original color = Raise (PillowError message)) /\
  (forall red green blue,
      red ∈ channel_values -> green ∈ channel_values -> blue ∈ channel_values ->
      exists k1 k2 k3,
        (0 <= k1 < 8 /\ 0 <= k2 < 8 /\ 0 <= k3 < 8) /\
        (colorize_step original [k1; k2; k3]).1 = paste_on_color original (red, green, blue) /\
        (forall j1 j2 j3,
           (32 + 24 * j1, 32 + 24 * j2, 32 + 24 * j3) = (red, green, blue) ->
           (j1, j2, j3) = (k1, k2, k3))) /\
  (forall src size verify_resolution quality crop_opt fmt img f,
      falsy_source src = false -> svg_sniffed src = false ->
      prepare src size verify_resolution crop_opt fmt = Return (img, f) ->
      image_process src size verify_resolution quality crop_opt true fmt g
        = (colored ← (colorize_step img g).1; encode_step colored f quality,
           (colorize_step img g).2)) /\
  randrange 32 224 24 g = (32 + 24 * (randbelow 8 g).1, (randbelow 8 g).2).
Proof.
  split; [|split; [|split; [|split; [|split; [|apply randrange_channel]]]]].
  - intros d1 d2 d3 color.
    pose proof (colorize_step_draws original g) as H. cbv zeta in H.
    destruct (randrange_channel g) as [E1 M1].
    destruct (randrange_channel (randbelow 8 g).2) as [E2 M2].
    destruct (randrange_channel (randbelow 8 (randbelow 8 g).2).2) as [E3 M3].
    rewrite E1 in H, M1. cbn [fst snd] in H, M1.
    rewrite E2 in H, M2. cbn [fst snd] in H, M2.
    rewrite E3 in H, M3. cbn [fst snd] in H, M3.
    split; [exact H|]. subst color d1 d2 d3. cbn [fst snd]. auto.
  - intros color img' Hret.
    destruct (paste_on_color_inv original img' color Hret) as (H1 & H2 & _ & H3 & H4). auto.
  - intros color message Hfail. unfold paste_on_color. rewrite Hfail. reflexivity.
  - intros red green blue Hr Hg Hb.
    apply channel_values_spec in Hr as (k1 & Hk1 & ->).
    apply channel_values_spec in Hg as (k2 & Hk2 & ->).
    apply channel_values_spec in Hb as (k3 & Hk3 & ->).
    exists k1, k2, k3. split; [auto|]. split.
    + pose proof (colorize_step_draws original [k1; k2; k3]) as H. cbv zeta in H. rewrite H.
      unfold randrange. change ((224 - 32 + 24 - 1) / 24) with 8. simpl.
      rewrite !Z.mod_small by lia. reflexivity.
    + intros j1 j2 j3 [= E1 E2 E3]. f_equal; [f_equal|]; lia.
  - intros src size verify quality crop_opt fmt img f Hne Hsvg Hprep.
    unfold image_process. rewrite Hne, Hsvg, Hprep.
    destruct (colorize_step img g) as [colored g']. reflexivity.
Qed.

Lemma colorize_background_witness :
  let original := Image (2000, 1000) "RGBA" (Some "PNG"%string) false tt in
  let img' := Image (2000, 1000) "RGB" None false tt in
  colorize_step original ([1; 2; 3] : list Z) = (Return img', []) /\
  paste_on_color original (56, 80, 104) = Return img' /\
  im_mode img' = "RGB"%string /\ im_size img' = im_size original /\
  im_transparency img' = false.
Proof.
  intros original img'.
  destruct (colorize_background unit (list Z) _ _ _ original [1; 2; 3])
    as (Hdraw & Hpaste & _).
  cbv zeta in Hdraw. destruct Hdraw as (Hstep & _).
  assert (Hret : paste_on_color original (56, 80, 104) = Return img') by reflexivity.
  destruct (Hpaste (56, 80, 104) img' Hret) as (Hm & Hs & Ht & _).
  split; [exact Hstep|]. split; [exact Hret|]. auto.
Defined.

(** C6 as stated fails: 224 belongs to the set of the specification, and no
    state of any generator makes [randrange(32, 224, 24)] return it. *)
Lemma channel_224_never_drawn :
  224 ∈ spec_channel_values /\
  ~ exists (Rng : Type) (R : RandomSource Rng) (g : Rng),
      (randrange 32 224 24 g).1 = 224.
Proof.
  split.
  - unfold spec_channel_values. rewrite !elem_of_cons. tauto.
  - intros (Rng & R & g & H).
    destruct (randrange_channel g) as [_ Hin]. rewrite H in Hin.
    apply channel_values_spec in Hin as (k & Hk & E). lia.
Qed.

(** * The rest of [image_process] and of the module *)

(** ** What is handed to [Image.save] *)

Section SaveCall.
Context {Pix Rng : Type} `{!Pillow Pix} `{!RandomSource Rng} {Upper : StrUpper}.

(** The image and the keywords of the call of [Image.save] at line 169. *)
Lemma encode_step_call (img : image Pix) (fmt : string) (quality : Z) :
  let img1 := if String.eqb fmt "PNG" then png_step img else img in
  let img2 :=
    if negb (string_in (im_mode img1) ["1"; "L"; "P"; "RGB"; "RGBA"])
       || (String.eqb fmt "JPEG" && String.eqb (im_mode img1) "RGBA")
    then convert "RGB" img1 else img1 in
  let kw0 : gmap string pyval :=
    if String.eqb fmt "PNG" then {[ "optimize" := PBool true ]} else ∅ in
  let kw1 :=
    if String.eqb fmt "JPEG"
    then <["quality" := PInt quality]> (<["optimize" := PBool true]> kw0) else kw0 in
  let kw2 := if String.eqb fmt "GIF" then <["optimize" := PBool true]> kw1 else kw1 in
  encode_step img fmt quality = Return (VBytes (b64encode (image_save img2 fmt kw2))).
Proof.
  unfold encode_step, image_to_base64.
  destruct (String.eqb fmt "PNG"), (String.eqb fmt "JPEG"), (String.eqb fmt "GIF");
    reflexivity.
Qed.

Lemma png_step_size (img : image Pix) : im_size (png_step img) = im_size img.
Proof.
  unfold png_step.
  destruct (string_in _ _ || _), (negb _); reflexivity.
Qed.

Lemma resolve_format_in (specified image_format : option string) (f : string) :
  resolve_format specified image_format = Return f -> f ∈ ["PNG"; "JPEG"; "GIF"]%string.
Proof.
  unfold resolve_format. intros H. apply bind_inv in H as (chosen & _ & H).
  cbv beta zeta in H.
  assert (Hf : f = if String.eqb (str_upper chosen) "BMP" then "PNG"%string
                   else if negb (string_in (str_upper chosen) ["PNG"; "JPEG"; "GIF"])
                        then "JPEG"%string else str_upper chosen) by congruence.
  rewrite Hf. clear H Hf.
  destruct (String.eqb (str_upper chosen) "BMP"); [list_member|].
  destruct (string_in (str_upper chosen) ["PNG"; "JPEG"; "GIF"]) eqn:Hin; cbv [negb].
  - apply string_in_elem. exact Hin.
  - list_member.
Qed.

(** A run that returns went through every step. *)
Lemma image_process_inv (src : source) (size : Z * Z) (verify : bool) (quality : Z)
    (crop_opt : crop_arg) (colorize : bool) (fmt : option string) (g : Rng) (v : value) :
  falsy_source src = false -> svg_sniffed src = false ->
  (image_process src size verify quality crop_opt colorize fmt g).1 = Return v ->
  exists img0 img1 img2 f,
    base64_to_image src = Return img0 /\
    check_resolution verify (im_size img0).1 (im_size img0).2 = Return tt /\
    resolve_format fmt (im_format img0) = Return f /\
    resize_step img0 size crop_opt = Return img1 /\
    (if colorize then (colorize_step img1 g).1 else Return img1) = Return img2 /\
    encode_step img2 f quality = Return v.
Proof.
  intros Hne Hsvg. unfold image_process. rewrite Hne, Hsvg. unfold prepare.
  destruct (base64_to_image src) as [img0|e] eqn:Hdec; [|discriminate].
  rewrite bind_Return.
  destruct (im_size img0) as [w h] eqn:Hsize.
  destruct (check_resolution verify w h) as [[]|e] eqn:Hchk; [|discriminate].
  rewrite bind_Return.
  destruct (resolve_format fmt (im_format img0)) as [f|e] eqn:Hf; [|discriminate].
  rewrite bind_Return.
  destruct (resize_step img0 size crop_opt) as [img1|e] eqn:Hres; [|discriminate].
  rewrite bind_Return. intros H.
  assert (Hcol : exists img2,
            (if colorize then (colorize_step img1 g).1 else Return img1) = Return img2 /\
            encode_step img2 f quality = Return v).
  { destruct colorize.
    - destruct (colorize_step img1 g) as [[img2|e] g']; cbn in H; [|discriminate].
      exists img2. split; [reflexivity|exact H].
    - exists img1. split; [reflexivity|exact H]. }
  destruct Hcol as (img2 & Hcol & Henc).
  exists img0, img1, img2, f.
  split; [reflexivity|]. split; [rewrite Hsize; exact Hchk|]. split; [exact Hf|].
  split; [exact Hres|]. split; [exact Hcol|exact Henc].
Qed.

Lemma colorize_step_size (img img' : image Pix) (g : Rng) :
  (colorize_step img g).1 = Return img' -> im_size img' = im_size img.
Proof.
  pose proof (colorize_step_draws img g) as H. cbv zeta in H. rewrite H. cbn [fst].
  intros Hret. apply paste_on_color_inv in Hret. tauto.
Qed.

(** Lines 166-167. *)
Lemma normalized_mode (img : image Pix) (f : string) :
  let img' :=
    if negb (string_in (im_mode img) ["1"; "L"; "P"; "RGB"; "RGBA"])
       || (String.eqb f "JPEG" && String.eqb (im_mode img) "RGBA")
    then convert "RGB" img else img in
  im_mode img' ∈ ["1"; "L"; "P"; "RGB"; "RGBA"]%string /\
  (f = "JPEG"%string -> im_mode img' <> "RGBA"%string) /\
  (f <> "JPEG"%string -> im_mode img ∈ ["1"; "L"; "P"; "RGB"; "RGBA"]%string ->
   img' = img).
Proof.
  intros img'. subst img'.
  destruct (string_in (im_mode img) ["1"; "L"; "P"; "RGB"; "RGBA"]) eqn:Hin.
  - apply string_in_elem in Hin.
    destruct (String.eqb_spec f "JPEG") as [Ej|Nj];
      [destruct (String.eqb_spec (im_mode img) "RGBA") as [Er|Nr]|].
    + cbn [negb orb andb convert im_mode]. split; [list_member|].
      split; [discriminate|]. intros Hc; contradiction.
    + cbn [negb orb andb]. split; [exact Hin|]. split; [intros _; exact Nr|].
      intros Hc; contradiction.
    + cbn [negb orb andb]. split; [exact Hin|]. split; [contradiction|reflexivity].
  - cbn [negb orb convert im_mode]. split; [list_member|]. split; [discriminate|].
    intros _ Hm. exfalso. apply string_in_elem in Hm. congruence.
Qed.

(** X1. The image that [image_process] saves has one of the modes
    [1, L, P, RGB, RGBA] (lines 166-167), is never [RGBA] when the format is
    JPEG, and the format is one of PNG, JPEG and GIF. *)
Theorem saved_image_mode (src : source) (size : Z * Z) (verify : bool) (quality : Z)
    (crop_opt : crop_arg) (colorize : bool) (fmt : option string) (g : Rng) (v : value) :
  falsy_source src = false -> svg_sniffed src = false ->
  (image_process src size verify quality crop_opt colorize fmt g).1 = Return v ->
  exists img f kwargs,
    v = VBytes (b64encode (image_save img f kwargs)) /\
    f ∈ ["PNG"; "JPEG"; "GIF"]%string /\
    im_mode img ∈ ["1"; "L"; "P"; "RGB"; "RGBA"]%string /\
    (f = "JPEG"%string -> im_mode img <> "RGBA"%string).
Proof.
  intros Hne Hsvg Hv.
  apply image_process_inv in Hv as (img0 & img1 & img2 & f & _ & _ & Hf & _ & _ & Henc);
    try assumption.
  apply resolve_format_in in Hf.
  pose proof (encode_step_call img2 f quality) as Hcall. cbv zeta in Hcall.
  set (img3 := if String.eqb f "PNG" then png_step img2 else img2) in *.
  pose proof (normalized_mode img3 f) as (H1 & H2 & _).
  set (img4 := if negb (string_in (im_mode img3) ["1"; "L"; "P"; "RGB"; "RGBA"])
                  || (String.eqb f "JPEG" && String.eqb (im_mode img3) "RGBA")
               then convert "RGB" img3 else img3) in *.
  rewrite Hcall in Henc. injection Henc as <-.
  exists img4, f. eexists. split; [reflexivity|]. split; [exact Hf|].
  split; [exact H1|exact H2].
Qed.

(** X2. Every call of [Image.save] asks for [optimize=True]; [quality] is
    passed exactly when the format is JPEG; no other keyword is passed. *)
Theorem saved_keywords (src : source) (size : Z * Z) (verify : bool) (quality : Z)
    (crop_opt : crop_arg) (colorize : bool) (fmt : option string) (g : Rng) (v : value) :
  falsy_source src = false -> svg_sniffed src = false ->
  (image_process src size verify quality crop_opt colorize fmt g).1 = Return v ->
  exists img f kwargs,
    v = VBytes (b64encode (image_save img f kwargs)) /\
    kwargs !! "optimize"%string = Some (PBool true) /\
    kwargs !! "quality"%string
      = (if decide (f = "JPEG"%string) then Some (PInt quality) else None) /\
    (forall key, key <> "optimize"%string -> key <> "quality"%string -> kwargs !! key = None).
Proof.
  intros Hne Hsvg Hv.
  apply image_process_inv in Hv as (img0 & img1 & img2 & f & _ & _ & Hf & _ & _ & Henc);
    try assumption.
  apply resolve_format_in in Hf.
  pose proof (encode_step_call img2 f quality) as Hcall. cbv zeta in Hcall.
  rewrite Hcall in Henc. injection Henc as <-.
  do 3 eexists. split; [reflexivity|].
  rewrite !elem_of_cons, elem_of_nil in Hf.
  destruct Hf as [->|[->|[->|[]]]]; simpl;
    (split; [reflexivity|]); (split; [reflexivity|]);
    intros key H1 H2; by simplify_map_eq.
Qed.

(** Colorize, the PNG step and the mode conversion keep the size. *)
Lemma image_process_saves (src : source) (img0 : image Pix) (size : Z * Z) (verify : bool)
    (quality : Z) (crop_opt : crop_arg) (colorize : bool) (fmt : option string) (g : Rng)
    (v : value) :
  falsy_source src = false -> svg_sniffed src = false ->
  base64_to_image src = Return img0 ->
  (image_process src size verify quality crop_opt colorize fmt g).1 = Return v ->
  exists img1 img f kwargs,
    check_resolution verify (im_size img0).1 (im_size img0).2 = Return tt /\
    resize_step img0 size crop_opt = Return img1 /\
    v = VBytes (b64encode (image_save img f kwargs)) /\
    im_size img = im_size img1.
Proof.
  intros Hne Hsvg Hdec Hv.
  apply image_process_inv in Hv
    as (img0' & img1 & img2 & f & Hdec' & Hchk & _ & Hres & Hcol & Henc); try assumption.
  rewrite Hdec in Hdec'. injection Hdec' as <-.
  assert (H2 : im_size img2 = im_size img1).
  { destruct colorize; [exact (colorize_step_size _ _ _ Hcol)|].
    injection Hcol as <-. reflexivity. }
  pose proof (encode_step_call img2 f quality) as Hcall. cbv zeta in Hcall.
  set (img3 := if String.eqb f "PNG" then png_step img2 else img2) in *.
  assert (H3 : im_size img3 = im_size img2).
  { subst img3. destruct (String.eqb f "PNG"); [apply png_step_size|reflexivity]. }
  set (img4 := if negb (string_in (im_mode img3) ["1"; "L"; "P"; "RGB"; "RGBA"])
                  || (String.eqb f "JPEG" && String.eqb (im_mode img3) "RGBA")
               then convert "RGB" img3 else img3) in *.
  assert (H4 : im_size img4 = im_size img1).
  { subst img4. destruct (_ || _); simpl; congruence. }
  rewrite Hcall in Henc. injection Henc as <-.
  exists img1, img4, f. eexists. split; [exact Hchk|]. split; [exact Hres|].
  split; [reflexivity|exact H4].
Qed.

(** X3. Nothing after the resize changes the size of the image: the image
    saved has the size the resize step left, and with [size = (0, 0)] the size
    of the decoded image. *)
Theorem saved_image_size (src : source) (img0 : image Pix) (size : Z * Z) (verify : bool)
    (quality : Z) (crop_opt : crop_arg) (colorize : bool) (fmt : option string) (g : Rng)
    (v : value) :
  falsy_source src = false -> svg_sniffed src = false ->
  base64_to_image src = Return img0 ->
  (image_process src size verify quality crop_opt colorize fmt g).1 = Return v ->
  exists img1 img f kwargs,
    resize_step img0 size crop_opt = Return img1 /\
    v = VBytes (b64encode (image_save img f kwargs)) /\
    im_size img = im_size img1 /\
    (size = (0, 0) -> im_size img = im_size img0).
Proof.
  intros Hne Hsvg Hdec Hv.
  destruct (image_process_saves src img0 size verify quality crop_opt colorize fmt g v
              Hne Hsvg Hdec Hv) as (img1 & img & f & kwargs & _ & Hres & Hsave & Hsz).
  exists img1, img, f, kwargs. do 3 (split; [assumption|]).
  intros ->. rewrite Hsz. unfold resize_step in Hres. simpl in Hres.
  injection Hres as <-. reflexivity.
Qed.

(** X4. Without [colorize] the random generator is neither read nor moved. *)
Theorem no_draw_without_colorize (src : source) (size : Z * Z) (verify : bool)
    (quality : Z) (crop_opt : crop_arg) (fmt : option string) (g g' : Rng) :
  (image_process src size verify quality crop_opt false fmt g).2 = g /\
  (image_process src size verify quality crop_opt false fmt g).1
    = (image_process src size verify quality crop_opt false fmt g').1.
Proof.
  unfold image_process.
  destruct (falsy_source src); [split; reflexivity|].
  destruct (svg_sniffed src); [split; reflexivity|].
  destruct (prepare src size verify crop_opt fmt) as [[img f]|e]; split; reflexivity.
Qed.

End SaveCall.

Lemma saved_image_mode_witness :
  let src := SrcBytes ["i"%byte] in
  let v := VBytes (list_byte_of_string "JPEG") in
  (falsy_source src = false /\ svg_sniffed src = false /\
   (image_process (Pix := unit) src (0, 0) false 80 CropNone false (Some "jpeg"%string)
      ([] : list Z)).1 = Return v) /\
  exists (img : image unit) f kwargs,
    v = VBytes (b64encode (image_save img f kwargs)) /\
    f ∈ ["PNG"; "JPEG"; "GIF"]%string /\
    im_mode img ∈ ["1"; "L"; "P"; "RGB"; "RGBA"]%string /\
    (f = "JPEG"%string -> im_mode img <> "RGBA"%string).
Proof.
  intros src v. split; [repeat split|].
  exact (saved_image_mode (Pix := unit) src (0, 0) false 80 CropNone false
           (Some "jpeg"%string) ([] : list Z) v eq_refl eq_refl eq_refl).
Defined.

Lemma saved_keywords_witness :
  let src := SrcBytes ["/"%byte] in
  let v := VBytes (list_byte_of_string "JPEG") in
  (falsy_source src = false /\ svg_sniffed src = false /\
   (image_process (Pix := unit) src (64, 64) false 70 CropNone false None ([] : list Z)).1
     = Return v) /\
  exists (img : image unit) f kwargs,
    v = VBytes (b64encode (image_save img f kwargs)) /\
    kwargs !! "optimize"%string = Some (PBool true) /\
    kwargs !! "quality"%string
      = (if decide (f = "JPEG"%string) then Some (PInt 70) else None) /\
    (forall key, key <> "optimize"%string -> key <> "quality"%string -> kwargs !! key = None).
Proof.
  intros src v. split; [repeat split|].
  exact (saved_keywords (Pix := unit) src (64, 64) false 70 CropNone false None
           ([] : list Z) v eq_refl eq_refl eq_refl).
Defined.

Lemma saved_image_size_witness :
  let src := SrcBytes ["i"%byte] in
  let img0 := Image (2000, 1000) "RGBA" (Some "PNG"%string) false tt in
  let v := VBytes (list_byte_of_string "JPEG") in
  (falsy_source src = false /\ svg_sniffed src = false /\
   base64_to_image src = Return img0 /\
   (image_process src (0, 0) false 80 CropNone true (Some "jpeg"%string) [1; 2; 3]).1
     = Return v) /\
  exists img1 (img : image unit) f kwargs,
    resize_step img0 (0, 0) CropNone = Return img1 /\
    v = VBytes (b64encode (image_save img f kwargs)) /\
    im_size img = im_size img1 /\
    ((0, 0) = (0, 0) -> im_size img = im_size img0).
Proof.
  intros src img0 v. split; [repeat split|].
  exact (saved_image_size src img0 (0, 0) false 80 CropNone true (Some "jpeg"%string)
           [1; 2; 3] v eq_refl eq_refl eq_refl eq_refl).
Defined.

(** ** Crop and resize together *)

Lemma py_round_between (q : Q) (a b : Z) :
  (inject_Z a <= q)%Q -> (q <= inject_Z b)%Q -> a <= py_round q <= b.
Proof.
  intros Ha Hb. unfold py_round.
  assert (Hfa : a <= Qfloor q).
  { rewrite <- (Qfloor_Z a). apply Qfloor_resp_le. exact Ha. }
  assert (Hfb : Qfloor q <= b).
  { rewrite <- (Qfloor_Z b). apply Qfloor_resp_le. exact Hb. }
  pose proof (Qfloor_le q) as Hfl.
  destruct (Z.eq_dec (Qfloor q) b) as [E|NE].
  - assert (Hz : (q - inject_Z (Qfloor q) == 0)%Q).
    { rewrite E in *.
      assert (Hq : (q == inject_Z b)%Q) by (apply Qle_antisym; assumption).
      rewrite Hq. ring. }
    rewrite Hz. simpl. lia.
  - destruct (Qcompare _ _); [destruct (Z.even _)|..]; lia.
Qed.

(** The clamps keep a window that is not negative. *)
Lemma clamp_window_nonneg (w h : Z) (window r : Z * Z) :
  0 < w -> 0 < h -> 0 <= window.1 -> 0 <= window.2 ->
  clamp_window w h window = Return r -> 0 <= r.1 /\ 0 <= r.2.
Proof.
  destruct window as [nw nh]. simpl. intros Hw Hh Hnw Hnh.
  unfold clamp_window. simpl.
  destruct (Z.gtb_spec nw w) as [Hgt|Hle].
  - rewrite py_floordiv_ok by lia. simpl.
    assert (0 <= nh * w / nw) by (apply Z.div_pos; nia).
    destruct (Z.gtb_spec (nh * w / nw) h) as [Hgt'|Hle'].
    + rewrite py_floordiv_ok by lia. simpl. intros [= <-]. simpl.
      split; [apply Z.div_pos; nia|lia].
    + intros [= <-]. simpl. lia.
  - simpl. destruct (Z.gtb_spec nh h) as [Hgt'|Hle'].
    + rewrite py_floordiv_ok by lia. simpl. intros [= <-]. simpl.
      split; [apply Z.div_pos; nia|lia].
    + intros [= <-]. simpl. lia.
Qed.

Lemma crop_window_returns (w h aw ah : Z) :
  0 < w < 2 ^ 1023 -> 0 < h < 2 ^ 1023 -> 0 < aw -> 0 < ah ->
  exists nw nh, crop_window w h aw ah = Return (nw, nh).
Proof.
  intros Hw Hh Haw Hah. unfold crop_window.
  rewrite crop_branch_total by lia. rewrite bind_Return.
  destruct (branch_window_spec w h aw ah
              (Binary64.round_pos (w * 2 ^ Binary64.tiny) aw >?
               Binary64.round_pos (h * 2 ^ Binary64.tiny) ah)
              ltac:(lia) ltac:(lia) Haw Hah) as (win & -> & H1 & H2 & H3).
  rewrite bind_Return.
  destruct (clamp_window_spec w h win ltac:(lia) ltac:(lia) H1 H2 H3) as ([nw nh] & Hr & _).
  eauto.
Qed.

Lemma crop_window_bounds (w h aw ah nw nh : Z) :
  0 < w -> 0 < h -> 0 < aw -> 0 < ah ->
  crop_window w h aw ah = Return (nw, nh) -> 0 <= nw <= w /\ 0 <= nh <= h.
Proof.
  intros Hw Hh Haw Hah H. unfold crop_window in H.
  apply bind_inv in H as (wider & _ & H). cbv beta in H.
  destruct (branch_window_spec w h aw ah wider Hw Hh Haw Hah) as (win & Hwin & H1 & H2 & H3).
  rewrite Hwin, bind_Return in H.
  destruct (clamp_window_spec w h win Hw Hh H1 H2 H3) as (r & Hr & Hin).
  pose proof (clamp_window_nonneg w h win (nw, nh) Hw Hh H1 H2 H) as Hn.
  rewrite Hr in H. injection H as ->. simpl in *. lia.
Qed.

(** X5. The box handed to [image.crop] (lines 128-139) lies inside the image,
    has the size of the crop window and is centred horizontally; [top] keeps
    the top edge, [bottom] the bottom edge, anything else centres it
    vertically. *)
Theorem crop_box_placement (w h asked_width asked_height new_w new_h : Z) (crop_opt : crop_arg) :
  0 < w -> 0 < h -> 0 < asked_width -> 0 < asked_height ->
  crop_window w h asked_width asked_height = Return (new_w, new_h) ->
  let '(x0, y0, x1, y1) := crop_box w h new_w new_h crop_opt in
  (0 <= x0 /\ x1 <= inject_Z w /\ 0 <= y0 /\ y1 <= inject_Z h)%Q /\
  (x1 - x0 == inject_Z new_w /\ y1 - y0 == inject_Z new_h)%Q /\
  (x0 + x1 == inject_Z w)%Q /\
  (crop_opt = CropStr "top" -> y0 == 0)%Q /\
  (crop_opt = CropStr "bottom" -> y1 == inject_Z h)%Q /\
  (crop_opt <> CropStr "top" -> crop_opt <> CropStr "bottom" -> y0 + y1 == inject_Z h)%Q.
Proof.
  intros Hw Hh Haw Hah Hwin.
  pose proof (crop_window_bounds w h asked_width asked_height new_w new_h Hw Hh Haw Hah Hwin)
    as [Hnw Hnh].
  unfold crop_box, crop_offsets, center_x.
  assert (Hcy : center_y crop_opt = 0%Q /\ crop_opt = CropStr "top" \/
                center_y crop_opt = 1%Q /\ crop_opt = CropStr "bottom" \/
                center_y crop_opt = (1 # 2)%Q /\ crop_opt <> CropStr "top"
                  /\ crop_opt <> CropStr "bottom").
  { destruct crop_opt as [|b|s]; try (right; right; repeat split; discriminate).
    destruct (String.eqb_spec s "top") as [->|Nt]; [left; split; reflexivity|].
    destruct (String.eqb_spec s "bottom") as [->|Nb]; [right; left; split; reflexivity|].
    right; right. split; [|split; congruence].
    unfold center_y.
    repeat match goal with
           | |- context [match ?x with _ => _ end] => destruct x; try reflexivity; try congruence
           end. }
  destruct Hcy as [[-> Hc]|[[-> Hc]|[-> [Hc1 Hc2]]]];
    unfold Qle, Qeq; simpl; repeat split; try lia; try congruence; intros; try lia;
    try congruence.
Qed.

Lemma thumbnail_size_box (x y s0 s1 : Z) :
  0 <= x -> 0 <= y -> 1 <= s0 -> 1 <= s1 ->
  let r := thumbnail_size (x, y) (s0, s1) in
  r.1 <= s0 /\ r.2 <= s1 /\ r.1 <= Z.max x 1 /\ r.2 <= Z.max y 1.
Proof.
  intros Hx Hy Hs0 Hs1. unfold thumbnail_size. simpl.
  destruct (Z.gtb_spec x s0) as [Hgt|Hle].
  - assert (Hy1 : y * s0 / x <= y) by (apply Z.div_le_upper_bound; nia).
    assert (Hy0 : 0 <= y * s0 / x) by (apply Z.div_pos; nia).
    destruct (Z.gtb_spec (Z.max (y * s0 / x) 1) s1) as [Hgt'|Hle']; simpl; [|lia].
    assert (s0 * s1 / Z.max (y * s0 / x) 1 <= s0) by (apply Z.div_le_upper_bound; nia).
    lia.
  - destruct (Z.gtb_spec y s1) as [Hgt'|Hle']; simpl; [|lia].
    assert (x * s1 / y <= x) by (apply Z.div_le_upper_bound; nia).
    lia.
Qed.

(** The thumbnail leaves the size alone exactly when the image fits. *)
Lemma thumbnail_size_unchanged (x y s0 s1 : Z) :
  1 <= x -> 1 <= y -> 1 <= s0 -> 1 <= s1 ->
  thumbnail_size (x, y) (s0, s1) = (x, y) <-> x <= s0 /\ y <= s1.
Proof.
  intros Hx Hy Hs0 Hs1. split; [|intros [? ?]; apply thumbnail_size_fits; assumption].
  pose proof (thumbnail_size_box x y s0 s1 ltac:(lia) ltac:(lia) Hs0 Hs1) as Hb.
  cbv zeta in Hb. intros E. rewrite E in Hb. simpl in Hb. lia.
Qed.

Lemma cropped_size_within (w h new_w new_h : Z) (crop_opt : crop_arg) :
  0 <= new_w <= w -> 0 <= new_h <= h ->
  let r := cropped_size (crop_box w h new_w new_h crop_opt) in
  0 <= r.1 <= w /\ 0 <= r.2 <= h.
Proof.
  intros Hnw Hnh. unfold cropped_size, box_pixels, crop_box, crop_offsets, center_x.
  set (x0 := (inject_Z (w - new_w) * (1 # 2))%Q).
  set (y0 := (inject_Z (h - new_h) * center_y crop_opt)%Q).
  assert (Hx0 : (inject_Z 0 <= x0)%Q /\ (x0 + inject_Z new_w <= inject_Z w)%Q).
  { subst x0. unfold Qle. simpl. lia. }
  assert (Hy0 : (inject_Z 0 <= y0)%Q /\ (y0 + inject_Z new_h <= inject_Z h)%Q).
  { subst y0.
    assert (Hc : center_y crop_opt = 0%Q \/ center_y crop_opt = 1%Q
                 \/ center_y crop_opt = (1 # 2)%Q).
    { unfold center_y.
      repeat match goal with
             | |- context [match ?x with _ => _ end] => destruct x; auto
             end. }
    destruct Hc as [-> |[-> | ->]]; unfold Qle; simpl; lia. }
  assert (Hx0' : (inject_Z 0 <= x0 + inject_Z new_w)%Q /\ (x0 <= inject_Z w)%Q).
  { destruct Hx0 as [A B]. revert A B. unfold Qle. subst x0. simpl. lia. }
  assert (Hy0' : (inject_Z 0 <= y0 + inject_Z new_h)%Q /\ (y0 <= inject_Z h)%Q).
  { destruct Hy0 as [A B]. split.
    - apply Qle_trans with (y := y0); [exact A|].
      rewrite <- (Qplus_0_r y0) at 1. apply Qplus_le_r. unfold Qle. simpl. lia.
    - apply Qle_trans with (y := (y0 + inject_Z new_h)%Q); [|exact B].
      rewrite <- (Qplus_0_r y0) at 1. apply Qplus_le_r. unfold Qle. simpl. lia. }
  pose proof (py_round_between x0 0 w (proj1 Hx0) (proj2 Hx0')).
  pose proof (py_round_between (x0 + inject_Z new_w) 0 w (proj1 Hx0') (proj2 Hx0)).
  pose proof (py_round_between y0 0 h (proj1 Hy0) (proj2 Hy0')).
  pose proof (py_round_between (y0 + inject_Z new_h) 0 h (proj1 Hy0') (proj2 Hy0)).
  simpl. lia.
Qed.

(** With asked sides of at least 1 the thumbnail keeps the size or has no
    empty side. *)
Lemma thumbnail_size_fine (x y s0 s1 : Z) :
  0 <= x -> 0 <= y -> 1 <= s0 -> 1 <= s1 ->
  thumbnail_size (x, y) (s0, s1) = (x, y) \/
  empty_size (thumbnail_size (x, y) (s0, s1)) = false.
Proof.
  intros Hx Hy Hs0 Hs1. unfold thumbnail_size, empty_size. simpl.
  generalize (y * s0 / x). intros q.
  destruct (Z.gtb_spec x s0);
    [destruct (Z.gtb_spec (Z.max q 1) s1)|destruct (Z.gtb_spec y s1)]; simpl.
  - right. apply orb_false_iff; split; apply Z.leb_gt; lia.
  - right. apply orb_false_iff; split; apply Z.leb_gt; lia.
  - right. apply orb_false_iff; split; apply Z.leb_gt; lia.
  - left. reflexivity.
Qed.

Section ResizeMore.
Context {Pix Rng : Type} `{!Pillow Pix} `{!RandomSource Rng} {Upper : StrUpper}.

Lemma thumbnail_returns_or (img : image Pix) (size : Z * Z) :
  thumbnail_size (im_size img) size = im_size img \/
  empty_size (thumbnail_size (im_size img) size) = false ->
  exists img', thumbnail img size = Return img'.
Proof.
  intros [Hsame|Hfine]; [|apply thumbnail_returns; exact Hfine].
  unfold thumbnail. rewrite decide_True by exact Hsame. eauto.
Qed.

(** X6. With both components of [size] positive, the crop and the resize of
    an image with sides below [2^1023] never raise, whatever the crop option,
    and the result fits the asked size and the original. *)
Theorem resize_fits_asked_size (img : image Pix) (w h sw sh : Z) (crop_opt : crop_arg) :
  im_size img = (w, h) -> 0 < w < 2 ^ 1023 -> 0 < h < 2 ^ 1023 -> 0 < sw -> 0 < sh ->
  exists img',
    resize_step img (sw, sh) crop_opt = Return img' /\
    (im_size img').1 <= sw /\ (im_size img').2 <= sh /\
    (im_size img').1 <= w /\ (im_size img').2 <= h.
Proof.
  intros Hsize Hw Hh Hsw Hsh. unfold resize_step. simpl fst. simpl snd.
  destruct (Z.eqb_spec sw 0) as [|_]; [lia|]. simpl orb. cbv iota.
  rewrite Hsize. unfold asked_size. simpl fst. simpl snd.
  destruct (Z.eqb_spec sw 0) as [|_]; [lia|]. destruct (Z.eqb_spec sh 0) as [|_]; [lia|].
  rewrite !bind_Return.
  destruct (truthy_crop crop_opt).
  - destruct (crop_window_returns w h sw sh Hw Hh Hsw Hsh) as (nw & nh & Hwin).
    pose proof (crop_window_bounds w h sw sh nw nh ltac:(lia) ltac:(lia) Hsw Hsh Hwin)
      as [Hnw Hnh].
    rewrite Hwin, !bind_Return.
    pose proof (cropped_size_within w h nw nh crop_opt Hnw Hnh) as Hc. cbv zeta in Hc.
    set (cropped := crop img (crop_box w h nw nh crop_opt)).
    assert (Hcs : im_size cropped = cropped_size (crop_box w h nw nh crop_opt))
      by reflexivity.
    destruct (cropped_size (crop_box w h nw nh crop_opt)) as [cw ch]. simpl in Hc.
    destruct (thumbnail_returns_or cropped (sw, sh)) as (img' & Hret).
    { rewrite Hcs. apply thumbnail_size_fine; lia. }
    exists img'. split; [exact Hret|].
    rewrite (thumbnail_size_eq _ _ _ Hret), Hcs.
    pose proof (thumbnail_size_box cw ch sw sh ltac:(lia) ltac:(lia) ltac:(lia) ltac:(lia))
      as Hb. cbv zeta in Hb. lia.
  - rewrite bind_Return.
    destruct (thumbnail_returns_or img (sw, sh)) as (img' & Hret).
    { rewrite Hsize. apply thumbnail_size_fine; lia. }
    exists img'. split; [exact Hret|].
    rewrite (thumbnail_size_eq _ _ _ Hret), Hsize.
    pose proof (thumbnail_size_box w h sw sh ltac:(lia) ltac:(lia) ltac:(lia) ltac:(lia))
      as Hb. cbv zeta in Hb. lia.
Qed.

(** X7. Cropping with only one side of [size] given divides by zero when the
    side derived for the other rounds down to zero (lines 109-117). *)
Theorem crop_with_one_side_zero_division (img : image Pix) (w h sw sh : Z)
    (crop_opt : crop_arg) :
  im_size img = (w, h) -> 0 < w -> 0 < h -> truthy_crop crop_opt = true ->
  (0 < sw /\ sh = 0 /\ h * sw < w /\ w < 2 ^ 1023) \/ (sw = 0 /\ 0 < sh /\ w * sh < h) ->
  resize_step img (sw, sh) crop_opt = Raise ZeroDivisionError.
Proof.
  intros Hsize Hw Hh Hcrop Hcase. unfold resize_step. simpl fst. simpl snd.
  assert (Hnz : negb (sw =? 0) || negb (sh =? 0) = true).
  { destruct Hcase as [(? & ? & _)|(? & ? & _)];
      destruct (Z.eqb_spec sw 0), (Z.eqb_spec sh 0); try reflexivity; lia. }
  rewrite Hnz, Hsize. rewrite asked_size_one_zero by lia. rewrite bind_Return, Hcrop.
  unfold crop_window, crop_branch.
  destruct Hcase as [(Hsw & -> & Hsmall & Hwb)|(-> & Hsh & Hsmall)].
  - destruct (Z.eqb_spec sw 0) as [|_]; [lia|]. simpl (0 =? 0). cbv iota.
    rewrite (py_truediv_pos w sw) by lia. rewrite bind_Return.
    rewrite (Z.div_small (h * sw) w) by nia. reflexivity.
  - simpl (0 =? 0). cbv iota. rewrite (Z.div_small (w * sh) h) by nia. reflexivity.
Qed.

(** X8. [is_image_size_above] is [False] for an empty or SVG source; on an
    image it says whether the resize of [image_process] to that size (both
    sides positive, no crop) changes the image. *)
Theorem is_image_size_above_resize (src : source) (img : image Pix) (w h sw sh : Z) :
  (falsy_source src = true \/ svg_sniffed src = true ->
   is_image_size_above src (sw, sh) = Return false) /\
  (falsy_source src = false -> svg_sniffed src = false ->
   base64_to_image src = Return img -> im_size img = (w, h) ->
   0 < w -> 0 < h -> 0 < sw -> 0 < sh ->
   is_image_size_above src (sw, sh) = Return ((w >? sw) || (h >? sh)) /\
   (is_image_size_above src (sw, sh) = Return false <->
    resize_step img (sw, sh) CropNone = Return img)).
Proof.
  split.
  - intros [H|H]; unfold is_image_size_above; rewrite H; [reflexivity|].
    destruct (falsy_source src); reflexivity.
  - intros Hne Hsvg Hdec Hsize Hw Hh Hsw Hsh.
    assert (Habove : is_image_size_above src (sw, sh) = Return ((w >? sw) || (h >? sh))).
    { unfold is_image_size_above. rewrite Hne, Hsvg, Hdec, bind_Return, Hsize. reflexivity. }
    split; [exact Habove|]. rewrite Habove.
    assert (Hres : resize_step img (sw, sh) CropNone = thumbnail img (sw, sh)).
    { unfold resize_step. simpl fst. simpl snd.
      destruct (Z.eqb_spec sw 0) as [|_]; [lia|]. simpl orb. cbv iota.
      rewrite Hsize. unfold asked_size. simpl fst. simpl snd.
      destruct (Z.eqb_spec sw 0) as [|_]; [lia|]. destruct (Z.eqb_spec sh 0) as [|_]; [lia|].
      reflexivity. }
    rewrite Hres.
    pose proof (thumbnail_size_unchanged w h sw sh ltac:(lia) ltac:(lia) ltac:(lia) ltac:(lia))
      as Hiff.
    split.
    + intros [= Hb]. apply orb_false_iff in Hb as [H1 H2].
      apply thumbnail_fits; rewrite Hsize; simpl.
      * destruct (Z.gtb_spec w sw); [discriminate|lia].
      * destruct (Z.gtb_spec h sh); [discriminate|lia].
    + intros Heq.
      assert (Hs : thumbnail_size (w, h) (sw, sh) = (w, h)).
      { apply thumbnail_size_eq in Heq. rewrite Hsize in Heq. symmetry. exact Heq. }
      apply Hiff in Hs as [H1 H2]. f_equal.
      destruct (Z.gtb_spec w sw), (Z.gtb_spec h sh); try reflexivity; lia.
Qed.

(** X9. When [image_optimize_for_web] returns, the image has at most
    45,000,000 pixels; it is saved with its own size when [max_width] is [0] or
    not below its width, and with width [max_width] and height
    [(h * max_width) // w] when [max_width] is below its width (and that
    height is not zero). *)
Theorem image_optimize_for_web_size (src : source) (img0 : image Pix) (w h max_width : Z)
    (quality : Z) (g : Rng) (v : value) :
  falsy_source src = false -> svg_sniffed src = false ->
  base64_to_image src = Return img0 -> im_size img0 = (w, h) -> 0 < w -> 0 < h ->
  0 <= max_width ->
  (image_optimize_for_web src max_width quality g).1 = Return v ->
  w * h <= 45000000 /\
  exists img f kwargs,
    v = VBytes (b64encode (image_save img f kwargs)) /\
    (max_width = 0 \/ w <= max_width -> im_size img = (w, h)) /\
    (0 < max_width < w -> w <= h * max_width ->
     im_size img = (max_width, (h * max_width) / w)).
Proof.
  intros Hne Hsvg Hdec Hsize Hw Hh Hmw Hv. unfold image_optimize_for_web in Hv.
  destruct (image_process_saves src img0 (max_width, 0) true quality CropNone false None g v
              Hne Hsvg Hdec Hv) as (img1 & img & f & kwargs & Hchk & Hres & Hsave & Hsz).
  rewrite Hsize in Hchk. simpl in Hchk. rewrite check_resolution_spec in Hchk.
  split.
  { destruct (Z.gtb_spec (w * h) 45000000); [discriminate|lia]. }
  exists img, f, kwargs. split; [exact Hsave|]. rewrite Hsz.
  unfold resize_step in Hres. simpl fst in Hres. simpl snd in Hres.
  destruct (Z.eqb_spec max_width 0) as [E0|N0].
  - simpl in Hres. injection Hres as <-. split; [intros _; exact Hsize|lia].
  - simpl orb in Hres. cbv iota in Hres. rewrite Hsize in Hres.
    rewrite asked_size_one_zero in Hres by lia.
    rewrite bind_Return in Hres. simpl truthy_crop in Hres. cbv iota in Hres.
    rewrite bind_Return in Hres.
    destruct (Z.eqb_spec max_width 0) as [|_]; [contradiction|].
    simpl (0 =? 0) in Hres. cbv iota in Hres.
    rewrite (thumbnail_size_eq _ _ _ Hres), Hsize. split.
    + intros [?|Hbig]; [contradiction|]. apply thumbnail_size_fits; [lia|].
      apply Z.div_le_lower_bound; nia.
    + intros Hlt Hnz. unfold thumbnail_size. simpl fst. simpl snd.
      assert (HA : 1 <= h * max_width / w) by (apply Z.div_le_lower_bound; lia).
      destruct (Z.gtb_spec w max_width) as [_|]; [|lia].
      rewrite Z.max_l by lia.
      destruct (Z.gtb_spec (h * max_width / w) (h * max_width / w)); [lia|reflexivity].
Qed.

End ResizeMore.

Lemma crop_box_placement_witness :
  (0 < 300 /\ 0 < 100 /\ 0 < 200 /\ 0 < 200 /\
   crop_window 300 100 200 200 = Return (100, 100)) /\
  let '(x0, y0, x1, y1) := crop_box 300 100 100 100 (CropStr "bottom") in
  (0 <= x0 /\ x1 <= inject_Z 300 /\ 0 <= y0 /\ y1 <= inject_Z 100)%Q /\
  (x1 - x0 == inject_Z 100 /\ y1 - y0 == inject_Z 100)%Q /\
  (x0 + x1 == inject_Z 300)%Q /\
  (CropStr "bottom" = CropStr "top" -> y0 == 0)%Q /\
  (CropStr "bottom" = CropStr "bottom" -> y1 == inject_Z 100)%Q /\
  (CropStr "bottom" <> CropStr "top" -> CropStr "bottom" <> CropStr "bottom" ->
   y0 + y1 == inject_Z 100)%Q.
Proof.
  assert (Hwin : crop_window 300 100 200 200 = Return (100, 100))
    by (vm_compute; reflexivity).
  split; [repeat split; try lia; exact Hwin|].
  exact (crop_box_placement 300 100 200 200 100 100 (CropStr "bottom")
           eq_refl eq_refl eq_refl eq_refl Hwin).
Defined.

Lemma resize_fits_asked_size_witness :
  let img := Image (300, 100) "RGB" (Some "JPEG"%string) false tt in
  (im_size img = (300, 100) /\ 0 < 300 < 2 ^ 1023 /\ 0 < 100 < 2 ^ 1023 /\
   0 < 200 /\ 0 < 200) /\
  exists img',
    resize_step img (200, 200) (CropStr "top") = Return img' /\
    (im_size img').1 <= 200 /\ (im_size img').2 <= 200 /\
    (im_size img').1 <= 300 /\ (im_size img').2 <= 100.
Proof.
  intros img.
  assert (H300 : 0 < 300 < 2 ^ 1023) by (split; reflexivity).
  assert (H100 : 0 < 100 < 2 ^ 1023) by (split; reflexivity).
  split; [repeat split; reflexivity|].
  exact (resize_fits_asked_size img 300 100 200 200 (CropStr "top")
           eq_refl H300 H100 eq_refl eq_refl).
Defined.

Lemma crop_with_one_side_zero_division_witness :
  let img := Image (300, 1) "L" (Some "PNG"%string) false tt in
  (im_size img = (300, 1) /\ 0 < 300 /\ 0 < 1 /\ truthy_crop (CropBool true) = true /\
   ((0 < 100 /\ 0 = 0 /\ 1 * 100 < 300 /\ 300 < 2 ^ 1023) \/
    (100 = 0 /\ 0 < 0 /\ 300 * 0 < 1))) /\
  resize_step img (100, 0) (CropBool true) = Raise ZeroDivisionError.
Proof.
  intros img.
  assert (H : (0 < 100 /\ 0 = 0 /\ 1 * 100 < 300 /\ 300 < 2 ^ 1023) \/
              (100 = 0 /\ 0 < 0 /\ 300 * 0 < 1))
    by (left; repeat split; reflexivity).
  split; [repeat split; try reflexivity; exact H|].
  exact (crop_with_one_side_zero_division img 300 1 100 0 (CropBool true)
           eq_refl eq_refl eq_refl eq_refl H).
Defined.

Lemma is_image_size_above_resize_witness :
  let src := SrcBytes ["R"%byte] in
  let img := Image (120, 80) "P" (Some "GIF"%string) true tt in
  (falsy_source src = false /\ svg_sniffed src = false /\
   base64_to_image src = Return img /\ im_size img = (120, 80) /\
   0 < 120 /\ 0 < 80 /\ 0 < 128 /\ 0 < 128) /\
  is_image_size_above src (128, 128) = Return ((120 >? 128) || (80 >? 128)) /\
  (is_image_size_above src (128, 128) = Return false <->
   resize_step img (128, 128) CropNone = Return img).
Proof.
  intros src img. split; [repeat split; reflexivity|].
  destruct (is_image_size_above_resize src img 120 80 128 128) as [_ H].
  exact (H eq_refl eq_refl eq_refl eq_refl eq_refl eq_refl eq_refl eq_refl).
Defined.

Lemma image_optimize_for_web_size_witness :
  let src := SrcBytes ["i"%byte] in
  let img0 := Image (2000, 1000) "RGBA" (Some "PNG"%string) false tt in
  let v := VBytes (list_byte_of_string "PNG") in
  (falsy_source src = false /\ svg_sniffed src = false /\
   base64_to_image src = Return img0 /\ im_size img0 = (2000, 1000) /\
   0 < 2000 /\ 0 < 1000 /\ 0 <= 500 /\
   (image_optimize_for_web src 500 80 ([] : list Z)).1 = Return v) /\
  2000 * 1000 <= 45000000 /\
  exists (img : image unit) f kwargs,
    v = VBytes (b64encode (image_save img f kwargs)) /\
    (500 = 0 \/ 2000 <= 500 -> im_size img = (2000, 1000)) /\
    (0 < 500 < 2000 -> 2000 <= 1000 * 500 ->
     im_size img = (500, (1000 * 500) / 2000)).
Proof.
  intros src img0 v.
  assert (Hv : (image_optimize_for_web src 500 80 ([] : list Z)).1 = Return v)
    by (vm_compute; reflexivity).
  assert (H0 : 0 <= 500) by discriminate.
  split; [repeat split; try reflexivity; assumption|].
  exact (image_optimize_for_web_size src img0 2000 1000 500 80 ([] : list Z) v
           eq_refl eq_refl eq_refl eq_refl eq_refl eq_refl H0 Hv).
Defined.

(** ** The size guessed from a field name *)

Lemma py_split_not_nil (sep : ascii) (s : string) : py_split sep s <> [].
Proof.
  destruct s as [|c s]; simpl; [discriminate|].
  destruct (Ascii.eqb c sep); [discriminate|]. destruct (py_split sep s); discriminate.
Qed.

Lemma py_split_sep (sep : ascii) (p s : string) :
  py_split sep (p +:+ String sep s) = (py_split sep p ++ py_split sep s)%list.
Proof.
  induction p as [|c p IH]; simpl.
  - rewrite Ascii.eqb_refl. reflexivity.
  - destruct (Ascii.eqb c sep); [rewrite IH; reflexivity|].
    rewrite IH. pose proof (py_split_not_nil sep p).
    destruct (py_split sep p) as [|piece pieces]; [contradiction|reflexivity].
Qed.

Lemma py_split_no_sep (sep : ascii) (s : string) :
  ~ In sep (list_ascii_of_string s) -> py_split sep s = [s].
Proof.
  induction s as [|c s IH]; simpl; [reflexivity|]. intros Hn.
  destruct (Ascii.eqb_spec c sep) as [->|_]; [exfalso; auto|].
  rewrite IH by auto. reflexivity.
Qed.

Lemma last_segment_app (p s : string) :
  ~ In "_"%char (list_ascii_of_string s) ->
  List.last (py_split "_" (p +:+ String "_" s)) EmptyString = s.
Proof.
  intros Hs. rewrite py_split_sep, (py_split_no_sep _ s Hs).
  apply last_last.
Qed.

Lemma with_underscore_not_image (p s : string) :
  String.eqb (p +:+ String "_" s) "image" = false.
Proof.
  apply String.eqb_neq. intros E.
  assert (H : py_split "_" (p +:+ String "_" s) = ["image"%string]) by (rewrite E; reflexivity).
  rewrite py_split_sep in H.
  pose proof (py_split_not_nil "_" p). pose proof (py_split_not_nil "_" s).
  destruct (py_split "_" p) as [|a [|b l]], (py_split "_" s) as [|c l']; simpl in H;
    congruence.
Qed.

(** X10. Apart from the name [image], which is [big], the guess depends only
    on what follows the last underscore of the field name: a name that ends in
    [_big], [_large], [_medium] or [_small] gets that size, any other name
    [(0, 0)]. *)
Theorem guess_size_by_suffix (prefix suffix : string) :
  ~ In "_"%char (list_ascii_of_string suffix) ->
  image_guess_size_from_field_name (prefix +:+ String "_" suffix) = size_of_suffix suffix /\
  (suffix <> "image"%string -> image_guess_size_from_field_name suffix = size_of_suffix suffix) /\
  image_guess_size_from_field_name "image" = IMAGE_BIG_SIZE /\
  (suffix ∉ ["big"; "large"; "medium"; "small"]%string ->
   size_of_suffix suffix = (0, 0)) /\
  size_of_suffix suffix
    ∈ [IMAGE_BIG_SIZE; IMAGE_LARGE_SIZE; IMAGE_MEDIUM_SIZE; IMAGE_SMALL_SIZE; (0, 0)].
Proof.
  intros Hs. split; [|split; [|split; [reflexivity|split]]].
  - unfold image_guess_size_from_field_name.
    rewrite with_underscore_not_image, last_segment_app by exact Hs. reflexivity.
  - intros Hn. unfold image_guess_size_from_field_name.
    apply String.eqb_neq in Hn. rewrite Hn, (py_split_no_sep _ suffix Hs). reflexivity.
  - intros Hnot. unfold size_of_suffix.
    destruct (String.eqb_spec suffix "big") as [->|_]; [exfalso; apply Hnot; list_member|].
    destruct (String.eqb_spec suffix "large") as [->|_]; [exfalso; apply Hnot; list_member|].
    destruct (String.eqb_spec suffix "medium") as [->|_]; [exfalso; apply Hnot; list_member|].
    destruct (String.eqb_spec suffix "small") as [->|_]; [exfalso; apply Hnot; list_member|].
    reflexivity.
  - unfold size_of_suffix.
    destruct (String.eqb suffix "big"); [list_member|].
    destruct (String.eqb suffix "large"); [list_member|].
    destruct (String.eqb suffix "medium"); [list_member|].
    destruct (String.eqb suffix "small"); list_member.
Qed.

Lemma guess_size_by_suffix_witness :
  ~ In "_"%char (list_ascii_of_string "medium") /\
  image_guess_size_from_field_name ("image" +:+ String "_" "medium") = size_of_suffix "medium" /\
  ("medium"%string <> "image"%string ->
   image_guess_size_from_field_name "medium" = size_of_suffix "medium") /\
  image_guess_size_from_field_name "image" = IMAGE_BIG_SIZE /\
  ("medium"%string ∉ ["big"; "large"; "medium"; "small"]%string ->
   size_of_suffix "medium" = (0, 0)) /\
  size_of_suffix "medium"
    ∈ [IMAGE_BIG_SIZE; IMAGE_LARGE_SIZE; IMAGE_MEDIUM_SIZE; IMAGE_SMALL_SIZE; (0, 0)].
Proof.
  assert (H : ~ In "_"%char (list_ascii_of_string "medium")).
  { simpl. intros [E|[E|[E|[E|[E|[E|[]]]]]]]; discriminate E. }
  split; [exact H|].
  exact (guess_size_by_suffix "image" "medium" H).
Defined.

(** ** The dictionary of resized images *)

Lemma stored_name_Some (name : option string) (k : string) :
  stored_name name = Some k <-> k <> ""%string /\ name = Some k.
Proof.
  destruct name as [[|c s]|]; simpl; split; try discriminate.
  - intros [H [= <-]]. contradiction.
  - intros [= <-]. split; [discriminate|reflexivity].
  - intros [_ [= <-]]. reflexivity.
  - intros [_ H]. discriminate.
Qed.

Section Resized.
Context {Pix Rng : Type} `{!Pillow Pix} `{!RandomSource Rng} {Upper : StrUpper}.

Lemma image_process_keeps_generator (src : source) (size : Z * Z) (verify : bool)
    (quality : Z) (crop_opt : crop_arg) (fmt : option string) (g : Rng) :
  image_process src size verify quality crop_opt false fmt g
    = ((image_process src size verify quality crop_opt false fmt g).1, g).
Proof.
  unfold image_process.
  destruct (falsy_source src); [reflexivity|].
  destruct (svg_sniffed src); [reflexivity|].
  destruct (prepare src size verify crop_opt fmt) as [[img f]|e]; reflexivity.
Qed.

Lemma resized_entry_spec (name : option string) (size : Z * Z) (src : source)
    (d : gmap string value) (g : Rng) :
  resized_entry name (fun s f g => image_process s size false 80 CropNone false f g)
      src (Return d, g)
    = match stored_name name with
      | Some k =>
          match (image_resize_image src size None g).1 with
          | Return v => (Return (<[k := v]> d), g)
          | Raise e => (Raise e, g)
          end
      | None => (Return d, g)
      end.
Proof.
  unfold resized_entry, stored_name, image_resize_image.
  destruct name as [[|c s]|]; try reflexivity.
  rewrite image_process_keeps_generator.
  destruct (image_process src size false 80 CropNone false None g).1; reflexivity.
Qed.

Lemma resized_entry_Raise (name : option string)
    (resize : source -> option string -> Rng -> result value * Rng) (src : source)
    (e : exn) (g : Rng) :
  resized_entry name resize src (Raise e, g) = (Raise e, g).
Proof. reflexivity. Qed.

Lemma resized_entry_inv (name : option string) (size : Z * Z) (src : source)
    (st : result (gmap string value) * Rng) (d' : gmap string value) (g' : Rng) :
  resized_entry name (fun s f g => image_process s size false 80 CropNone false f g) src st
    = (Return d', g') ->
  exists d, st = (Return d, g') /\
    match stored_name name with
    | Some k => exists v, (image_resize_image src size None g').1 = Return v /\ d' = <[k := v]> d
    | None => d' = d
    end.
Proof.
  destruct st as [[d|e] g]; [|rewrite resized_entry_Raise; discriminate].
  rewrite resized_entry_spec.
  destruct (stored_name name) as [k|].
  - destruct (image_resize_image src size None g).1 as [v|e] eqn:Hv; [|discriminate].
    intros [= <- <-]. exists d. split; [reflexivity|]. exists v. auto.
  - intros [= <- <-]. exists d. auto.
Qed.

(** A returned dictionary, entry by entry. *)
Lemma image_get_resized_images_inv (src : source) (bn ln mn sn : option string) (g g' : Rng)
    (d : gmap string value) :
  image_get_resized_images src bn ln mn sn g = (Return d, g') ->
  g' = g /\
  exists d1 d2 d3,
    (match stored_name bn with
     | Some k => exists v, (image_resize_image src IMAGE_BIG_SIZE None g).1 = Return v /\
                           d1 = <[k := v]> ∅
     | None => d1 = ∅ end) /\
    (match stored_name ln with
     | Some k => exists v, (image_resize_image src IMAGE_LARGE_SIZE None g).1 = Return v /\
                           d2 = <[k := v]> d1
     | None => d2 = d1 end) /\
    (match stored_name mn with
     | Some k => exists v, (image_resize_image src IMAGE_MEDIUM_SIZE None g).1 = Return v /\
                           d3 = <[k := v]> d2
     | None => d3 = d2 end) /\
    (match stored_name sn with
     | Some k => exists v, (image_resize_image src IMAGE_SMALL_SIZE None g).1 = Return v /\
                           d = <[k := v]> d3
     | None => d = d3 end).
Proof.
  unfold image_get_resized_images, image_resize_image_big, image_resize_image_large,
    image_resize_image_medium, image_resize_image_small.
  intros H.
  apply resized_entry_inv in H as (d3 & H & Hs).
  apply resized_entry_inv in H as (d2 & H & Hm).
  apply resized_entry_inv in H as (d1 & H & Hl).
  apply resized_entry_inv in H as (d0 & H & Hb).
  injection H as <- <-.
  split; [reflexivity|]. exists d1, d2, d3. auto.
Qed.

(** One step of the dictionary: the keys and the entries after an optional
    insertion. *)
Lemma entry_step (name : option string) (r : result value) (d d' : gmap string value) :
  match stored_name name with
  | Some k => exists v, r = Return v /\ d' = <[k := v]> d
  | None => d' = d
  end ->
  forall k,
    d' !! k = if decide (stored_name name = Some k)
              then match r with Return v => Some v | Raise _ => None end
              else d !! k.
Proof.
  intros H k. destruct (stored_name name) as [k'|].
  - destruct H as (v & -> & ->).
    destruct (decide (Some k' = Some k)) as [[= ->]|NE].
    + apply lookup_insert_eq.
    + apply lookup_insert_ne. congruence.
  - subst d'. destruct (decide (None = Some k)); [discriminate|reflexivity].
Qed.

(** What a key holds in a returned dictionary: the last assignment to it. *)
Lemma image_get_resized_images_lookup (src : source) (bn ln mn sn : option string)
    (g g' : Rng) (d : gmap string value) :
  image_get_resized_images src bn ln mn sn g = (Return d, g') ->
  g' = g /\
  (forall k,
    d !! k =
      if decide (stored_name sn = Some k)
      then match (image_resize_image src IMAGE_SMALL_SIZE None g).1 with
           | Return v => Some v | Raise _ => None end
      else if decide (stored_name mn = Some k)
      then match (image_resize_image src IMAGE_MEDIUM_SIZE None g).1 with
           | Return v => Some v | Raise _ => None end
      else if decide (stored_name ln = Some k)
      then match (image_resize_image src IMAGE_LARGE_SIZE None g).1 with
           | Return v => Some v | Raise _ => None end
      else if decide (stored_name bn = Some k)
      then match (image_resize_image src IMAGE_BIG_SIZE None g).1 with
           | Return v => Some v | Raise _ => None end
      else None) /\
  (stored_name bn <> None ->
   exists v, (image_resize_image src IMAGE_BIG_SIZE None g).1 = Return v) /\
  (stored_name ln <> None ->
   exists v, (image_resize_image src IMAGE_LARGE_SIZE None g).1 = Return v) /\
  (stored_name mn <> None ->
   exists v, (image_resize_image src IMAGE_MEDIUM_SIZE None g).1 = Return v) /\
  (stored_name sn <> None ->
   exists v, (image_resize_image src IMAGE_SMALL_SIZE None g).1 = Return v).
Proof.
  intros H. apply image_get_resized_images_inv in H as (-> & d1 & d2 & d3 & Hb & Hl & Hm & Hs).
  split; [reflexivity|].
  revert Hb Hl Hm Hs.
  generalize (image_resize_image src IMAGE_BIG_SIZE None g).1
             (image_resize_image src IMAGE_LARGE_SIZE None g).1
             (image_resize_image src IMAGE_MEDIUM_SIZE None g).1
             (image_resize_image src IMAGE_SMALL_SIZE None g).1.
  intros rb rl rm rs Hb Hl Hm Hs.
  pose proof (entry_step bn _ _ _ Hb) as Eb.
  pose proof (entry_step ln _ _ _ Hl) as El.
  pose proof (entry_step mn _ _ _ Hm) as Em.
  pose proof (entry_step sn _ _ _ Hs) as Es.
  split; [intros k; rewrite Es, Em, El, Eb, lookup_empty; reflexivity|].
  split; [destruct (stored_name bn); [destruct Hb as (v & Hv & _); eauto|congruence]|].
  split; [destruct (stored_name ln); [destruct Hl as (v & Hv & _); eauto|congruence]|].
  split; [destruct (stored_name mn); [destruct Hm as (v & Hv & _); eauto|congruence]|].
  destruct (stored_name sn); [destruct Hs as (v & Hv & _); eauto|congruence].
Qed.

(** X11. When [image_get_resized_images] returns, the generator is untouched;
    the keys of the dictionary are the names given that are not falsy; every
    entry is the resize to the size of its name; and when names coincide the
    smaller size wins (the later assignment). *)
Theorem resized_images_entries (src : source) (bn ln mn sn : option string) (g g' : Rng)
    (d : gmap string value) :
  image_get_resized_images src bn ln mn sn g = (Return d, g') ->
  g' = g /\
  (forall k, is_Some (d !! k) <->
     k <> ""%string /\ (bn = Some k \/ ln = Some k \/ mn = Some k \/ sn = Some k)) /\
  (forall k v, d !! k = Some v ->
     (sn = Some k -> (image_resize_image src IMAGE_SMALL_SIZE None g).1 = Return v) /\
     (sn <> Some k -> mn = Some k ->
      (image_resize_image src IMAGE_MEDIUM_SIZE None g).1 = Return v) /\
     (sn <> Some k -> mn <> Some k -> ln = Some k ->
      (image_resize_image src IMAGE_LARGE_SIZE None g).1 = Return v) /\
     (sn <> Some k -> mn <> Some k -> ln <> Some k ->
      (image_resize_image src IMAGE_BIG_SIZE None g).1 = Return v)).
Proof.
  intros H.
  apply image_get_resized_images_lookup in H as (-> & Hlook & Rb & Rl & Rm & Rs).
  split; [reflexivity|].
  revert Hlook Rb Rl Rm Rs.
  generalize (image_resize_image src IMAGE_BIG_SIZE None g).1
             (image_resize_image src IMAGE_LARGE_SIZE None g).1
             (image_resize_image src IMAGE_MEDIUM_SIZE None g).1
             (image_resize_image src IMAGE_SMALL_SIZE None g).1.
  intros rb rl rm rs Hlook Rb Rl Rm Rs.
  split.
  - intros k. rewrite Hlook. split.
    + intros Hsome.
      destruct (decide (stored_name sn = Some k)) as [E|_];
        [apply stored_name_Some in E; tauto|].
      destruct (decide (stored_name mn = Some k)) as [E|_];
        [apply stored_name_Some in E; tauto|].
      destruct (decide (stored_name ln = Some k)) as [E|_];
        [apply stored_name_Some in E; tauto|].
      destruct (decide (stored_name bn = Some k)) as [E|_];
        [apply stored_name_Some in E; tauto|].
      destruct Hsome as [? ?]; discriminate.
    + intros [Hk Hn].
      assert (Hst : forall n, n = Some k -> stored_name n = Some k)
        by (intros n En; apply stored_name_Some; auto).
      destruct (decide (stored_name sn = Some k)) as [E|NEs].
      { destruct Rs as (v & ->); [congruence|eauto]. }
      destruct (decide (stored_name mn = Some k)) as [E|NEm].
      { destruct Rm as (v & ->); [congruence|eauto]. }
      destruct (decide (stored_name ln = Some k)) as [E|NEl].
      { destruct Rl as (v & ->); [congruence|eauto]. }
      destruct (decide (stored_name bn = Some k)) as [E|NEb].
      { destruct Rb as (v & ->); [congruence|eauto]. }
      exfalso. destruct Hn as [E|[E|[E|E]]]; apply Hst in E; contradiction.
  - intros k v. rewrite Hlook. clear Hlook Rb Rl Rm Rs. intros Hv.
    assert (Hk : k <> ""%string -> forall n, n = Some k <-> stored_name n = Some k).
    { intros Hk n. rewrite stored_name_Some. tauto. }
    destruct (decide (k = ""%string)) as [->|NE].
    { exfalso. revert Hv.
      repeat match goal with
             | |- context [decide (stored_name ?n = Some ""%string)] =>
                 destruct (decide (stored_name n = Some ""%string)) as [E|_];
                 [apply stored_name_Some in E; tauto|]
             end.
      discriminate. }
    specialize (Hk NE).
    rewrite (Hk sn), (Hk mn), (Hk ln).
    destruct (decide (stored_name sn = Some k)) as [E|NEs].
    { destruct rs; [|discriminate]. injection Hv as ->. tauto. }
    destruct (decide (stored_name mn = Some k)) as [E|NEm].
    { destruct rm; [|discriminate]. injection Hv as ->. tauto. }
    destruct (decide (stored_name ln = Some k)) as [E|NEl].
    { destruct rl; [|discriminate]. injection Hv as ->. tauto. }
    destruct (decide (stored_name bn = Some k)) as [E|NEb].
    { destruct rb; [|discriminate]. injection Hv as ->. tauto. }
    discriminate.
Qed.

(** X12. With the default names, the dictionary has exactly the keys [image],
    [image_large], [image_medium] and [image_small], and each entry is the
    source resized to the size that [image_guess_size_from_field_name] reads
    off its key. *)
Theorem resized_images_default_names (src : source) (g g' : Rng) (d : gmap string value) :
  image_get_resized_images src (Some "image"%string) (Some "image_large"%string)
    (Some "image_medium"%string) (Some "image_small"%string) g = (Return d, g') ->
  (forall k, is_Some (d !! k) <->
     k ∈ ["image"; "image_large"; "image_medium"; "image_small"]%string) /\
  (forall k v, d !! k = Some v ->
     (image_resize_image src (image_guess_size_from_field_name k) None g).1 = Return v).
Proof.
  intros H.
  apply image_get_resized_images_lookup in H as (-> & Hlook & Rb & Rl & Rm & Rs).
  simpl stored_name in *.
  destruct Rb as (vb & Hb); [discriminate|].
  destruct Rl as (vl & Hl); [discriminate|].
  destruct Rm as (vm & Hm); [discriminate|].
  destruct Rs as (vs & Hs); [discriminate|].
  rewrite Hb, Hl, Hm, Hs in Hlook.
  split.
  - intros k. rewrite Hlook.
    repeat match goal with
           | |- context [decide (Some ?a = Some k)] =>
               destruct (decide (Some a = Some k)) as [[= <-]|?]
           end.
    + split; [intros _; list_member|eauto].
    + split; [intros _; list_member|eauto].
    + split; [intros _; list_member|eauto].
    + split; [intros _; list_member|eauto].
    + split; [intros [? ?]; discriminate|].
      rewrite !elem_of_cons, elem_of_nil. intros [->|[->|[->|[->|[]]]]]; congruence.
  - intros k v. rewrite Hlook.
    repeat match goal with
           | |- context [decide (Some ?a = Some k)] =>
               destruct (decide (Some a = Some k)) as [[= <-]|?]
           end; try discriminate; intros [= <-].
    + exact Hs.
    + exact Hm.
    + exact Hl.
    + exact Hb.
Qed.

(** The dictionary is built when every resize returns. *)
Lemma image_get_resized_images_returns (src : source) (bn ln mn sn : option string) (g : Rng) :
  (forall size, size ∈ [IMAGE_BIG_SIZE; IMAGE_LARGE_SIZE; IMAGE_MEDIUM_SIZE; IMAGE_SMALL_SIZE] ->
     exists v, (image_resize_image src size None g).1 = Return v) ->
  exists d, image_get_resized_images src bn ln mn sn g = (Return d, g).
Proof.
  intros Hall.
  unfold image_get_resized_images, image_resize_image_big, image_resize_image_large,
    image_resize_image_medium, image_resize_image_small.
  rewrite resized_entry_spec.
  destruct (Hall IMAGE_BIG_SIZE ltac:(list_member)) as (vb & ->).
  destruct (Hall IMAGE_LARGE_SIZE ltac:(list_member)) as (vl & Hl).
  destruct (Hall IMAGE_MEDIUM_SIZE ltac:(list_member)) as (vm & Hm).
  destruct (Hall IMAGE_SMALL_SIZE ltac:(list_member)) as (vs & Hs).
  destruct (stored_name bn); rewrite resized_entry_spec, Hl;
    (destruct (stored_name ln); rewrite resized_entry_spec, Hm;
      (destruct (stored_name mn); rewrite resized_entry_spec, Hs;
        (destruct (stored_name sn); eauto))).
Qed.

(** The first exception is the exception of the whole. *)
Lemma image_get_resized_images_raises (src : source) (bn ln mn sn : option string) (g : Rng)
    (e : exn) :
  (forall size, size ∈ [IMAGE_BIG_SIZE; IMAGE_LARGE_SIZE; IMAGE_MEDIUM_SIZE; IMAGE_SMALL_SIZE] ->
     (image_resize_image src size None g).1 = Raise e) ->
  image_get_resized_images src bn ln mn sn g
    = if decide (stored_name bn = None /\ stored_name ln = None /\
                 stored_name mn = None /\ stored_name sn = None)
      then (Return ∅, g) else (Raise e, g).
Proof.
  intros Hall.
  unfold image_get_resized_images, image_resize_image_big, image_resize_image_large,
    image_resize_image_medium, image_resize_image_small.
  rewrite resized_entry_spec.
  rewrite (Hall IMAGE_BIG_SIZE) by list_member.
  pose proof (Hall IMAGE_LARGE_SIZE ltac:(list_member)) as Hl.
  pose proof (Hall IMAGE_MEDIUM_SIZE ltac:(list_member)) as Hm.
  pose proof (Hall IMAGE_SMALL_SIZE ltac:(list_member)) as Hs.
  destruct (stored_name bn).
  { rewrite !resized_entry_Raise. rewrite decide_False by (intros [? _]; discriminate).
    reflexivity. }
  rewrite resized_entry_spec, Hl.
  destruct (stored_name ln).
  { rewrite !resized_entry_Raise. rewrite decide_False by (intros (_ & ? & _); discriminate).
    reflexivity. }
  rewrite resized_entry_spec, Hm.
  destruct (stored_name mn).
  { rewrite !resized_entry_Raise.
    rewrite decide_False by (intros (_ & _ & ? & _); discriminate). reflexivity. }
  rewrite resized_entry_spec, Hs.
  destruct (stored_name sn).
  { rewrite decide_False by (intros (_ & _ & _ & ?); discriminate). reflexivity. }
  rewrite decide_True by auto. reflexivity.
Qed.

(** X13. For an empty or SVG source [image_get_resized_images] never raises and
    never decodes: every requested key holds [False], respectively the source
    itself. *)
Theorem resized_images_without_image (src : source) (bn ln mn sn : option string) (g : Rng) :
  falsy_source src = true \/ svg_sniffed src = true ->
  exists d,
    image_get_resized_images src bn ln mn sn g = (Return d, g) /\
    (forall k, is_Some (d !! k) <->
       k <> ""%string /\ (bn = Some k \/ ln = Some k \/ mn = Some k \/ sn = Some k)) /\
    (forall k v, d !! k = Some v ->
       v = if falsy_source src then VFalse else VSource src).
Proof.
  intros Hsrc.
  assert (Hall : forall size, (image_resize_image src size None g).1
                   = Return (if falsy_source src then VFalse else VSource src)).
  { intros size. unfold image_resize_image, image_process.
    destruct (falsy_source src); [reflexivity|].
    destruct Hsrc as [? | ->]; [discriminate|reflexivity]. }
  destruct (image_get_resized_images_returns src bn ln mn sn g) as (d & Hd);
    [intros size _; rewrite Hall; eauto|].
  exists d. split; [exact Hd|].
  apply image_get_resized_images_lookup in Hd as (_ & Hlook & _).
  rewrite !Hall in Hlook.
  assert (Hst : forall n k, stored_name n = Some k <-> k <> ""%string /\ n = Some k)
    by (intros; apply stored_name_Some).
  split.
  - intros k. rewrite Hlook.
    repeat match goal with
           | |- context [decide (stored_name ?n = Some k)] =>
               let E := fresh "E" in
               destruct (decide (stored_name n = Some k)) as [E|E];
               [apply Hst in E; split; [tauto|eauto]|rewrite Hst in E]
           end.
    split; [intros [? ?]; discriminate|tauto].
  - intros k v. rewrite Hlook.
    repeat match goal with
           | |- context [decide (stored_name ?n = Some k)] =>
               destruct (decide (stored_name n = Some k)) as [_|_];
               [intros [= <-]; reflexivity|]
           end.
    discriminate.
Qed.

(** X14. On a source that [base64_to_image] cannot decode,
    [image_get_resized_images] raises the exception of [base64_to_image] as
    soon as one name is requested, and leaves the generator alone; with no
    name requested it decodes nothing and returns the empty dictionary. *)
Theorem resized_images_raise (src : source) (bn ln mn sn : option string) (g : Rng) (e : exn) :
  falsy_source src = false -> svg_sniffed src = false ->
  base64_to_image src = Raise e ->
  ((exists k, k <> ""%string /\ (bn = Some k \/ ln = Some k \/ mn = Some k \/ sn = Some k)) ->
   image_get_resized_images src bn ln mn sn g = (Raise e, g)) /\
  ((forall k, k <> ""%string ->
      bn <> Some k /\ ln <> Some k /\ mn <> Some k /\ sn <> Some k) ->
   image_get_resized_images src bn ln mn sn g = (Return ∅, g)).
Proof.
  intros Hne Hsvg Hdec.
  assert (Hall : forall size,
            size ∈ [IMAGE_BIG_SIZE; IMAGE_LARGE_SIZE; IMAGE_MEDIUM_SIZE; IMAGE_SMALL_SIZE] ->
            (image_resize_image src size None g).1 = Raise e).
  { intros size _. unfold image_resize_image, image_process, prepare.
    rewrite Hne, Hsvg, Hdec. reflexivity. }
  rewrite (image_get_resized_images_raises src bn ln mn sn g e Hall).
  assert (Hst : forall n k, n = Some k -> k <> ""%string -> stored_name n = Some k)
    by (intros n k En Hk; apply stored_name_Some; auto).
  split.
  - intros (k & Hk & Hn). rewrite decide_False; [reflexivity|].
    intros (Hb & Hl & Hm & Hs).
    destruct Hn as [E|[E|[E|E]]]; apply Hst in E; congruence.
  - intros Hnone. rewrite decide_True; [reflexivity|].
    assert (Hno : forall n, (forall k, k <> ""%string -> n <> Some k) -> stored_name n = None).
    { intros n Hn. destruct (stored_name n) as [k|] eqn:E; [|reflexivity].
      apply stored_name_Some in E as [Hk E]. destruct (Hn k Hk E). }
    repeat split; apply Hno; intros k Hk; destruct (Hnone k Hk) as (? & ? & ? & ?);
      assumption.
Qed.

End Resized.

Lemma resized_images_entries_witness :
  let src := SrcBytes ["/"%byte] in
  let bn := Some "image"%string in
  let ln : option string := None in
  let mn := Some "thumb"%string in
  let sn := Some "thumb"%string in
  let g : list Z := [5] in
  let d : gmap string value :=
    {[ "image"%string := VBytes (list_byte_of_string "JPEG");
       "thumb"%string := VBytes (list_byte_of_string "JPEG") ]} in
  image_get_resized_images (Pix := unit) src bn ln mn sn g = (Return d, g) /\
  g = g /\
  (forall k, is_Some (d !! k) <->
     k <> ""%string /\ (bn = Some k \/ ln = Some k \/ mn = Some k \/ sn = Some k)) /\
  (forall k v, d !! k = Some v ->
     (sn = Some k -> (image_resize_image src IMAGE_SMALL_SIZE None g).1 = Return v) /\
     (sn <> Some k -> mn = Some k ->
      (image_resize_image src IMAGE_MEDIUM_SIZE None g).1 = Return v) /\
     (sn <> Some k -> mn <> Some k -> ln = Some k ->
      (image_resize_image src IMAGE_LARGE_SIZE None g).1 = Return v) /\
     (sn <> Some k -> mn <> Some k -> ln <> Some k ->
      (image_resize_image src IMAGE_BIG_SIZE None g).1 = Return v)).
Proof.
  intros src bn ln mn sn g d.
  assert (H : image_get_resized_images (Pix := unit) src bn ln mn sn g = (Return d, g))
    by (vm_compute; reflexivity).
  split; [exact H|].
  exact (resized_images_entries src bn ln mn sn g g d H).
Defined.

Lemma resized_images_default_names_witness :
  let src := SrcBytes ["i"%byte] in
  let g : list Z := [] in
  let d : gmap string value :=
    {[ "image"%string := VBytes (list_byte_of_string "PNG");
       "image_large"%string := VBytes (list_byte_of_string "PNG");
       "image_medium"%string := VBytes (list_byte_of_string "PNG");
       "image_small"%string := VBytes (list_byte_of_string "PNG") ]} in
  image_get_resized_images (Pix := unit) src (Some "image"%string)
    (Some "image_large"%string) (Some "image_medium"%string) (Some "image_small"%string) g
    = (Return d, g) /\
  (forall k, is_Some (d !! k) <->
     k ∈ ["image"; "image_large"; "image_medium"; "image_small"]%string) /\
  (forall k v, d !! k = Some v ->
     (image_resize_image src (image_guess_size_from_field_name k) None g).1 = Return v).
Proof.
  intros src g d.
  assert (H : image_get_resized_images (Pix := unit) src (Some "image"%string)
                (Some "image_large"%string) (Some "image_medium"%string)
                (Some "image_small"%string) g = (Return d, g))
    by (vm_compute; reflexivity).
  split; [exact H|].
  exact (resized_images_default_names src g g d H).
Defined.

Lemma resized_images_without_image_witness :
  let src := SrcBytes ["P"%byte; "H"%byte; "N"%byte; "2"%byte] in
  let bn := Some "image"%string in
  let ln := Some ""%string in
  let mn : option string := None in
  let sn := Some "image_small"%string in
  let g : list Z := [7] in
  (falsy_source src = true \/ svg_sniffed src = true) /\
  exists d,
    image_get_resized_images (Pix := unit) src bn ln mn sn g = (Return d, g) /\
    (forall k, is_Some (d !! k) <->
       k <> ""%string /\ (bn = Some k \/ ln = Some k \/ mn = Some k \/ sn = Some k)) /\
    (forall k v, d !! k = Some v ->
       v = if falsy_source src then VFalse else VSource src).
Proof.
  intros src bn ln mn sn g.
  assert (H : falsy_source src = true \/ svg_sniffed src = true) by (right; reflexivity).
  split; [exact H|].
  exact (resized_images_without_image (Pix := unit) src bn ln mn sn g H).
Defined.

Lemma resized_images_raise_witness :
  let src := SrcBytes ["x"%byte] in
  let bn := Some "image"%string in
  let ln : option string := None in
  let mn : option string := None in
  let sn : option string := None in
  let g : list Z := [] in
  let e := DecodeError "cannot identify image file" in
  (falsy_source src = false /\ svg_sniffed src = false /\
   base64_to_image (Pix := unit) src = Raise e) /\
  (exists k, k <> ""%string /\ (bn = Some k \/ ln = Some k \/ mn = Some k \/ sn = Some k)) /\
  image_get_resized_images (Pix := unit) src bn ln mn sn g = (Raise e, g).
Proof.
  intros src bn ln mn sn g e. split; [repeat split|].
  assert (Hreq : exists k, k <> ""%string /\
                   (bn = Some k \/ ln = Some k \/ mn = Some k \/ sn = Some k)).
  { exists "image"%string. split; [discriminate|left; reflexivity]. }
  split; [exact Hreq|].
  assert (Hdec : base64_to_image (Pix := unit) src = Raise e) by reflexivity.
  destruct (resized_images_raise (Pix := unit) src bn ln mn sn g e eq_refl eq_refl Hdec)
    as [Hraise _].
  exact (Hraise Hreq).
Defined.

(** ** Updating a record's image fields *)

Lemma name_if_stored (flag : bool) (name k : string) :
  stored_name (name_if flag name) = Some k <-> flag = true /\ name = k /\ k <> ""%string.
Proof.
  unfold name_if. destruct flag.
  - rewrite stored_name_Some. split.
    + intros [Hk [= ->]]. auto.
    + intros (_ & -> & Hk). auto.
  - simpl. split; [discriminate|]. intros [? _]. discriminate.
Qed.

Lemma source_or_falsy (a b : source) :
  falsy_source (source_or a b) = falsy_source a && falsy_source b.
Proof. unfold source_or. destruct (falsy_source a) eqn:E; [reflexivity|exact E]. Qed.

Lemma set_False_lookup (flag : bool) (name k : string) (vals : gmap string source) :
  set_False flag name vals !! k
    = if decide (flag = true /\ name = k) then Some SrcFalse else vals !! k.
Proof.
  unfold set_False. destruct flag.
  - destruct (decide (name = k)) as [->|NE].
    + rewrite decide_True by auto. apply lookup_insert_eq.
    + rewrite decide_False by tauto. apply lookup_insert_ne. exact NE.
  - rewrite decide_False by (intros [? _]; discriminate). reflexivity.
Qed.

Section Update.
Context {Pix Rng : Type} `{!Pillow Pix} `{!RandomSource Rng} {Upper : StrUpper}.

(** X15. [image_resize_images] leaves the generator alone and touches no key
    of [vals] other than the names it was asked to return; no key is ever
    removed. *)
Theorem resize_images_frame (vals vals' : gmap string source)
    (return_big return_large return_medium return_small : bool)
    (big_name large_name medium_name small_name : string) (g g' : Rng) :
  image_resize_images vals return_big return_large return_medium return_small
    big_name large_name medium_name small_name g = (Return vals', g') ->
  g' = g /\
  (forall k,
     ~ (return_big = true /\ big_name = k) -> ~ (return_large = true /\ large_name = k) ->
     ~ (return_medium = true /\ medium_name = k) -> ~ (return_small = true /\ small_name = k) ->
     vals' !! k = vals !! k) /\
  (forall k, is_Some (vals !! k) -> is_Some (vals' !! k)).
Proof.
  unfold image_resize_images.
  set (biggest := source_or _ _).
  destruct (falsy_source biggest) eqn:Hfalsy; cbn [negb].
  - destruct (existsb _ _).
    + intros [= <- <-]. split; [reflexivity|]. split.
      * intros k Hb Hl Hm Hs. rewrite !set_False_lookup.
        rewrite !decide_False by assumption. reflexivity.
      * intros k Hk. rewrite !set_False_lookup.
        repeat (destruct (decide _); [eauto|]). exact Hk.
    + intros [= <- <-]. auto.
  - destruct (image_get_resized_images _ _ _ _ _ g) as [[d|e] g1] eqn:Hd; [|discriminate].
    intros [= <- <-].
    apply image_get_resized_images_lookup in Hd as (-> & Hlook & _).
    split; [reflexivity|]. split.
    + intros k Hb Hl Hm Hs.
      rewrite lookup_union_r; [reflexivity|].
      rewrite lookup_fmap, Hlook.
      repeat (destruct (decide _) as [E|_]; [apply name_if_stored in E; tauto|]).
      reflexivity.
    + intros k Hk. rewrite lookup_union.
      destruct ((value_as_source <$> d) !! k); destruct (vals !! k); simpl; eauto.
Qed.

(** X16. When none of the four fields holds an image, nothing is decoded: if
    none of the four keys is in [vals] it is returned as it is, otherwise each
    requested name is set to [False], whether it was present or not. *)
Theorem resize_images_no_image (vals : gmap string source)
    (return_big return_large return_medium return_small : bool)
    (big_name large_name medium_name small_name : string) (g : Rng) :
  (forall name, name ∈ [big_name; large_name; medium_name; small_name] ->
     falsy_source (vals_get vals name) = true) ->
  exists vals',
    image_resize_images vals return_big return_large return_medium return_small
      big_name large_name medium_name small_name g = (Return vals', g) /\
    ((forall name, name ∈ [big_name; large_name; medium_name; small_name] ->
        vals !! name = None) -> vals' = vals) /\
    ((exists name, name ∈ [big_name; large_name; medium_name; small_name] /\
        is_Some (vals !! name)) ->
     forall k,
       vals' !! k =
         if decide ((return_big = true /\ big_name = k) \/
                    (return_large = true /\ large_name = k) \/
                    (return_medium = true /\ medium_name = k) \/
                    (return_small = true /\ small_name = k))
         then Some SrcFalse else vals !! k).
Proof.
  intros Hfalsy. unfold image_resize_images.
  rewrite !source_or_falsy.
  rewrite !Hfalsy by list_member. cbn [andb negb].
  destruct (existsb _ _) eqn:Hex.
  - eexists. split; [reflexivity|]. split.
    + intros Hnone. exfalso. apply existsb_exists in Hex as (name & Hin & Hsome).
      apply bool_decide_eq_true in Hsome. apply list_elem_of_In in Hin.
      rewrite (Hnone name Hin) in Hsome. destruct Hsome as [? ?]; discriminate.
    + intros _ k. rewrite !set_False_lookup.
      destruct (decide (return_small = true /\ small_name = k));
        [rewrite decide_True by tauto; reflexivity|].
      destruct (decide (return_medium = true /\ medium_name = k));
        [rewrite decide_True by tauto; reflexivity|].
      destruct (decide (return_large = true /\ large_name = k));
        [rewrite decide_True by tauto; reflexivity|].
      destruct (decide (return_big = true /\ big_name = k));
        [rewrite decide_True by tauto; reflexivity|].
      rewrite decide_False by tauto. reflexivity.
  - exists vals. split; [reflexivity|]. split; [reflexivity|].
    intros (name & Hin & Hsome). exfalso.
    assert (Hex' : existsb (fun f => bool_decide (is_Some (vals !! f)))
                     [big_name; large_name; medium_name; small_name] = true).
    { apply existsb_exists. exists name. split; [apply list_elem_of_In; exact Hin|].
      apply bool_decide_eq_true. exact Hsome. }
    congruence.
Qed.

(** X17. The image resized is the first of [big], [large], [medium], [small]
    that is not empty; with four different, non-empty names, each requested
    name then holds that image resized to its size (the image itself when it
    is SVG), and a name not requested keeps what it had. *)
Theorem resize_images_priority (vals vals' : gmap string source)
    (return_big return_large return_medium return_small : bool)
    (big_name large_name medium_name small_name : string) (g g' : Rng) (src : source) :
  NoDup [big_name; large_name; medium_name; small_name] ->
  ""%string ∉ [big_name; large_name; medium_name; small_name] ->
  src = source_or (source_or (source_or (vals_get vals big_name) (vals_get vals large_name))
                     (vals_get vals medium_name)) (vals_get vals small_name) ->
  falsy_source src = false ->
  image_resize_images vals return_big return_large return_medium return_small
    big_name large_name medium_name small_name g = (Return vals', g') ->
  (src = vals_get vals big_name \/
   falsy_source (vals_get vals big_name) = true /\
   (src = vals_get vals large_name \/
    falsy_source (vals_get vals large_name) = true /\
    (src = vals_get vals medium_name \/
     falsy_source (vals_get vals medium_name) = true /\ src = vals_get vals small_name))) /\
  (forall (name : string) (size : Z * Z) (flag : bool),
     (name, size, flag) ∈ [(big_name, IMAGE_BIG_SIZE, return_big);
                           (large_name, IMAGE_LARGE_SIZE, return_large);
                           (medium_name, IMAGE_MEDIUM_SIZE, return_medium);
                           (small_name, IMAGE_SMALL_SIZE, return_small)] ->
     if flag
     then exists v, (image_resize_image src size None g).1 = Return v /\
                    vals' !! name = Some (value_as_source v) /\
                    (svg_sniffed src = true -> vals' !! name = Some src)
     else vals' !! name = vals !! name).
Proof.
  intros Hdup Hempty Hsrc Htruthy. unfold image_resize_images. rewrite <- Hsrc, Htruthy.
  cbn [negb].
  destruct (image_get_resized_images _ _ _ _ _ g) as [[d|e] g1] eqn:Hd; [|discriminate].
  intros [= <- <-].
  apply image_get_resized_images_lookup in Hd as (_ & Hlook & Rb & Rl & Rm & Rs).
  split.
  { rewrite Hsrc. unfold source_or.
    destruct (falsy_source (vals_get vals big_name)) eqn:Eb; cbv iota; rewrite ?Eb; [|auto].
    destruct (falsy_source (vals_get vals large_name)) eqn:El; cbv iota; rewrite ?El;
      [|auto 10].
    destruct (falsy_source (vals_get vals medium_name)) eqn:Em; cbv iota; rewrite ?Em;
      auto 10. }
  assert (Hsvg : forall size v, svg_sniffed src = true ->
            (image_resize_image src size None g).1 = Return v -> value_as_source v = src).
  { intros size v Hs. unfold image_resize_image, image_process. rewrite Htruthy, Hs.
    intros [= <-]. reflexivity. }
  apply NoDup_cons in Hdup as [Hb Hdup]. apply NoDup_cons in Hdup as [Hl Hdup].
  apply NoDup_cons in Hdup as [Hm _].
  assert (Dbl : big_name <> large_name) by (intros E; apply Hb; rewrite E, !elem_of_cons; auto 6).
  assert (Dbm : big_name <> medium_name) by (intros E; apply Hb; rewrite E, !elem_of_cons; auto 6).
  assert (Dbs : big_name <> small_name) by (intros E; apply Hb; rewrite E, !elem_of_cons; auto 6).
  assert (Dlm : large_name <> medium_name) by (intros E; apply Hl; rewrite E, !elem_of_cons; auto 6).
  assert (Dls : large_name <> small_name) by (intros E; apply Hl; rewrite E, !elem_of_cons; auto 6).
  assert (Dms : medium_name <> small_name) by (intros E; apply Hm; rewrite E, !elem_of_cons; auto 6).
  assert (Nb : big_name <> ""%string) by (intros E; apply Hempty; rewrite E, !elem_of_cons; auto 6).
  assert (Nl : large_name <> ""%string) by (intros E; apply Hempty; rewrite E, !elem_of_cons; auto 6).
  assert (Nm : medium_name <> ""%string) by (intros E; apply Hempty; rewrite E, !elem_of_cons; auto 6).
  assert (Ns : small_name <> ""%string) by (intros E; apply Hempty; rewrite E, !elem_of_cons; auto 6).
  clear Hb Hl Hm Hempty.
  assert (Hkey : forall (name : string) (flag : bool) (r : result value) (k : string),
            name <> ""%string ->
            (stored_name (name_if flag name) <> None -> exists v, r = Return v) ->
            d !! k = (if decide (stored_name (name_if flag name) = Some k)
                      then match r with Return v => Some v | Raise _ => None end
                      else None) ->
            k = name ->
            if flag
            then exists v, r = Return v /\
                   (value_as_source <$> d) !! k = Some (value_as_source v)
            else (value_as_source <$> d) !! k = None).
  { intros name flag r k Hname Hr Hk ->. rewrite lookup_fmap, Hk. destruct flag.
    - destruct Hr as (v & ->).
      { simpl. destruct name; [contradiction|discriminate]. }
      exists v. split; [reflexivity|].
      rewrite decide_True by (apply name_if_stored; auto). reflexivity.
    - rewrite decide_False by (rewrite name_if_stored; intros [? _]; discriminate).
      reflexivity. }
  assert (Hne : forall flag n k, n <> k -> stored_name (name_if flag n) <> Some k).
  { intros flag n k NE. rewrite name_if_stored. tauto. }
  assert (Hfin : forall (flag : bool) (r : result value) (k : string),
            (if flag
             then exists v, r = Return v /\
                    (value_as_source <$> d) !! k = Some (value_as_source v)
             else (value_as_source <$> d) !! k = None) ->
            (forall v, svg_sniffed src = true -> r = Return v -> value_as_source v = src) ->
            if flag
            then exists v, r = Return v /\
                   ((value_as_source <$> d) ∪ vals) !! k = Some (value_as_source v) /\
                   (svg_sniffed src = true ->
                    ((value_as_source <$> d) ∪ vals) !! k = Some src)
            else ((value_as_source <$> d) ∪ vals) !! k = vals !! k).
  { intros flag r k H Hs. destruct flag.
    - destruct H as (v & -> & Hk). exists v. split; [reflexivity|].
      assert (Hu : ((value_as_source <$> d) ∪ vals) !! k = Some (value_as_source v))
        by (apply lookup_union_Some_l; exact Hk).
      split; [exact Hu|]. intros Hsv. rewrite Hu, (Hs v Hsv eq_refl). reflexivity.
    - apply lookup_union_r. exact H. }
  intros name size flag Hin. rewrite !elem_of_cons, elem_of_nil in Hin.
  destruct Hin as [[= -> -> ->]|[[= -> -> ->]|[[= -> -> ->]|[[= -> -> ->]|[]]]]].
  - pose proof (Hsvg IMAGE_BIG_SIZE) as Sv. clear Hsvg. revert Hlook Rb Rl Rm Rs Sv.
    generalize (image_resize_image src IMAGE_BIG_SIZE None g).1
               (image_resize_image src IMAGE_LARGE_SIZE None g).1
               (image_resize_image src IMAGE_MEDIUM_SIZE None g).1
               (image_resize_image src IMAGE_SMALL_SIZE None g).1.
    intros rb rl rm rs Hlook Rb Rl Rm Rs Sv.
    apply Hfin; [|exact Sv].
    apply (Hkey big_name); [assumption|exact Rb| |reflexivity].
    rewrite Hlook. rewrite !decide_False by (apply Hne; congruence). reflexivity.
  - pose proof (Hsvg IMAGE_LARGE_SIZE) as Sv. clear Hsvg. revert Hlook Rb Rl Rm Rs Sv.
    generalize (image_resize_image src IMAGE_BIG_SIZE None g).1
               (image_resize_image src IMAGE_LARGE_SIZE None g).1
               (image_resize_image src IMAGE_MEDIUM_SIZE None g).1
               (image_resize_image src IMAGE_SMALL_SIZE None g).1.
    intros rb rl rm rs Hlook Rb Rl Rm Rs Sv.
    apply Hfin; [|exact Sv].
    apply (Hkey large_name); [assumption|exact Rl| |reflexivity].
    rewrite Hlook. rewrite !decide_False by (apply Hne; congruence).
    destruct (decide (stored_name (name_if return_large large_name) = Some large_name)) as [E|NE].
    + reflexivity.
    + rewrite decide_False by (apply Hne; congruence). reflexivity.
  - pose proof (Hsvg IMAGE_MEDIUM_SIZE) as Sv. clear Hsvg. revert Hlook Rb Rl Rm Rs Sv.
    generalize (image_resize_image src IMAGE_BIG_SIZE None g).1
               (image_resize_image src IMAGE_LARGE_SIZE None g).1
               (image_resize_image src IMAGE_MEDIUM_SIZE None g).1
               (image_resize_image src IMAGE_SMALL_SIZE None g).1.
    intros rb rl rm rs Hlook Rb Rl Rm Rs Sv.
    apply Hfin; [|exact Sv].
    apply (Hkey medium_name); [assumption|exact Rm| |reflexivity].
    rewrite Hlook. rewrite !decide_False by (apply Hne; congruence).
    destruct (decide (stored_name (name_if return_medium medium_name) = Some medium_name))
      as [E|NE].
    + reflexivity.
    + rewrite !decide_False by (apply Hne; congruence). reflexivity.
  - pose proof (Hsvg IMAGE_SMALL_SIZE) as Sv. clear Hsvg. revert Hlook Rb Rl Rm Rs Sv.
    generalize (image_resize_image src IMAGE_BIG_SIZE None g).1
               (image_resize_image src IMAGE_LARGE_SIZE None g).1
               (image_resize_image src IMAGE_MEDIUM_SIZE None g).1
               (image_resize_image src IMAGE_SMALL_SIZE None g).1.
    intros rb rl rm rs Hlook Rb Rl Rm Rs Sv.
    apply Hfin; [|exact Sv].
    apply (Hkey small_name); [assumption|exact Rs| |reflexivity].
    rewrite Hlook.
    destruct (decide (stored_name (name_if return_small small_name) = Some small_name))
      as [E|NE].
    + reflexivity.
    + rewrite !decide_False by (apply Hne; congruence). reflexivity.
Qed.

End Update.

Lemma resize_images_frame_witness :
  let vals : gmap string source :=
    {[ "image"%string := SrcBytes ["/"%byte]; "name"%string := SrcStr "logo" ]} in
  let g : list Z := [4] in
  let vals' : gmap string source :=
    {[ "image"%string := SrcBytes (list_byte_of_string "JPEG");
       "image_medium"%string := SrcBytes (list_byte_of_string "JPEG");
       "image_small"%string := SrcBytes (list_byte_of_string "JPEG");
       "name"%string := SrcStr "logo" ]} in
  image_resize_images (Pix := unit) vals true false true true
    "image" "image_large" "image_medium" "image_small" g = (Return vals', g) /\
  g = g /\
  (forall k,
     ~ (true = true /\ "image"%string = k) -> ~ (false = true /\ "image_large"%string = k) ->
     ~ (true = true /\ "image_medium"%string = k) ->
     ~ (true = true /\ "image_small"%string = k) ->
     vals' !! k = vals !! k) /\
  (forall k, is_Some (vals !! k) -> is_Some (vals' !! k)).
Proof.
  intros vals g vals'.
  assert (H : image_resize_images (Pix := unit) vals true false true true
                "image" "image_large" "image_medium" "image_small" g = (Return vals', g))
    by (vm_compute; reflexivity).
  split; [exact H|].
  exact (resize_images_frame vals vals' true false true true
           "image" "image_large" "image_medium" "image_small" g g H).
Defined.

Lemma resize_images_no_image_witness :
  let vals : gmap string source :=
    {[ "image"%string := SrcFalse; "name"%string := SrcStr "logo" ]} in
  let g : list Z := [] in
  (forall name, name ∈ ["image"; "image_large"; "image_medium"; "image_small"]%string ->
     falsy_source (vals_get vals name) = true) /\
  exists vals',
    image_resize_images (Pix := unit) vals true false true true
      "image" "image_large" "image_medium" "image_small" g = (Return vals', g) /\
    ((forall name, name ∈ ["image"; "image_large"; "image_medium"; "image_small"]%string ->
        vals !! name = None) -> vals' = vals) /\
    ((exists name, name ∈ ["image"; "image_large"; "image_medium"; "image_small"]%string /\
        is_Some (vals !! name)) ->
     forall k,
       vals' !! k =
         if decide ((true = true /\ "image"%string = k) \/
                    (false = true /\ "image_large"%string = k) \/
                    (true = true /\ "image_medium"%string = k) \/
                    (true = true /\ "image_small"%string = k))
         then Some SrcFalse else vals !! k).
Proof.
  intros vals g.
  assert (H : forall name,
            name ∈ ["image"; "image_large"; "image_medium"; "image_small"]%string ->
            falsy_source (vals_get vals name) = true).
  { intros name Hin. rewrite !elem_of_cons, elem_of_nil in Hin.
    destruct Hin as [->|[->|[->|[->|[]]]]]; reflexivity. }
  split; [exact H|].
  exact (resize_images_no_image (Pix := unit) vals true false true true
           "image" "image_large" "image_medium" "image_small" g H).
Defined.

Lemma resize_images_priority_witness :
  let vals : gmap string source :=
    {[ "image"%string := SrcFalse; "image_medium"%string := SrcBytes ["R"%byte] ]} in
  let src := SrcBytes ["R"%byte] in
  let g : list Z := [] in
  let vals' : gmap string source :=
    {[ "image"%string := SrcBytes (list_byte_of_string "GIF");
       "image_medium"%string := SrcBytes (list_byte_of_string "GIF");
       "image_small"%string := SrcBytes (list_byte_of_string "GIF") ]} in
  (NoDup ["image"; "image_large"; "image_medium"; "image_small"]%string /\
   (""%string ∉ ["image"; "image_large"; "image_medium"; "image_small"]%string) /\
   src = source_or (source_or (source_or (vals_get vals "image")
                                 (vals_get vals "image_large"))
                      (vals_get vals "image_medium")) (vals_get vals "image_small") /\
   falsy_source src = false /\
   image_resize_images (Pix := unit) vals true false true true
     "image" "image_large" "image_medium" "image_small" g = (Return vals', g)) /\
  (src = vals_get vals "image" \/
   falsy_source (vals_get vals "image") = true /\
   (src = vals_get vals "image_large" \/
    falsy_source (vals_get vals "image_large") = true /\
    (src = vals_get vals "image_medium" \/
     falsy_source (vals_get vals "image_medium") = true /\
     src = vals_get vals "image_small"))) /\
  (forall (name : string) (size : Z * Z) (flag : bool),
     (name, size, flag) ∈ [("image"%string, IMAGE_BIG_SIZE, true);
                           ("image_large"%string, IMAGE_LARGE_SIZE, false);
                           ("image_medium"%string, IMAGE_MEDIUM_SIZE, true);
                           ("image_small"%string, IMAGE_SMALL_SIZE, true)] ->
     if flag
     then exists v, (image_resize_image (Pix := unit) src size None g).1 = Return v /\
                    vals' !! name = Some (value_as_source v) /\
                    (svg_sniffed src = true -> vals' !! name = Some src)
     else vals' !! name = vals !! name).
Proof.
  intros vals src g vals'.
  assert (Hdup : NoDup ["image"; "image_large"; "image_medium"; "image_small"]%string)
    by (apply (bool_decide_unpack _); vm_compute; exact I).
  assert (Hempty : ""%string ∉ ["image"; "image_large"; "image_medium"; "image_small"]%string)
    by (apply (bool_decide_unpack _); vm_compute; exact I).
  assert (Hsrc : src = source_or (source_or (source_or (vals_get vals "image")
                                               (vals_get vals "image_large"))
                                    (vals_get vals "image_medium"))
                         (vals_get vals "image_small")) by reflexivity.
  assert (H : image_resize_images (Pix := unit) vals true false true true
                "image" "image_large" "image_medium" "image_small" g = (Return vals', g))
    by (vm_compute; reflexivity).
  split; [repeat split; assumption|].
  exact (resize_images_priority vals vals' true false true true
           "image" "image_large" "image_medium" "image_small" g g src
           Hdup Hempty Hsrc eq_refl H).
Defined.

(** ** Data URIs *)

Lemma utf8_valid_ascii (b : list byte) :
  Forall (fun c => (Byte.to_N c < 128)%N) b -> utf8_valid b = true.
Proof.
  induction 1 as [|c b Hc _ IH]; [reflexivity|].
  cbn [utf8_valid]. unfold byte_between at 1.
  replace (Byte.to_N c <=? 127)%N with true by (symmetry; apply N.leb_le; lia).
  replace (0 <=? Byte.to_N c)%N with true by (symmetry; apply N.leb_le; lia).
  exact IH.
Qed.

Lemma magicword_cases (b : list byte) :
  let subtype := magicword_get FILETYPE_BASE64_MAGICWORD (take 1 b) "png" in
  subtype ∈ ["jpg"; "gif"; "png"; "svg+xml"]%string /\
  (subtype = "svg+xml"%string <-> svg_sniffed (SrcBytes b) = true) /\
  (b = [] -> subtype = "png"%string).
Proof.
  destruct b as [|c r]; [change (take 1 (@nil byte)) with (@nil byte)
                       |change (take 1 (c :: r)) with [c]].
  - unfold FILETYPE_BASE64_MAGICWORD. cbn [magicword_get svg_sniffed].
    repeat (destruct (decide _) as [?|_]; [discriminate|]).
    split; [list_member|]. split; [split; discriminate|reflexivity].
  - unfold FILETYPE_BASE64_MAGICWORD. cbn [magicword_get svg_sniffed].
    destruct (decide (["/"%byte] = [c])) as [[= <-]|N1].
    { split; [list_member|]. split; [split; discriminate|discriminate]. }
    destruct (decide (["R"%byte] = [c])) as [[= <-]|N2].
    { split; [list_member|]. split; [split; discriminate|discriminate]. }
    destruct (decide (["i"%byte] = [c])) as [[= <-]|N3].
    { split; [list_member|]. split; [split; discriminate|discriminate]. }
    destruct (decide (["P"%byte] = [c])) as [[= <-]|N4].
    { split; [list_member|]. split; [split; reflexivity|discriminate]. }
    split; [list_member|]. split; [|discriminate]. split; [discriminate|].
    intros Hs. exfalso. apply N4. destruct c; try discriminate. reflexivity.
Qed.

Lemma append_inv_head (p a b : string) : (p +:+ a = p +:+ b)%string -> a = b.
Proof.
  induction p as [|c p IH]; [exact (fun H => H)|].
  intros [= H]. apply IH. exact H.
Qed.

Lemma string_of_list_byte_inj (a b : list byte) :
  string_of_list_byte a = string_of_list_byte b -> a = b.
Proof.
  intros H. apply (f_equal list_byte_of_string) in H.
  rewrite !list_byte_of_string_of_list_byte in H. exact H.
Qed.

(** X18. On bytes below 128, as base64 text is, [image_data_uri] returns
    [data:image/<subtype>;base64,<the text>]; the subtype is one of [jpg],
    [gif], [png], [svg+xml], it is [svg+xml] exactly for the sources that
    [image_process] passes through as SVG, and [png] for empty bytes. *)
Theorem image_data_uri_ascii (b : list byte) :
  Forall (fun c => (Byte.to_N c < 128)%N) b ->
  exists subtype,
    image_data_uri (SrcBytes b)
      = inr ("data:image/" +:+ subtype +:+ ";base64," +:+ string_of_list_byte b)%string /\
    subtype ∈ ["jpg"; "gif"; "png"; "svg+xml"]%string /\
    (subtype = "svg+xml"%string <-> svg_sniffed (SrcBytes b) = true) /\
    (b = [] -> subtype = "png"%string).
Proof.
  intros Hb. exists (magicword_get FILETYPE_BASE64_MAGICWORD (take 1 b) "png").
  split; [|apply magicword_cases].
  unfold image_data_uri. rewrite (utf8_valid_ascii b Hb). reflexivity.
Qed.

(** X19. The URI determines the source: two sources with the same URI are the
    same bytes (and only [bytes] have a URI). *)
Theorem image_data_uri_injective (s1 s2 : source) (uri : string) :
  image_data_uri s1 = inr uri -> image_data_uri s2 = inr uri ->
  s1 = s2 /\ exists b, s1 = SrcBytes b /\ utf8_valid b = true.
Proof.
  unfold image_data_uri.
  destruct s1 as [| |b1|t1]; try discriminate.
  destruct s2 as [| |b2|t2]; try discriminate.
  destruct (utf8_valid b1) eqn:V1; [|discriminate].
  destruct (utf8_valid b2) eqn:V2; [|discriminate].
  destruct (magicword_cases b1) as (M1 & _). destruct (magicword_cases b2) as (M2 & _).
  cbv zeta in M1, M2. revert M1 M2.
  generalize (magicword_get FILETYPE_BASE64_MAGICWORD (take 1 b1) "png").
  generalize (magicword_get FILETYPE_BASE64_MAGICWORD (take 1 b2) "png").
  intros t2 t1 M1 M2 H1 H2.
  assert (H : ("data:image/" +:+ t2 +:+ ";base64," +:+ string_of_list_byte b2
               = "data:image/" +:+ t1 +:+ ";base64," +:+ string_of_list_byte b1)%string)
    by congruence.
  clear H1 H2. apply append_inv_head in H.
  assert (Hb : b2 = b1).
  { rewrite !elem_of_cons, elem_of_nil in M1, M2.
    destruct M1 as [->|[->|[->|[->|[]]]]]; destruct M2 as [->|[->|[->|[->|[]]]]];
      try discriminate H;
      (apply (append_inv_head _ (";base64," +:+ _) (";base64," +:+ _)) in H;
       apply append_inv_head in H; apply string_of_list_byte_inj in H; exact H). }
  subst b2. split; [reflexivity|]. exists b1. auto.
Qed.

(** ** Colorize and errors *)

Section Colorize.
Context {Pix Rng : Type} `{!Pillow Pix} `{!RandomSource Rng} {Upper : StrUpper}.

(** X20. What [image_colorize] saves never has an alpha channel or a
    transparency: its mode is [P] for PNG and [RGB] otherwise, and its size is
    the size of the decoded image. *)
Theorem image_colorize_opaque (src : source) (img0 : image Pix) (g : Rng) (v : value) :
  falsy_source src = false -> svg_sniffed src = false ->
  base64_to_image src = Return img0 ->
  (image_colorize src g).1 = Return v ->
  exists img f kwargs,
    v = VBytes (b64encode (image_save img f kwargs)) /\
    im_mode img = (if String.eqb f "PNG" then "P" else "RGB")%string /\
    im_transparency img = false /\
    im_size img = im_size img0.
Proof.
  intros Hne Hsvg Hdec Hv. unfold image_colorize in Hv.
  apply image_process_inv in Hv
    as (img0' & img1 & img2 & f & Hdec' & _ & Hf & Hres & Hcol & Henc); try assumption.
  rewrite Hdec in Hdec'. injection Hdec' as <-.
  unfold resize_step in Hres. simpl in Hres. injection Hres as <-.
  apply resolve_format_in in Hf.
  pose proof (colorize_step_draws img0 g) as Hd. cbv zeta in Hd.
  rewrite Hd in Hcol. cbn [fst] in Hcol.
  apply paste_on_color_inv in Hcol as (Hm2 & Hs2 & _ & Ht2 & _).
  pose proof (encode_step_call img2 f 80) as Hcall. cbv zeta in Hcall.
  rewrite Hcall in Henc. injection Henc as <-. clear Hcall.
  do 3 eexists. split; [reflexivity|].
  rewrite !elem_of_cons, elem_of_nil in Hf.
  destruct Hf as [->|[->|[->|[]]]]; cbn [String.eqb Ascii.eqb Bool.eqb];
    unfold png_step; rewrite ?Hm2; cbn; rewrite ?Hm2; cbn; auto.
Qed.

(** X21. A source that cannot be decoded makes [image_process] and
    [is_image_size_above] raise the exception of [base64_to_image]; nothing
    is returned, and no colour is drawn even with [colorize]. *)
Theorem decode_error_propagates (src : source) (e : exn) (size : Z * Z) (verify : bool)
    (quality : Z) (crop_opt : crop_arg) (colorize : bool) (fmt : option string) (g : Rng) :
  falsy_source src = false -> svg_sniffed src = false ->
  base64_to_image src = Raise e ->
  image_process src size verify quality crop_opt colorize fmt g = (Raise e, g) /\
  is_image_size_above src size = Raise e.
Proof.
  intros Hne Hsvg Hdec. unfold image_process, prepare, is_image_size_above.
  rewrite Hne, Hsvg, Hdec. split; reflexivity.
Qed.

End Colorize.

Lemma image_data_uri_ascii_witness :
  let b := ["i"%byte; "V"%byte; "B"%byte; "O"%byte; "R"%byte; "w"%byte; "0"%byte; "="%byte] in
  Forall (fun c => (Byte.to_N c < 128)%N) b /\
  exists subtype,
    image_data_uri (SrcBytes b)
      = inr ("data:image/" +:+ subtype +:+ ";base64," +:+ string_of_list_byte b)%string /\
    subtype ∈ ["jpg"; "gif"; "png"; "svg+xml"]%string /\
    (subtype = "svg+xml"%string <-> svg_sniffed (SrcBytes b) = true) /\
    (b = [] -> subtype = "png"%string).
Proof.
  intros b.
  assert (H : Forall (fun c => (Byte.to_N c < 128)%N) b) by (repeat constructor).
  split; [exact H|].
  exact (image_data_uri_ascii b H).
Defined.

Lemma image_data_uri_injective_witness :
  let s := SrcBytes ["R"%byte; "0"%byte; "l"%byte; "G"%byte] in
  let uri := "data:image/gif;base64,R0lG"%string in
  image_data_uri s = inr uri /\
  s = s /\ exists b, s = SrcBytes b /\ utf8_valid b = true.
Proof.
  intros s uri. split; [reflexivity|].
  exact (image_data_uri_injective s s uri eq_refl eq_refl).
Defined.

Lemma image_colorize_opaque_witness :
  let src := SrcBytes ["i"%byte] in
  let img0 := Image (2000, 1000) "RGBA" (Some "PNG"%string) false tt in
  let v := VBytes (list_byte_of_string "PNG") in
  (falsy_source src = false /\ svg_sniffed src = false /\
   base64_to_image src = Return img0 /\
   (image_colorize src [1; 2; 3]).1 = Return v) /\
  exists (img : image unit) f kwargs,
    v = VBytes (b64encode (image_save img f kwargs)) /\
    im_mode img = (if String.eqb f "PNG" then "P" else "RGB")%string /\
    im_transparency img = false /\
    im_size img = im_size img0.
Proof.
  intros src img0 v. split; [repeat split|].
  exact (image_colorize_opaque src img0 [1; 2; 3] v eq_refl eq_refl eq_refl eq_refl).
Defined.

Lemma decode_error_propagates_witness :
  let src := SrcBytes ["x"%byte] in
  let e := DecodeError "cannot identify image file" in
  (falsy_source src = false /\ svg_sniffed src = false /\
   base64_to_image (Pix := unit) src = Raise e) /\
  image_process (Pix := unit) src (64, 64) true 80 (CropStr "top") true None [1; 2; 3]
    = (Raise e, [1; 2; 3]) /\
  is_image_size_above (Pix := unit) src (64, 64) = Raise e.
Proof.
  intros src e. split; [repeat split|].
  exact (decode_error_propagates (Pix := unit) src e (64, 64) true 80 (CropStr "top") true
           None [1; 2; 3] eq_refl eq_refl eq_refl).
Defined.
